(** * Resumable streaming ingestion of Reddit archive dumps

    A shallow embedding of the ingestion core of the repository
    (src/utils/file_util.py, src/utils/process.py, src/utils/progress.py and
    src/ingest/extract_reddit_zst_to_db.py) together with the properties
    that its specification states about it.

    Conventions of the embedding:
    - a Python [str] is a list of code points, [bytes] a list of [byte];
    - Python integers are [Z], wall-clock times are rationals [Q];
    - a call that may raise returns a [result];
    - objects that the code mutates (the reader, the task record, the
      database session, the update queue) are threaded explicitly. *)

From Stdlib Require Import String Ascii.
From Stdlib Require Import List ZArith NArith QArith Bool Lia Arith.
From Stdlib Require Import Permutation Sorted.
From Stdlib Require Init.Byte.
Import ListNotations.
Import Init.Byte.

Local Open Scope Z_scope.

(** ** Python values *)

Definition str : Type := list N.

(** A string literal of the source, as a [str]. *)
Definition lit (s : string) : str :=
  map N_of_ascii (list_ascii_of_string s).

Definition str_eq_dec : forall a b : str, {a = b} + {a <> b} :=
  list_eq_dec N.eq_dec.

(** [a == b] *)
Fixpoint str_eqb (a b : str) : bool :=
  match a, b with
  | [], [] => true
  | x :: a', y :: b' => N.eqb x y && str_eqb a' b'
  | _, _ => false
  end.

(** [a.startswith(p)] *)
Fixpoint startswith (p a : str) : bool :=
  match p, a with
  | [], _ => true
  | _ :: _, [] => false
  | x :: p', y :: a' => N.eqb x y && startswith p' a'
  end.

(** [needle in hay] for two strings. *)
Fixpoint str_in (needle hay : str) : bool :=
  startswith needle hay ||
  match hay with
  | [] => false
  | _ :: hay' => str_in needle hay'
  end.

(** [a.endswith(p)] *)
Definition endswith (p a : str) : bool :=
  startswith (rev p) (rev a).

(** The exceptions that the modelled code raises or lets through. *)
Inductive exn : Type :=
| KeyError (key : str)
| JSONDecodeError
| AttributeError
| TypeError
| IndexError
| ValueError (msg : str)
| UnicodeError (bytes_read : Z)
| ZeroDivisionError
| OSError (path : str)
| RecursionError
| OtherError (msg : str).

Inductive result (A : Type) : Type :=
| Ok (a : A)
| Raise (e : exn).
Arguments Ok {A} a.
Arguments Raise {A} e.

Definition bind {A B} (r : result A) (k : A -> result B) : result B :=
  match r with
  | Ok a => k a
  | Raise e => Raise e
  end.

Notation "x <- r ;; k" := (bind r (fun x => k))
  (at level 61, r at next level, right associativity).

(** ** UTF-8 decoding, as [bytes.decode()] does it (strict) *)

Module Utf8.

Local Open Scope N_scope.

Definition between (lo hi n : N) : bool := (lo <=? n) && (n <=? hi).

Definition cont (b : byte) : bool := between 0x80 0xBF (Byte.to_N b).

Definition low6 (b : byte) : N := Byte.to_N b - 0x80.

(** The range allowed for the second byte depends on the lead byte: it
    excludes overlong forms, surrogates and code points past U+10FFFF. *)
Definition second_ok (lead : N) (b : byte) : bool :=
  let n := Byte.to_N b in
  if lead =? 0xE0 then between 0xA0 0xBF n
  else if lead =? 0xED then between 0x80 0x9F n
  else if lead =? 0xF0 then between 0x90 0xBF n
  else if lead =? 0xF4 then between 0x80 0x8F n
  else between 0x80 0xBF n.

(** Decode the character at the head of [bs]; [None] when the head is not
    the complete encoding of one code point. *)
Definition head (bs : list byte) : option (N * list byte) :=
  match bs with
  | [] => None
  | b0 :: r0 =>
    let n0 := Byte.to_N b0 in
    if n0 <? 0x80 then Some (n0, r0)
    else if between 0xC2 0xDF n0 then
      match r0 with
      | b1 :: r1 =>
        if cont b1 then Some ((n0 - 0xC0) * 64 + low6 b1, r1) else None
      | _ => None
      end
    else if between 0xE0 0xEF n0 then
      match r0 with
      | b1 :: b2 :: r2 =>
        if second_ok n0 b1 && cont b2
        then Some (((n0 - 0xE0) * 64 + low6 b1) * 64 + low6 b2, r2)
        else None
      | _ => None
      end
    else if between 0xF0 0xF4 n0 then
      match r0 with
      | b1 :: b2 :: b3 :: r3 =>
        if second_ok n0 b1 && cont b2 && cont b3
        then Some ((((n0 - 0xF0) * 64 + low6 b1) * 64 + low6 b2) * 64
                   + low6 b3, r3)
        else None
      | _ => None
      end
    else None
  end.

Fixpoint decode_fuel (fuel : nat) (bs : list byte) : option str :=
  match bs with
  | [] => Some []
  | _ :: _ =>
    match fuel with
    | O => None
    | S f =>
      match head bs with
      | Some (c, rest) => option_map (cons c) (decode_fuel f rest)
      | None => None
      end
    end
  end.

(** [bs.decode()]: [None] stands for [UnicodeDecodeError]. One unit of fuel
    is spent per character, so the length of the input always suffices. *)
Definition decode (bs : list byte) : option str :=
  decode_fuel (length bs) bs.

End Utf8.

(** ** The decompression reader *)

(** [l[:n]] and [l[n:]] for [n >= 0]; lengths stay in [Z], as Python's
    integers, so that sizes such as [2**27] cost nothing. *)
Fixpoint take {A : Type} (n : Z) (l : list A) : list A :=
  match l with
  | [] => []
  | x :: l' => if n <=? 0 then [] else x :: take (n - 1) l'
  end.

Fixpoint drop {A : Type} (n : Z) (l : list A) : list A :=
  match l with
  | [] => []
  | x :: l' => if n <=? 0 then l else drop (n - 1) l'
  end.

(** The state of [ZstdDecompressor.stream_reader(file_handle)]: the
    decompressed bytes it has not delivered yet and the number it has. *)
Record Reader : Type := mkReader {
  pending : list byte;
  delivered : Z
}.

(** [reader.read(n)]: up to [n] bytes, fewer only at the end of the stream;
    a negative [n] reads everything that is left. *)
Definition reader_read (r : Reader) (n : Z) : list byte * Reader :=
  let chunk := if n <? 0 then pending r else take n (pending r) in
  (chunk,
   {| pending := if n <? 0 then [] else drop n (pending r);
      delivered := delivered r + Z.of_nat (length chunk) |}).

(** [FileHandle.read_and_decode]. [fuel] bounds the depth of the recursion;
    running out of it is Python's [RecursionError]. *)
Fixpoint read_and_decode_rec (fuel : nat) (reader : Reader)
    (chunk_size max_window_size : Z) (previous_chunk : option (list byte))
    (bytes_read : Z) : result str * Reader :=
  let '(chunk, reader) := reader_read reader chunk_size in
  let bytes_read := bytes_read + chunk_size in
  let chunk :=
    match previous_chunk with
    | Some previous => previous ++ chunk
    | None => chunk
    end in
  match Utf8.decode chunk with
  | Some text => (Ok text, reader)
  | None =>
    if max_window_size <? bytes_read
    then (Raise (UnicodeError bytes_read), reader)
    else
      match fuel with
      | O => (Raise RecursionError, reader)
      | S fuel =>
        read_and_decode_rec fuel reader chunk_size max_window_size
          (Some chunk) bytes_read
      end
  end.

(** The recursion goes on while [bytes_read <= max_window_size] and adds
    [chunk_size] each time, so this many nested calls are enough whenever
    [chunk_size] is positive. *)
Definition read_and_decode (reader : Reader) (chunk_size max_window_size : Z)
    (previous_chunk : option (list byte)) (bytes_read : Z)
    : result str * Reader :=
  read_and_decode_rec (Z.to_nat ((max_window_size - bytes_read) / chunk_size))
    reader chunk_size max_window_size previous_chunk bytes_read.

(** [s.split(sep)] for a one-character separator: never empty. *)
Fixpoint split_char (sep : N) (s : str) : list str :=
  match s with
  | [] => [[]]
  | c :: s' =>
    if N.eqb c sep then [] :: split_char sep s'
    else
      match split_char sep s' with
      | l :: ls => (c :: l) :: ls
      | [] => [[c]]
      end
  end.

Definition NEWLINE : N := 10.

(** A compressed archive on disk: the bytes it decompresses to, and the
    offset of the file handle ([file_handle.tell()]) once the decompressor
    has delivered a given number of them. *)
Record Archive : Type := mkArchive {
  decompressed : list byte;
  tell_after : Z -> Z
}.

Definition CHUNK_SIZE : Z := 2 ^ 27.
Definition MAX_WINDOW_SIZE : Z := 2 ^ 29 * 2.

(** The [while True] loop of [FileHandle.yield_lines], with the lines it
    yields in order and the exception that ends it, if any. [None] is a
    loop that has not ended within [fuel] rounds. *)
Fixpoint yield_loop (fuel : nat) (tell : Z -> Z) (reader : Reader)
    (buffer : str) : option (list (str * Z) * option exn) :=
  match fuel with
  | O => None
  | S fuel =>
    match read_and_decode reader CHUNK_SIZE MAX_WINDOW_SIZE None 0 with
    | (Raise e, _) => Some ([], Some e)
    | (Ok [], _) => Some ([], None)
    | (Ok chunk, reader) =>
      let lines := split_char NEWLINE (buffer ++ chunk) in
      let position := tell (delivered reader) in
      match yield_loop fuel tell reader (last lines []) with
      | Some (rest, err) =>
        Some (map (fun line => (line, position)) (removelast lines) ++ rest,
              err)
      | None => None
      end
    end
  end.

(** [FileHandle(path).yield_lines()]; the argument is what is found at
    [path], [None] when [os.path.exists(path)] is false. Every round but the
    last consumes at least one byte. *)
Definition yield_lines (file : option Archive)
    : option (list (str * Z) * option exn) :=
  match file with
  | None => Some ([], None)
  | Some a =>
    yield_loop (S (length (decompressed a))) (tell_after a)
      {| pending := decompressed a; delivered := 0 |} []
  end.

(** ** Task records *)

Inductive FileType : Type := COMMENT | SUBMISSION.

Record FileConfig : Type := mkFileConfig {
  input_path : str;
  output_path : option str;
  file_size : Z;
  complete : bool;
  bytes_processed : Z;
  lines_processed : Z;
  error_message : option str;
  error_lines : Z;
  lines_matched : Z;
  file_type : FileType
}.

Definition SLASH : N := 47.

(** [os.path.split(path)[1]] on POSIX: what follows the last slash. *)
Definition basename (path : str) : str :=
  last (split_char SLASH path) [].

(** What the code reads from the disk. *)
Record FileSystem (text : Type) : Type := mkFileSystem {
  (** [os.stat(path).st_size]; [None] when the call raises *)
  stat_size : str -> option Z;
  (** the archive found at a path *)
  archive : str -> option Archive;
  (** the content of a text file, [None] when the path does not exist *)
  text_file : str -> option text;
  (** [os.walk(root)]: each directory with the files in it *)
  walk : str -> list (str * list str)
}.
Arguments stat_size {text}.
Arguments archive {text}.
Arguments text_file {text}.
Arguments walk {text}.

(** [FileConfig.__init__] *)
Definition FileConfig_init {text} (fs : FileSystem text) (input_path : str)
    (output_path : option str) (complete : bool)
    (lines_processed error_lines lines_matched : Z) : result FileConfig :=
  match stat_size fs input_path with
  | None => Raise (OSError input_path)
  | Some file_size =>
    let file_name := basename input_path in
    let make := mkFileConfig input_path output_path file_size complete
                  (if complete then file_size else 0)
                  (if complete then lines_processed else 0)
                  None error_lines lines_matched in
    if startswith (lit "RS") file_name then Ok (make SUBMISSION)
    else if startswith (lit "RC") file_name then Ok (make COMMENT)
    else Raise (ValueError (lit "Unknown working file type: " ++ file_name))
  end.

(** ** Parsed lines *)

#[local] Set Warnings "-register-all".
Inductive json : Type :=
| JNull
| JBool (b : bool)
| JInt (n : Z)
| JFloat (q : Q)
| JStr (s : str)
| JList (l : list json)
| JDict (d : list (str * json)).

(** [d.get(key)] on a dict given by its items. *)
Fixpoint dict_get (d : list (str * json)) (key : str) : option json :=
  match d with
  | [] => None
  | (k, v) :: d' => if str_eqb k key then Some v else dict_get d' key
  end.

(** [obj[key]] with a string key. *)
Definition subscript (obj : json) (key : str) : result json :=
  match obj with
  | JDict d =>
    match dict_get d key with
    | Some v => Ok v
    | None => Raise (KeyError key)
    end
  | _ => Raise TypeError
  end.

(** [obj.get(key)], for an [obj] that is a dict. *)
Definition get_method (obj : json) (key : str) : option json :=
  match obj with
  | JDict d => dict_get d key
  | _ => None
  end.

(** Functions of Python's library that the code calls on text. *)
Class Library : Type := {
  (** [json.loads]; it raises [JSONDecodeError] on invalid syntax *)
  json_loads : str -> result json;
  (** [str.lower] *)
  str_lower : str -> str;
  (** [str.strip] *)
  str_strip : str -> str;
  (** [str(err)] *)
  exn_str : exn -> str
}.

(** [v.lower()] *)
Definition lower_method {lib : Library} (v : json) : result str :=
  match v with
  | JStr s => Ok (str_lower s)
  | _ => Raise AttributeError
  end.

(** The collaborators of the worker: the record sink (the SQLAlchemy session
    and the two models) and the thread fetcher. *)
Class Sink : Type := {
  Submission : Type;
  Comment : Type;
  Session : Type;
  database_connect : str -> result Session;
  (** the [Submission(...)] call of process_file, which converts
      [created_utc] with [int] and [datetime.utcfromtimestamp] *)
  make_submission : json -> result Submission;
  (** [get_reddit_comments(obj.get("id"))] *)
  get_reddit_comments : option json -> result (list Comment);
  bulk_save_submissions : Session -> list Submission -> result Session;
  bulk_save_comments : Session -> list Comment -> result Session;
  commit : Session -> result Session;
  close : Session -> result Session
}.

(** ** The worker: [process_file] *)

(** Lexicographic [a < b] on strings, by code point. *)
Fixpoint str_ltb (a b : str) : bool :=
  match a, b with
  | [], [] => false
  | [], _ :: _ => true
  | _ :: _, [] => false
  | x :: a', y :: b' => N.ltb x y || (N.eqb x y && str_ltb a' b')
  end.

(** [min(values)] of a non-empty collection of strings. *)
Fixpoint str_min (first : str) (others : list str) : str :=
  match others with
  | [] => first
  | v :: others' => str_min (if str_ltb v first then v else first) others'
  end.

(** The prologue of [process_file]: [value] is bound only for a set of
    exactly one value. The set is given by its members. *)
Definition single_value (values : list str) : option str :=
  match values with
  | [v] => Some (str_min v [])
  | _ => None
  end.

(** The [matched] flag of one line. *)
Definition line_matched (value : option str) (observed : str) : bool :=
  match value with
  | Some value => str_eqb value observed || str_in value observed
  | None => false
  end.

Definition set_lines_matched (f : FileConfig) (n : Z) : FileConfig :=
  mkFileConfig (input_path f) (output_path f) (file_size f) (complete f)
    (bytes_processed f) (lines_processed f) (error_message f) (error_lines f)
    n (file_type f).

Definition set_error_lines (f : FileConfig) (n : Z) : FileConfig :=
  mkFileConfig (input_path f) (output_path f) (file_size f) (complete f)
    (bytes_processed f) (lines_processed f) (error_message f) n
    (lines_matched f) (file_type f).

Definition set_lines_processed (f : FileConfig) (n : Z) : FileConfig :=
  mkFileConfig (input_path f) (output_path f) (file_size f) (complete f)
    (bytes_processed f) n (error_message f) (error_lines f)
    (lines_matched f) (file_type f).

Definition set_bytes_processed (f : FileConfig) (n : Z) : FileConfig :=
  mkFileConfig (input_path f) (output_path f) (file_size f) (complete f)
    n (lines_processed f) (error_message f) (error_lines f)
    (lines_matched f) (file_type f).

Definition set_complete (f : FileConfig) (b : bool) : FileConfig :=
  mkFileConfig (input_path f) (output_path f) (file_size f) b
    (bytes_processed f) (lines_processed f) (error_message f) (error_lines f)
    (lines_matched f) (file_type f).

Definition set_error_message (f : FileConfig) (m : option str) : FileConfig :=
  mkFileConfig (input_path f) (output_path f) (file_size f) (complete f)
    (bytes_processed f) (lines_processed f) m (error_lines f)
    (lines_matched f) (file_type f).

Section Worker.
Context {lib : Library} {sink : Sink}.

(** What [process_file] mutates while it runs. [queue] holds the snapshots
    put on the update channel so far: the channel pickles the record at
    each [put], so a snapshot is the record's value at that moment. *)
Record Worker : Type := mkWorker {
  file : FileConfig;
  matched_records : list Submission;
  comment_records : list Comment;
  session : Session;
  queue : list FileConfig
}.

(** Statements of the worker: they change its state and may raise; the
    state reached when the exception is raised is kept. *)
Definition M (A : Type) : Type := Worker -> result A * Worker.

Definition ret {A} (a : A) : M A := fun w => (Ok a, w).

Definition raise {A} (e : exn) : M A := fun w => (Raise e, w).

Definition mbind {A B} (m : M A) (k : A -> M B) : M B :=
  fun w =>
    match m w with
    | (Ok a, w') => k a w'
    | (Raise e, w') => (Raise e, w')
    end.

Definition lift {A} (r : result A) : M A := fun w => (r, w).

Definition get : M Worker := fun w => (Ok w, w).

Definition modify (g : Worker -> Worker) : M unit := fun w => (Ok tt, g w).

Notation "x <~ m ;; k" := (mbind m (fun x => k))
  (at level 61, m at next level, right associativity).
Notation "m ;;; k" := (mbind m (fun _ => k))
  (at level 61, right associativity).

Definition on_file (g : FileConfig -> FileConfig) (w : Worker) : Worker :=
  mkWorker (g (file w)) (matched_records w) (comment_records w) (session w)
    (queue w).

Definition set_session (s : Session) (w : Worker) : Worker :=
  mkWorker (file w) (matched_records w) (comment_records w) s (queue w).

Definition set_records (ms : list Submission) (cs : list Comment)
    (w : Worker) : Worker :=
  mkWorker (file w) ms cs (session w) (queue w).

(** [queue.put(file)] *)
Definition queue_put (w : Worker) : Worker :=
  mkWorker (file w) (matched_records w) (comment_records w) (session w)
    (queue w ++ [file w]).

(** A call on the session, which leaves it in a new state. *)
Definition on_session (op : Session -> result Session) : M unit :=
  w <~ get ;;
  s <~ lift (op (session w)) ;;
  modify (set_session s).

Definition BATCH_SIZE : Z := 20.

(** "Save records to the database in batches" *)
Definition flush_batch : M unit :=
  w <~ get ;;
  on_session (fun s => bulk_save_submissions s (matched_records w)) ;;;
  match comment_records w with
  | [] => ret tt
  | _ :: _ => on_session (fun s => bulk_save_comments s (comment_records w))
  end ;;;
  on_session commit ;;;
  modify (set_records [] []).

(** The body of the inner [try] for one line. *)
Definition try_line (field : str) (value : option str) (comment_depth : Z)
    (line : str) : M unit :=
  obj <~ lift (json_loads line) ;;
  observed <~ lift (v <- subscript obj field ;; lower_method v) ;;
  let matched := line_matched value observed in
  (if matched then
     submission <~ lift (make_submission obj) ;;
     modify (fun w => set_records (matched_records w ++ [submission])
                        (comment_records w) w) ;;;
     (if 0 <=? comment_depth then
        comments <~ lift (get_reddit_comments (get_method obj (lit "id"))) ;;
        modify (fun w => set_records (matched_records w)
                           (comment_records w ++ comments) w)
      else ret tt) ;;;
     modify (on_file (fun f => set_lines_matched f (lines_matched f + 1)))
   else ret tt) ;;;
  w <~ get ;;
  if BATCH_SIZE <=? Z.of_nat (length (matched_records w))
  then flush_batch
  else ret tt.

(** [except (KeyError, json.JSONDecodeError, AttributeError)] *)
Definition line_handler_catches (e : exn) : bool :=
  match e with
  | KeyError _ | JSONDecodeError | AttributeError => true
  | _ => false
  end.

Definition REPORT_EVERY : Z := 1000000.

(** The inner [try ... except] for one line: an exception that the handler
    catches counts one more error line, any other goes on. *)
Definition guarded_line (field : str) (value : option str)
    (comment_depth : Z) (line : str) : M unit :=
  fun w =>
    match try_line field value comment_depth line w with
    | (Raise e, w') =>
      if line_handler_catches e
      then (Ok tt,
            on_file (fun f => set_error_lines f (error_lines f + 1)) w')
      else (Raise e, w')
    | ok => ok
    end.

(** One round of the [for] loop over the lines. *)
Definition process_line (field : str) (value : option str)
    (comment_depth : Z) (item : str * Z) : M unit :=
  let '(line, file_bytes_processed) := item in
  guarded_line field value comment_depth line ;;;
  modify (on_file (fun f =>
            set_lines_processed f (lines_processed f + 1))) ;;;
  w <~ get ;;
  if lines_processed (file w) mod REPORT_EVERY =? 0 then
    modify (on_file (fun f =>
              set_bytes_processed f file_bytes_processed)) ;;;
    modify queue_put
  else ret tt.

Fixpoint for_lines (field : str) (value : option str) (comment_depth : Z)
    (items : list (str * Z)) : M unit :=
  match items with
  | [] => ret tt
  | item :: items' =>
    process_line field value comment_depth item ;;;
    for_lines field value comment_depth items'
  end.

(** "Save remaining records", then the file is marked complete. *)
Definition finish_file : M unit :=
  w <~ get ;;
  match matched_records w with
  | [] => ret tt
  | _ :: _ =>
    on_session (fun s => bulk_save_submissions s (matched_records w)) ;;;
    on_session commit
  end ;;;
  match comment_records w with
  | [] => ret tt
  | _ :: _ =>
    on_session (fun s => bulk_save_comments s (comment_records w)) ;;;
    on_session commit
  end ;;;
  on_session close ;;;
  modify (on_file (fun f => set_complete f true)) ;;;
  modify (on_file (fun f => set_bytes_processed f (file_size f))).

(** The body of the outer [try], over the lines that [yield_lines] produces
    and the exception that ends them, if any. *)
Definition file_body (field : str) (value : option str) (comment_depth : Z)
    (stream : list (str * Z) * option exn) : M unit :=
  for_lines field value comment_depth (fst stream) ;;;
  match snd stream with
  | Some e => raise e
  | None => finish_file
  end.

(** The outer [try ... except Exception] and the final [queue.put(file)]. *)
Definition process_stream (field : str) (value : option str)
    (comment_depth : Z) (stream : list (str * Z) * option exn)
    (w : Worker) : Worker :=
  match file_body field value comment_depth stream w with
  | (Ok _, w') => queue_put w'
  | (Raise err, w') =>
    queue_put
      (on_file (fun f => set_error_message f (Some (exn_str err))) w')
  end.

(** How a call of [process_file] ends: it returns, or an exception leaves
    it (only [database_connect] is called outside the [try]). *)
Inductive Finished : Type :=
| Returned (w : Worker)
| Escaped (e : exn) (queue : list FileConfig).

(** [process_file(file, queue, field, values, database_name, comment_depth)];
    [None] only if reading the lines did not end. *)
Definition process_file {text} (fs : FileSystem text) (file : FileConfig)
    (queue : list FileConfig) (field : str) (values : list str)
    (database_name : str) (comment_depth : Z) : option Finished :=
  let queue := queue ++ [file] in
  match database_connect database_name with
  | Raise e => Some (Escaped e queue)
  | Ok session =>
    let value := single_value values in
    match yield_lines (archive fs (input_path file)) with
    | None => None
    | Some stream =>
      Some (Returned (process_stream field value comment_depth stream
                        (mkWorker file [] [] session queue)))
    end
  end.

End Worker.

(** ** The checkpoint store *)

(** [json.dumps] and [json.load] on the status file, whose content is kept
    abstract. *)
Class Codec : Type := {
  text : Type;
  json_dumps : json -> text;
  json_load : text -> result json
}.

(** Stable insertion sort, in ascending order of [leb]. *)
Fixpoint insert_sorted {A} (leb : A -> A -> bool) (x : A) (l : list A)
    : list A :=
  match l with
  | [] => [x]
  | y :: l' => if leb x y then x :: l else y :: insert_sorted leb x l'
  end.

Definition sorted {A} (leb : A -> A -> bool) (l : list A) : list A :=
  fold_right (insert_sorted leb) [] l.

Fixpoint map_result {A B} (f : A -> result B) (l : list A)
    : result (list B) :=
  match l with
  | [] => Ok []
  | x :: l' => y <- f x ;; ys <- map_result f l' ;; Ok (y :: ys)
  end.

Section Checkpoint.
Context {codec : Codec}.

Definition write_text (fs : FileSystem text) (path : str) (content : text)
    : FileSystem text :=
  mkFileSystem text (stat_size fs) (archive fs)
    (fun p => if str_eqb p path then Some content else text_file fs p)
    (walk fs).

Definition json_of_path (p : option str) : json :=
  match p with
  | Some s => JStr s
  | None => JNull
  end.

(** One row of ["files"]. *)
Definition simple_file (file : FileConfig) : json :=
  JList [JStr (input_path file); json_of_path (output_path file);
         JBool (complete file); JInt (lines_processed file);
         JInt (error_lines file); JInt (lines_matched file)].

Definition output_dict (input_files : list FileConfig)
    (arg_string script_type : str) (completed_prefixes : list str) : json :=
  JDict [(lit "args", JStr arg_string);
         (lit "type", JStr script_type);
         (lit "completed_prefixes", JList (map JStr completed_prefixes));
         (lit "files", JList (map simple_file input_files))].

(** [save_file_list]; the working folder is created if missing and the
    status file overwritten. The result is the disk afterwards. *)
Definition save_file_list (fs : FileSystem text)
    (input_files : list FileConfig) (working_folder status_json : str)
    (arg_string script_type : str) (completed_prefixes : option (list str))
    : FileSystem text :=
  let completed_prefixes :=
    match completed_prefixes with
    | None => []
    | Some prefixes => sorted (fun a b => negb (str_ltb b a)) prefixes
    end in
  write_text fs status_json
    (json_dumps (output_dict input_files arg_string script_type
                   completed_prefixes)).

(** [FileConfig(simple_file[0], ..., simple_file[5])] for a row of the
    shape that [save_file_list] writes; a row with fewer than six items
    raises [IndexError], and rows of any other shape are reported as
    [TypeError]. *)
Definition rehydrate (fs : FileSystem text) (row : json) : result FileConfig :=
  match row with
  | JList (JStr input_path :: JNull :: JBool complete :: JInt lines_processed
           :: JInt error_lines :: JInt lines_matched :: _) =>
    FileConfig_init fs input_path None complete lines_processed error_lines
      lines_matched
  | JList (JStr input_path :: JStr output_path :: JBool complete
           :: JInt lines_processed :: JInt error_lines :: JInt lines_matched
           :: _) =>
    FileConfig_init fs input_path (Some output_path) complete lines_processed
      error_lines lines_matched
  | JList row => if (length row <? 6)%nat then Raise IndexError
                 else Raise TypeError
  | _ => Raise TypeError
  end.

Definition as_list (v : json) : result (list json) :=
  match v with
  | JList l => Ok l
  | _ => Raise TypeError
  end.

(** [load_file_list]: the task list, the saved argument string and run type
    and the completed prefixes; [None] ([JNull] for the two strings) when
    the status file does not exist. *)
Definition load_file_list (fs : FileSystem text) (status_json : str)
    : result (option (list FileConfig) * json * json * list json) :=
  match text_file fs status_json with
  | Some content =>
    output_dict <- json_load content ;;
    rows <- (v <- subscript output_dict (lit "files") ;; as_list v) ;;
    input_files <- map_result (rehydrate fs) rows ;;
    completed_prefixes <-
      (v <- subscript output_dict (lit "completed_prefixes") ;; as_list v) ;;
    args <- subscript output_dict (lit "args") ;;
    type <- subscript output_dict (lit "type") ;;
    Ok (Some input_files, args, type, completed_prefixes)
  | None => Ok (None, JNull, JNull, [])
  end.

End Checkpoint.

(** ** The coordinator: the script extract_reddit_zst_to_db.py *)

(** The parsed command line. *)
Record Args : Type := mkArgs {
  input : str;
  output : str;
  working : str;
  field : str;
  value : str;
  processes : Z;
  start_date : option str;
  end_date : option str;
  database : str;
  comment_depth : Z
}.

Definition script_type : str := lit "split".

(** [f"{args.field}:{(args.value if args.value else None)}"] *)
Definition arg_string (args : Args) : str :=
  field args ++ lit ":" ++
  match value args with
  | [] => lit "None"
  | v => v
  end.

Definition COMMA : N := 44.

(** The set [values], by its members. *)
Definition values {lib : Library} (args : Args) : list str :=
  nodup str_eq_dec
    (map (fun v => str_lower (str_strip v)) (split_char COMMA (value args))).

(** [os.path.join(a, b)] on POSIX. *)
Definition path_join (a b : str) : str :=
  if startswith [SLASH] b then b
  else
    match a with
    | [] => b
    | _ => if endswith [SLASH] a then a ++ b else a ++ [SLASH] ++ b
    end.

(** Truth value of an object loaded from JSON. *)
Definition truthy (v : json) : bool :=
  match v with
  | JNull => false
  | JBool b => b
  | JInt n => negb (n =? 0)
  | JFloat q => negb (Qeq_bool q 0)
  | JStr s => match s with [] => false | _ => true end
  | JList l => match l with [] => false | _ => true end
  | JDict d => match d with [] => false | _ => true end
  end.

(** [v != s] for a string [s]. *)
Definition differs_from (v : json) (s : str) : bool :=
  match v with
  | JStr t => negb (str_eqb t s)
  | _ => true
  end.

Definition is_digit (c : N) : bool := (48 <=? c)%N && (c <=? 57)%N.

(** [re.search(r"(\d{4}-\d{2})", name)], for ASCII digits. *)
Fixpoint search_date (name : str) : option str :=
  match name with
  | [] => None
  | _ :: name' =>
    match name with
    | a :: b :: c :: d :: e :: f :: g :: _ =>
      if is_digit a && is_digit b && is_digit c && is_digit d
         && N.eqb e 45 && is_digit f && is_digit g
      then Some [a; b; c; d; e; f; g]
      else search_date name'
    | _ => None
    end
  end.

Definition opt_truthy (s : option str) : option str :=
  match s with
  | Some (c :: s') => Some (c :: s')
  | _ => None
  end.

(** Whether the walk keeps a file name. *)
Definition selected (args : Args) (file_name : str) : bool :=
  endswith (lit ".zst") file_name
  && (startswith (lit "RC_") file_name || startswith (lit "RS_") file_name)
  && match search_date file_name with
     | Some file_date =>
       negb (match opt_truthy (start_date args) with
             | Some d => str_ltb file_date d
             | None => false
             end
             || match opt_truthy (end_date args) with
                | Some d => str_ltb d file_date
                | None => false
                end)
     | None => true
     end.

Section Coordinator.
Context {codec : Codec}.

(** "First time running, build the list of files to process" *)
Definition discover (fs : FileSystem text) (args : Args)
    : result (list FileConfig) :=
  map_result
    (fun '(subdir, file_name) =>
       let input_path := path_join subdir file_name in
       let output_path :=
         path_join (working args)
           (rev (skipn 4 (rev file_name)) ++ lit ".zst") in
       FileConfig_init fs input_path (Some output_path) false 0 0 0)
    (flat_map (fun '(subdir, files) =>
                 map (fun file_name => (subdir, file_name))
                   (filter (selected args) files))
       (walk fs (input args))).

Record Totals : Type := mkTotals {
  files_processed : Z;
  files_errored : Z;
  total_bytes_processed : Z;
  total_lines_processed : Z;
  total_lines_matched : Z;
  total_lines_errored : Z
}.

Definition sum_by (g : FileConfig -> Z) (l : list FileConfig) : Z :=
  fold_left (fun acc f => acc + g f) l 0.

(** "Calculate the size for progress reports": the totals over the complete
    files, and the files that are left, largest first. *)
Definition by_size_desc (input_files : list FileConfig) : list FileConfig :=
  sorted (fun a b => file_size b <=? file_size a) input_files.

Definition files_to_process (input_files : list FileConfig)
    : list FileConfig :=
  filter (fun f => negb (complete f)) (by_size_desc input_files).

Definition initial_totals (input_files : list FileConfig) : Totals :=
  let done := filter complete (by_size_desc input_files) in
  mkTotals (Z.of_nat (length done)) 0 (sum_by file_size done)
    (sum_by lines_processed done) (sum_by lines_matched done)
    (sum_by error_lines done).

(** How the script gets to the worker pool, or does not. *)
Inductive Startup : Type :=
| SysExit (code : Z)
| Uncaught (e : exn)
| Dispatch (fs : FileSystem text) (input_files to_process : list FileConfig).

Definition startup (fs : FileSystem text) (args : Args) : Startup :=
  let status_json := path_join (working args) (lit "status.json") in
  match load_file_list fs status_json with
  | Raise e => Uncaught e
  | Ok (input_files, saved_arg_string, saved_type, completed_prefixes) =>
    if truthy saved_arg_string
       && differs_from saved_arg_string (arg_string args)
    then SysExit 0
    else if truthy saved_type && differs_from saved_type script_type
    then SysExit 0
    else
      let listed :=
        match input_files with
        | None =>
          match discover fs args with
          | Raise e => Raise e
          | Ok input_files =>
            Ok (save_file_list fs input_files (working args) status_json
                  (arg_string args) script_type None,
                input_files)
          end
        | Some input_files => Ok (fs, input_files)
        end in
      match listed with
      | Raise e => Uncaught e
      | Ok (fs, input_files) =>
        match input_files with
        | [] => SysExit 0
        | _ => Dispatch fs input_files (files_to_process input_files)
        end
      end
  end.

(** The class [Queue] of file_util.py. *)
Record Queue (A : Type) : Type := mkQueue {
  items : list A;
  max_size : Z
}.
Arguments items {A}.
Arguments max_size {A}.

Definition Queue_put {A} (q : Queue A) (item : A) : Queue A :=
  mkQueue A
    ((if max_size q <=? Z.of_nat (length (items q))
      then tl (items q) else items q) ++ [item])
    (max_size q).

Definition Queue_peek {A} (q : Queue A) : option A :=
  match items q with
  | x :: _ => Some x
  | [] => None
  end.

(** [int(x)] for a real [x]: truncation towards zero. *)
Definition trunc (x : Q) : Z := Z.quot (Qnum x) (Zpos (Qden x)).

(** [a / b] *)
Definition truediv (a b : Q) : result Q :=
  if Qeq_bool b 0 then Raise ZeroDivisionError else Ok (a / b)%Q.

(** What one progress line reports. *)
Record Report : Type := mkReport {
  totals : Totals;
  bytes_per_second : Z;
  seconds_left : Z;
  minutes_left : Z;
  hours_left : Z;
  days_left : Z
}.

(** The state of the main loop. *)
Record Coordinator : Type := mkCoordinator {
  disk : FileSystem text;
  input_files : list FileConfig;
  progress_queue : Queue (Q * Z * Z);
  speed_queue : Queue Z;
  reports : list Report
}.

Definition is_terminal (f : FileConfig) : bool :=
  complete f || match error_message f with Some _ => true | None => false end.

Definition has_error (f : FileConfig) : bool :=
  match error_message f with Some _ => true | None => false end.

(** One round of the [while] loop, for the update taken from the channel
    and the time read in that round. *)
Definition drain_step (args : Args) (total_bytes : Z) (c : Coordinator)
    (update : FileConfig * Q) : result Coordinator :=
  let '(file_update, current_time) := update in
  if lines_processed file_update =? 0 then Ok c
  else
    let input_files :=
      map (fun file => if str_eqb (input_path file) (input_path file_update)
                       then file_update else file) (input_files c) in
    let totals :=
      mkTotals (Z.of_nat (length (filter is_terminal input_files)))
        (Z.of_nat (length (filter has_error input_files)))
        (sum_by bytes_processed input_files)
        (sum_by lines_processed input_files)
        (sum_by lines_matched input_files)
        (sum_by error_lines input_files) in
    let disk :=
      if is_terminal file_update
      then save_file_list (disk c) input_files (working args)
             (path_join (working args) (lit "status.json"))
             (arg_string args) script_type None
      else disk c in
    let progress_queue :=
      Queue_put (progress_queue c)
        (current_time, total_lines_processed totals,
         total_bytes_processed totals) in
    match Queue_peek progress_queue with
    | None => Raise TypeError
    | Some (first_time, first_lines, first_bytes) =>
      rate <- truediv (inject_Z (total_bytes_processed totals - first_bytes))
                (current_time - first_time)%Q ;;
      let bytes_per_second := trunc rate in
      let speed_queue := Queue_put (speed_queue c) bytes_per_second in
      mean <- truediv (inject_Z (fold_left Z.add (items speed_queue) 0))
                (inject_Z (Z.of_nat (length (items speed_queue)))) ;;
      left <- truediv (inject_Z (total_bytes - total_bytes_processed totals))
                (inject_Z (trunc mean)) ;;
      let seconds_left := trunc left in
      let minutes_left := trunc (inject_Z seconds_left / 60)%Q in
      let hours_left := trunc (inject_Z minutes_left / 60)%Q in
      let days_left := trunc (inject_Z hours_left / 24)%Q in
      _ <- truediv (inject_Z (total_bytes_processed totals))
             (inject_Z total_bytes) ;;
      Ok (mkCoordinator disk input_files progress_queue speed_queue
            (reports c ++ [mkReport totals bytes_per_second seconds_left
                             minutes_left hours_left days_left]))
    end.

Fixpoint drain (args : Args) (total_bytes : Z) (c : Coordinator)
    (updates : list (FileConfig * Q)) : result Coordinator :=
  match updates with
  | [] => Ok c
  | update :: updates' =>
    c' <- drain_step args total_bytes c update ;;
    drain args total_bytes c' updates'
  end.

(** How a run of the script ends. *)
Inductive Run : Type :=
| Exited (code : Z)
| Died (e : exn)
| Completed (c : Coordinator).

(** The script, for the updates that the workers send and the times at
    which the main loop reads the clock. *)
Definition main (fs : FileSystem text) (args : Args) (start_time : Q)
    (updates : list (FileConfig * Q)) : Run :=
  match startup fs args with
  | SysExit code => Exited code
  | Uncaught e => Died e
  | Dispatch fs input_files to_process =>
    let first := initial_totals input_files in
    let c :=
      mkCoordinator fs input_files
        (Queue_put (mkQueue _ [] 40)
           (start_time, total_lines_processed first,
            total_bytes_processed first))
        (mkQueue _ [] 40) [] in
    match to_process with
    | [] => Completed c
    | _ =>
      if Z.min (processes args) (Z.of_nat (length to_process)) <? 1
      then Died (ValueError (lit "Number of processes must be at least 1"))
      else
        match drain args (sum_by file_size input_files) c updates with
        | Ok c' => Completed c'
        | Raise e => Died e
        end
    end
  end.

(** The exit status of the interpreter: that of [sys.exit], 1 for an
    exception that nothing catches, 0 at the end of the script. *)
Definition exit_code (r : Run) : Z :=
  match r with
  | Exited code => code
  | Died _ => 1
  | Completed _ => 0
  end.

End Coordinator.

(** ** UTF-8 encoding, as [str.encode('utf-8')] does it (strict) *)

Module Utf8Encoder.

Local Open Scope N_scope.

(** The byte of a number below 256. *)
Definition byte_of (n : N) : byte :=
  match Byte.of_N n with
  | Some b => b
  | None => x00
  end.

(** The bytes of one code point; [None] stands for [UnicodeEncodeError],
    which a surrogate raises. A Python string holds no code point past
    U+10FFFF. *)
Definition encode_char (c : N) : option (list byte) :=
  if c <? 0x80 then Some [byte_of c]
  else if c <? 0x800 then
    Some [byte_of (0xC0 + c / 64); byte_of (0x80 + c mod 64)]
  else if c <? 0x10000 then
    if Utf8.between 0xD800 0xDFFF c then None
    else Some [byte_of (0xE0 + c / 4096); byte_of (0x80 + (c / 64) mod 64);
               byte_of (0x80 + c mod 64)]
  else if c <? 0x110000 then
    Some [byte_of (0xF0 + c / 262144); byte_of (0x80 + (c / 4096) mod 64);
          byte_of (0x80 + (c / 64) mod 64); byte_of (0x80 + c mod 64)]
  else None.

Fixpoint encode (s : str) : option (list byte) :=
  match s with
  | [] => Some []
  | c :: s' =>
    match encode_char c, encode s' with
    | Some bs, Some rest => Some (bs ++ rest)
    | _, _ => None
    end
  end.

End Utf8Encoder.

(** ** Writing lines: the rest of [FileHandle] *)

Module Writer.

(** The keys that the code looks up or stores in [self.handles]. *)
Inductive Key : Type :=
| IntKey (n : Z)
| StrKey (s : str).

Definition Key_eqb (a b : Key) : bool :=
  match a, b with
  | IntKey m, IntKey n => m =? n
  | StrKey s, StrKey t => str_eqb s t
  | _, _ => false
  end.

(** A stream writer, named by its rank among those created. *)
Definition Handle : Type := nat.

(** What reaches the operating system and the compressor. *)
Inductive Event : Type :=
| Opened (path : str) (handle : Handle)
| Wrote (handle : Handle) (data : list byte)
| Closed (handle : Handle).

Record FileHandle : Type := mkFileHandle {
  path : str;
  handles : list (Key * Handle)
}.

(** [FileHandle(path)] *)
Definition init (path : str) : FileHandle := mkFileHandle path [].

(** ["\n".encode('utf-8')] *)
Definition newline_encoded : list byte := [x0a].

(** [d.get(key)] *)
Fixpoint dict_get (d : list (Key * Handle)) (key : Key) : option Handle :=
  match d with
  | [] => None
  | (k, h) :: d' => if Key_eqb k key then Some h else dict_get d' key
  end.

(** [d[key] = handle]: a key that is there keeps its place. *)
Fixpoint dict_set (d : list (Key * Handle)) (key : Key) (handle : Handle)
    : list (Key * Handle) :=
  match d with
  | [] => [(key, handle)]
  | (k, h) :: d' =>
    if Key_eqb k key then (k, handle) :: d'
    else (k, h) :: dict_set d' key handle
  end.

Definition is_open (e : Event) : bool :=
  match e with
  | Opened _ _ => true
  | _ => false
  end.

(** The writers created so far. *)
Definition opened (trace : list Event) : nat :=
  length (filter is_open trace).

Section Disk.

(** Whether [open(path, 'wb')] succeeds. *)
Variable writable : str -> bool.

(** [get_write_handle]: the handle is looked up under the key [1] and
    stored under the path. *)
Definition get_write_handle (self : FileHandle) (trace : list Event)
    : result Handle * FileHandle * list Event :=
  match dict_get (handles self) (IntKey 1) with
  | Some handle => (Ok handle, self, trace)
  | None =>
    if writable (path self) then
      let handle := opened trace in
      (Ok handle,
       mkFileHandle (path self)
         (dict_set (handles self) (StrKey (path self)) handle),
       trace ++ [Opened (path self) handle])
    else (Raise (OSError (path self)), self, trace)
  end.

(** [write_line]; a line that cannot be encoded raises
    [UnicodeEncodeError], a [ValueError], once the handle is there. *)
Definition write_line (self : FileHandle) (trace : list Event) (line : str)
    : result unit * FileHandle * list Event :=
  match get_write_handle self trace with
  | (Raise e, self, trace) => (Raise e, self, trace)
  | (Ok handle, self, trace) =>
    match Utf8Encoder.encode line with
    | None => (Raise (ValueError (lit "surrogates not allowed")), self, trace)
    | Some data =>
      (Ok tt, self,
       trace ++ [Wrote handle data; Wrote handle newline_encoded])
    end
  end.

End Disk.

(** [close]: every handle that [self.handles] holds is closed. *)
Definition close (self : FileHandle) (trace : list Event) : list Event :=
  trace ++ map (fun entry => Closed (snd entry)) (handles self).

End Writer.

(** ** Fetching the comments of a post: [get_reddit_comments] *)

Module Reddit.

(** [obj[i]] with an integer index that is not negative. A dict loaded from
    JSON has string keys only, so an integer is not among them. *)
Definition subscript_int (obj : json) (i : nat) : result json :=
  match obj with
  | JList l =>
    match nth_error l i with
    | Some v => Ok v
    | None => Raise IndexError
    end
  | JStr s =>
    match nth_error s i with
    | Some c => Ok (JStr [c])
    | None => Raise IndexError
    end
  | JDict _ => Raise (KeyError (lit "1"))
  | _ => Raise TypeError
  end.

(** [key in obj] for a string [key]. *)
Definition contains (key : str) (obj : json) : result bool :=
  match obj with
  | JDict d =>
    Ok (match dict_get d key with Some _ => true | None => false end)
  | JStr s => Ok (str_in key s)
  | JList l =>
    Ok (existsb (fun v => match v with
                          | JStr s => str_eqb key s
                          | _ => false
                          end) l)
  | _ => Raise TypeError
  end.

(** [for item in obj]: the items in order; a dict gives its keys. *)
Definition iterate (obj : json) : result (list json) :=
  match obj with
  | JList l => Ok l
  | JDict d => Ok (map (fun entry => JStr (fst entry)) d)
  | JStr s => Ok (map (fun c => JStr [c]) s)
  | _ => Raise TypeError
  end.

(** [isinstance(obj, dict)] *)
Definition is_dict (obj : json) : bool :=
  match obj with
  | JDict _ => true
  | _ => false
  end.

(** What [requests.get] returns: the status and what [response.json()]
    gives. *)
Record Response : Type := mkResponse {
  status_code : Z;
  response_json : result json
}.

Section Fetch.

Variable datetime : Type.
(** [datetime.utcfromtimestamp] *)
Variable utcfromtimestamp : json -> result datetime.
(** [str(v)], which formats a value inside an f-string *)
Variable py_str : json -> str.
(** The depth of calls that the interpreter allows. *)
Variable recursion_limit : nat.
(** The outcome of the [attempt]-th call of [requests.get] for the post,
    counted from 0. *)
Variable get : nat -> result Response.

(** The model [Comment], with the columns that the code fills. *)
Record Comment : Type := mkComment {
  id : json;
  post_id : option json;
  parent_id : option json;
  author : str;
  created_utc : option datetime;
  body : json;
  depth : Z
}.

(** The [Comment(...)] call for the entry whose ["data"] is [data]; the
    keyword arguments are evaluated in the order they are written in. *)
Definition make_comment (data : json) (post_id parent_id : option json)
    (depth : Z) : result Comment :=
  id <- subscript data (lit "id") ;;
  author <- subscript data (lit "author") ;;
  author <-
    (if differs_from author (lit "[deleted]")
     then name <- subscript data (lit "author") ;;
          Ok (lit "u/" ++ py_str name)
     else Ok (lit "[deleted]")) ;;
  created <- subscript data (lit "created_utc") ;;
  created_utc <-
    (if truthy created
     then stamp <- subscript data (lit "created_utc") ;;
          time <- utcfromtimestamp stamp ;;
          Ok (Some time)
     else Ok None) ;;
  body <- subscript data (lit "body") ;;
  Ok (mkComment id post_id parent_id author created_utc body depth).

(** ["body" in data and data["author"] != "AutoModerator"] *)
Definition has_text (data : json) : result bool :=
  has_body <- contains (lit "body") data ;;
  if has_body
  then author <- subscript data (lit "author") ;;
       Ok (differs_from author (lit "AutoModerator"))
  else Ok false.

(** ["replies" in data and isinstance(data["replies"], dict)] *)
Definition has_replies (data : json) : result bool :=
  has_key <- contains (lit "replies") data ;;
  if has_key
  then replies <- subscript data (lit "replies") ;;
       Ok (is_dict replies)
  else Ok false.

(** [for item in items: body], where [body] may raise and leaves
    [comments] longer. *)
Fixpoint for_each (body : json -> list Comment -> result (list Comment))
    (items : list json) (comments : list Comment) : result (list Comment) :=
  match items with
  | [] => Ok comments
  | item :: items' =>
    comments <- body item comments ;;
    for_each body items' comments
  end.

(** The body of the loop of [extract_comments] for one entry; [recur] is
    the nested call for its replies. *)
Definition entry
    (recur : json -> option json -> Z -> list Comment
             -> result (list Comment))
    (post_id parent_id : option json) (depth : Z) (comment : json)
    (comments : list Comment) : result (list Comment) :=
  data <- subscript comment (lit "data") ;;
  keep <- has_text data ;;
  if keep then
    row <- make_comment data post_id parent_id depth ;;
    let comments := comments ++ [row] in
    nested <- has_replies data ;;
    if nested then
      replies <- subscript data (lit "replies") ;;
      listing <- subscript replies (lit "data") ;;
      children <- subscript listing (lit "children") ;;
      id <- subscript data (lit "id") ;;
      recur children (Some id) (depth + 1) comments
    else Ok comments
  else Ok comments.

(** The nested function [extract_comments], which appends to [comments];
    [fuel] is the depth of calls that is left. *)
Fixpoint extract_comments (fuel : nat) (post_id : option json)
    (comment_list : json) (parent_id : option json) (depth : Z)
    (comments : list Comment) : result (list Comment) :=
  match fuel with
  | O => Raise RecursionError
  | S fuel =>
    items <- iterate comment_list ;;
    for_each (entry (extract_comments fuel post_id) post_id parent_id depth)
      items comments
  end.

(** How the [for attempt in range(max_retries)] loop ends. *)
Inductive Attempts : Type :=
| Broke (response : Response)
| Exhausted (last : option Response)
| ReturnedEmpty
| Failed (e : exn).

(** The loop from the attempt [attempt] on, with [left] attempts to go; the
    waits are given without the random part, which is below a second. *)
Fixpoint attempts (left attempt : nat) (wait_time : Z)
    (last : option Response) (sleeps : list Z) : Attempts * list Z * nat :=
  match left with
  | O => (Exhausted last, sleeps, attempt)
  | S left' =>
    match get attempt with
    | Raise e => (Failed e, sleeps, S attempt)
    | Ok response =>
      if status_code response =? 200 then
        (Broke response, sleeps, S attempt)
      else if status_code response =? 429 then
        attempts left' (S attempt) (wait_time * 2) (Some response)
          (sleeps ++ [wait_time])
      else (ReturnedEmpty, sleeps, S attempt)
    end
  end.

(** [get_reddit_comments(post_id, max_retries)]: what it returns or
    raises, the waits between the attempts and the number of requests. *)
Definition get_reddit_comments (post_id : option json) (max_retries : Z)
    : result (list Comment) * list Z * nat :=
  let '(ending, sleeps, requests) :=
    attempts (Z.to_nat max_retries) 0 2 None [] in
  let outcome :=
    match ending with
    | Failed e => Raise e
    | ReturnedEmpty => Ok []
    | Exhausted None =>
      Raise (OtherError (lit "UnboundLocalError: response"))
    | Exhausted (Some response) | Broke response =>
      if negb (status_code response =? 200) then Ok []
      else
        data <- response_json response ;;
        listing <- subscript_int data 1 ;;
        listing <- subscript listing (lit "data") ;;
        children <- subscript listing (lit "children") ;;
        extract_comments recursion_limit post_id children post_id 0 []
    end in
  (outcome, sleeps, requests).

End Fetch.

End Reddit.

(** * Vocabulary of the statements

    Definitions that the theorems below are stated and proved with, and a
    small world (a disk, a line parser, a sink) on which the code is run. *)

(** ** Reading and decoding *)

Definition previous_bytes (previous_chunk : option (list byte)) : list byte :=
  match previous_chunk with
  | Some previous => previous
  | None => []
  end.

(** What has been accumulated once [n] more bytes have been asked for. *)
Definition accumulated (previous_chunk : option (list byte)) (r : Reader)
    (n : Z) : list byte :=
  previous_bytes previous_chunk ++ take n (pending r).

(** The reader once [n] more bytes have been asked for. *)
Definition after_reads (r : Reader) (n : Z) : Reader :=
  {| pending := drop n (pending r);
     delivered := delivered r + Z.of_nat (length (take n (pending r))) |}.

(** The outcome of a call, read off the data: the text of the first
    accumulation that decodes, if the window is not exceeded before;
    otherwise [UnicodeError] at the first count past the window. *)
Inductive outcome (r : Reader) (c w : Z) (prev : option (list byte))
    (br : Z) : result str * Reader -> Prop :=
| decoded k t :
    1 <= k ->
    (forall j, 1 <= j < k ->
       Utf8.decode (accumulated prev r (j * c)) = None /\ br + j * c <= w) ->
    Utf8.decode (accumulated prev r (k * c)) = Some t ->
    outcome r c w prev br (Ok t, after_reads r (k * c))
| window_exceeded k :
    1 <= k ->
    (forall j, 1 <= j < k ->
       Utf8.decode (accumulated prev r (j * c)) = None /\ br + j * c <= w) ->
    Utf8.decode (accumulated prev r (k * c)) = None ->
    w < br + k * c ->
    outcome r c w prev br
      (Raise (UnicodeError (br + k * c)), after_reads r (k * c)).

(** The lines that a text holds: its segments but the last, which no
    newline ends. *)
Definition complete_lines (t : str) : list str :=
  removelast (split_char NEWLINE t).

(** A character that is not the separator joins the first segment. *)
Definition cons_first (c : N) (segments : list str) : list str :=
  match segments with
  | l :: ls => (c :: l) :: ls
  | [] => []
  end.

(** How [yield_lines] may end on valid text: it is exhausted, or
    [read_and_decode] gave up past the window. *)
Definition ends_well (lines : list str) (err : option exn)
    (expected : list str) : Prop :=
  match err with
  | None => lines = expected
  | Some e =>
    (exists n, e = UnicodeError n /\ MAX_WINDOW_SIZE < n)
    /\ exists missing, expected = lines ++ missing
  end.

(** Some chunk boundary among the nine that follow the [m]-th falls between
    two characters of [data]. *)
Definition boundary_within_window (data : list byte) (m : Z) : Prop :=
  exists k, 1 <= k <= 9
            /\ Utf8.decode (take ((m + k) * CHUNK_SIZE) data) <> None.

(** [n] times the two bytes of U+00E9. *)
Fixpoint e_acute (n : nat) : list byte :=
  match n with
  | O => []
  | S n' => xc3 :: xa9 :: e_acute n'
  end.

(** One line: the letter a, then [n] times U+00E9. Every character after
    the first starts at an odd offset, so every even offset but 0 and
    the last falls inside a character. *)
Definition odd_line (n : nat) : list byte := x61 :: e_acute n ++ [x0a].

Definition odd_line_text (n : nat) : str := 97%N :: repeat 233%N n ++ [10%N].

(** ** The worker *)

(** Two workers that agree but for [d] more lines counted as processed and as
    errored in the second; the byte offset and the snapshots sent are left
    free. *)
Definition ahead_by {sink : Sink} (d : Z) (w1 w2 : Worker) : Prop :=
  matched_records w1 = matched_records w2
  /\ comment_records w1 = comment_records w2
  /\ session w1 = session w2
  /\ lines_matched (file w2) = lines_matched (file w1)
  /\ error_lines (file w2) = error_lines (file w1) + d
  /\ lines_processed (file w2) = lines_processed (file w1) + d
  /\ complete (file w2) = complete (file w1)
  /\ error_message (file w2) = error_message (file w1)
  /\ file_size (file w2) = file_size (file w1).

(** Statements that cannot tell such workers apart. *)
Definition alike {sink : Sink} {A} (d : Z) (m1 m2 : M A) : Prop :=
  forall w1 w2, ahead_by d w1 w2 ->
    fst (m1 w1) = fst (m2 w2) /\ ahead_by d (snd (m1 w1)) (snd (m2 w2)).

(** What the specification asks of a snapshot. *)
Definition snapshot_ok (f : FileConfig) : bool :=
  (lines_matched f <=? lines_processed f)
  && (bytes_processed f <=? file_size f).

(** What a statement may do to the counters and the channel: nothing but
    count up to [n] more matches. *)
Definition counted {sink : Sink} (n : Z) (w w' : Worker) : Prop :=
  lines_matched (file w) <= lines_matched (file w')
    <= lines_matched (file w) + n
  /\ lines_processed (file w') = lines_processed (file w)
  /\ bytes_processed (file w') = bytes_processed (file w)
  /\ file_size (file w') = file_size (file w)
  /\ queue w' = queue w.

Definition within {sink : Sink} {A} (n : Z) (m : M A) : Prop :=
  forall w, counted n w (snd (m w)).

(** Between two lines the matched lines are among the processed ones, and
    so it is in every snapshot sent so far. *)
Definition in_step {sink : Sink} (size : Z) (w : Worker) : Prop :=
  file_size (file w) = size
  /\ lines_matched (file w) <= lines_processed (file w)
  /\ bytes_processed (file w) <= size
  /\ forallb snapshot_ok (queue w) = true.

(** Statements that keep a property of the worker. *)
Definition keeps {sink : Sink} {A} (P : Worker -> Prop) (m : M A) : Prop :=
  forall w, P w -> P (snd (m w)).

(** The predicate as the specification words it: the field value equals, or
    contains, any member of the value set. *)
Definition spec_matched (values : list str) (observed : str) : bool :=
  existsb (fun v => str_eqb v observed || str_in v observed) values.

(** The record that a call of [process_file] leaves. *)
Definition final_file {sink : Sink} (r : option Finished) : option FileConfig :=
  match r with
  | Some (Returned w) => Some (file w)
  | _ => None
  end.

(** The snapshots that a call of [process_file] has put on the channel. *)
Definition sent {sink : Sink} (r : option Finished) : list FileConfig :=
  match r with
  | Some (Returned w) => queue w
  | Some (Escaped _ q) => q
  | None => []
  end.

(** ** Task records, the checkpoint and the coordinator *)

(** The type that the base name of a path stands for. *)
Definition name_type (file_name : str) : option FileType :=
  if startswith (lit "RS") file_name then Some SUBMISSION
  else if startswith (lit "RC") file_name then Some COMMENT
  else None.

(** A record of a file that is on the disk with the size it was given, and
    of the type of its name: what [FileConfig.__init__] builds, whatever
    the progress made since. *)
Definition on_disk {text} (fs : FileSystem text) (f : FileConfig) : Prop :=
  stat_size fs (input_path f) = Some (file_size f)
  /\ name_type (basename (input_path f)) = Some (file_type f).

(** The record that loading gives back for a saved one. *)
Definition reloaded (f : FileConfig) : FileConfig :=
  mkFileConfig (input_path f) (output_path f) (file_size f) (complete f)
    (if complete f then file_size f else 0)
    (if complete f then lines_processed f else 0)
    None (error_lines f) (lines_matched f) (file_type f).


(** The files given to the worker pool: [process_file] is called on each of
    them and on nothing else. *)
Definition dispatched {codec : Codec} (s : Startup) : list FileConfig :=
  match s with
  | Dispatch _ _ to_process => to_process
  | _ => []
  end.

Definition status_json_of (args : Args) : str :=
  path_join (working args) (lit "status.json").


(** ** A small world to run the code in *)

Definition QUOTE : N := 34.

Definition quoted (s : string) : str := QUOTE :: lit s ++ [QUOTE].

(** The line [{"subreddit": "<name>"}]. *)
Definition subreddit_line (name : string) : str :=
  lit "{" ++ quoted "subreddit" ++ lit ": " ++ quoted name ++ lit "}".

Definition ascii_lower (s : str) : str :=
  map (fun c => if (65 <=? c)%N && (c <=? 90)%N then (c + 32)%N else c) s.

Definition is_space (c : N) : bool :=
  N.eqb c 32 || ((9 <=? c)%N && (c <=? 13)%N).

Fixpoint lstrip (s : str) : str :=
  match s with
  | c :: s' => if is_space c then lstrip s' else s
  | [] => []
  end.

Definition ascii_strip (s : str) : str := rev (lstrip (rev (lstrip s))).

(** [json.loads] on the lines of the examples: an object with the one key
    "subreddit" and a plain string for it; any other line of the examples
    is not JSON. *)
Definition loads_subreddit (line : str) : result json :=
  let opening := lit "{" ++ quoted "subreddit" ++ lit ": " ++ [QUOTE] in
  let closing := [QUOTE] ++ lit "}" in
  let name :=
    rev (skipn (length closing) (rev (skipn (length opening) line))) in
  if str_eqb line (opening ++ name ++ closing)
     && negb (existsb (fun c => N.eqb c QUOTE || N.eqb c 92) name)
  then Ok (JDict [(lit "subreddit", JStr name)])
  else Raise JSONDecodeError.

Definition example_library : Library :=
  {| json_loads := loads_subreddit;
     str_lower := ascii_lower;
     str_strip := ascii_strip;
     exn_str := fun e =>
       match e with
       | KeyError key => key
       | ValueError msg | OtherError msg => msg
       | _ => lit "error"
       end |}.

(** A sink that keeps the rows it is given, and a fetcher with no
    replies. *)
Definition example_sink : Sink :=
  {| Submission := json;
     Comment := unit;
     Session := list json;
     database_connect := fun _ => Ok [];
     make_submission := fun obj => Ok obj;
     get_reddit_comments := fun _ => Ok [];
     bulk_save_submissions := fun s rows => Ok (s ++ rows);
     bulk_save_comments := fun s _ => Ok s;
     commit := fun s => Ok s;
     close := fun s => Ok s |}.

(** The same, with a database that refuses every write. *)
Definition unavailable_sink : Sink :=
  {| Submission := json;
     Comment := unit;
     Session := list json;
     database_connect := fun _ => Ok [];
     make_submission := fun obj => Ok obj;
     get_reddit_comments := fun _ => Ok [];
     bulk_save_submissions := fun _ _ => Raise (OtherError (lit "gone away"));
     bulk_save_comments := fun s _ => Ok s;
     commit := fun s => Ok s;
     close := fun s => Ok s |}.

(** The status file, kept as the document it holds. *)
Definition example_codec : Codec :=
  {| text := json; json_dumps := fun v => v; json_load := fun v => Ok v |}.

#[export] Existing Instances example_library example_sink example_codec.

Definition encode_ascii (s : str) : list byte :=
  map (fun c => match Byte.of_N c with Some b => b | None => x00 end) s.

Definition archive_of_lines (lines : list str) : Archive :=
  {| decompressed :=
       encode_ascii (concat (map (fun l => l ++ [NEWLINE]) lines));
     tell_after := fun n => n |}.

(** Seven bytes: two lines, the first with a two-byte character, and a
    third that no newline ends. *)
Definition short_archive : Archive :=
  {| decompressed := [x68; xc3; xa9; x0a; x61; x0a; x62];
     tell_after := fun n => n |}.

(** A line of 9 * 2^27 + 2 bytes: the letter a, 9 * 2^26 times U+00E9 and a
    newline. *)
Definition LONG_LINE_CHARS : nat := Z.to_nat (9 * 2 ^ 26).

Definition long_line_archive : Archive :=
  {| decompressed := odd_line LONG_LINE_CHARS; tell_after := fun n => n |}.

Definition RS_2020 : str := lit "dumps/RS_2020-01.zst".

Definition RC_2020 : str := lit "dumps/RC_2020-01.zst".

(** A disk with two archives, of 90 and of 60 bytes, and no status file. *)
Definition example_disk : FileSystem json :=
  {| stat_size := fun p =>
       if str_eqb p RS_2020 then Some 90
       else if str_eqb p RC_2020 then Some 60
       else None;
     archive := fun p =>
       if str_eqb p RS_2020
       then Some (archive_of_lines [subreddit_line "MentalHealth";
                                    subreddit_line "python";
                                    subreddit_line "mentalhealth_uk"])
       else if str_eqb p RC_2020
       then Some (archive_of_lines [subreddit_line "python";
                                    subreddit_line "rust"])
       else None;
     text_file := fun _ => None;
     walk := fun _ =>
       [(lit "dumps", [lit "RC_2020-01.zst"; lit "RS_2020-01.zst";
                       lit "notes.txt"])] |}.

Definition example_args (value : string) : Args :=
  {| input := lit "dumps"; output := []; working := lit "temp_files";
     field := lit "subreddit"; value := lit value; processes := 10;
     start_date := None; end_date := None; database := lit "reddit_bc";
     comment_depth := -1 |}.

Definition status_path : str := lit "temp_files/status.json".

(** The records of the two archives as a first run lists them, and the
    smaller one once it is done. *)
Definition todo_RS_2020 : FileConfig :=
  mkFileConfig RS_2020 (Some (lit "temp_files/RS_2020-01.zst")) 90 false 0 0
    None 0 0 SUBMISSION.

Definition todo_RC_2020 : FileConfig :=
  mkFileConfig RC_2020 (Some (lit "temp_files/RC_2020-01.zst")) 60 false 0 0
    None 0 0 COMMENT.

Definition done_RC_2020 : FileConfig :=
  mkFileConfig RC_2020 (Some (lit "temp_files/RC_2020-01.zst")) 60 true 60 2
    None 0 0 COMMENT.

(** The larger archive after a first report of progress. *)
Definition halfway_RS_2020 : FileConfig :=
  mkFileConfig RS_2020 (Some (lit "temp_files/RS_2020-01.zst")) 90 false 40
    1000000 None 0 7 SUBMISSION.

(** The larger archive when the database has refused its rows at the end of
    the file: three lines processed, two matched, no byte counted. *)
Definition failed_RS_2020 : FileConfig :=
  mkFileConfig RS_2020 (Some (lit "temp_files/RS_2020-01.zst")) 90 false 0 3
    (Some (lit "gone away")) 0 2 SUBMISSION.

(** The same record as the next run loads it from the checkpoint. *)
Definition resumed_RS_2020 : FileConfig :=
  mkFileConfig RS_2020 (Some (lit "temp_files/RS_2020-01.zst")) 90 false 0 0
    None 0 2 SUBMISSION.

(** [process_file] on a record of the disk, for a [--value] argument. *)
Definition run_worker (sink : Sink) (f : FileConfig) (value : string)
    : option Finished :=
  process_file (lib := example_library) (sink := sink) example_disk f []
    (lit "subreddit") (values (lib := example_library) (example_args value))
    (lit "reddit_bc") (-1).

Definition fresh_worker : Worker (sink := example_sink) :=
  mkWorker (sink := example_sink) todo_RS_2020 [] [] [] [todo_RS_2020].

(** The script on a disk, for a [--value] argument, started at time 0. *)
Definition run_main (fs : FileSystem json) (value : string)
    (updates : list (FileConfig * Q)) : Run :=
  main (codec := example_codec) fs (example_args value) 0 updates.

(** The disk after a run for [--value mentalhealth] that was stopped when
    the smaller archive was done. *)
Definition stopped_disk : FileSystem json :=
  save_file_list (codec := example_codec) example_disk
    [done_RC_2020; todo_RS_2020] (lit "temp_files") status_path
    (lit "subreddit:mentalhealth") script_type None.

Definition is_ascii (b : byte) : Prop := (Byte.to_N b < 0x80)%N.

(** Three bytes, the last two the start of a three-byte character. *)
Definition truncated_archive : Archive :=
  {| decompressed := [x61; x0a; xe2; x82]; tell_after := fun n => n |}.

(** ** Writing lines *)

(** [for line in lines: handle.write_line(line)] *)
Fixpoint write_lines (writable : str -> bool) (self : Writer.FileHandle)
    (trace : list Writer.Event) (lines : list str)
    : result unit * Writer.FileHandle * list Writer.Event :=
  match lines with
  | [] => (Ok tt, self, trace)
  | line :: lines' =>
    match Writer.write_line writable self trace line with
    | (Ok _, self, trace) => write_lines writable self trace lines'
    | failed => failed
    end
  end.

(** What one call of [write_line] sends to the writer [handle] that it
    has opened at [path]. *)
Definition line_events (path : str) (entry : nat * list byte)
    : list Writer.Event :=
  let '(handle, data) := entry in
  [Writer.Opened path handle; Writer.Wrote handle data;
   Writer.Wrote handle Writer.newline_encoded].

(** The handle of the last of [n] calls, if there was a call. *)
Definition last_handle (n : nat) : list Writer.Handle :=
  match n with
  | O => []
  | S m => [m]
  end.

(** ** More on the worker *)

(** Statements that move the worker along a relation, whether they return
    or raise. *)
Definition steps {sink : Sink} {A} (R : Worker -> Worker -> Prop) (m : M A)
    : Prop :=
  forall w, R w (snd (m w)).

(** The fields of a record that say which file it is about. *)
Definition same_file (f g : FileConfig) : Prop :=
  input_path g = input_path f
  /\ output_path g = output_path f
  /\ file_size g = file_size f
  /\ file_type g = file_type f.

(** Snapshots are only added to the channel, and those added by the loop
    over the lines are sent on a multiple of [REPORT_EVERY] lines, for the
    same file, which they show neither complete nor failed if it was
    not. *)
Definition reported {sink : Sink} (w w' : Worker) : Prop :=
  same_file (file w) (file w')
  /\ complete (file w') = complete (file w)
  /\ error_message (file w') = error_message (file w)
  /\ exists sent_since,
       queue w' = queue w ++ sent_since
       /\ Forall (fun s => lines_processed s mod REPORT_EVERY = 0
                           /\ same_file (file w) s
                           /\ complete s = complete (file w)
                           /\ error_message s = error_message (file w))
            sent_since.

(** Statements that leave the lines counted as errors alone. *)
Definition errors_kept {sink : Sink} (w w' : Worker) : Prop :=
  error_lines (file w') = error_lines (file w).

(** Statements that send nothing and change neither the file that the
    record is about, nor its counters, nor its error message. *)
Definition settled {sink : Sink} (w w' : Worker) : Prop :=
  same_file (file w) (file w')
  /\ queue w' = queue w
  /\ error_message (file w') = error_message (file w)
  /\ lines_processed (file w') = lines_processed (file w)
  /\ error_lines (file w') = error_lines (file w)
  /\ lines_matched (file w') = lines_matched (file w).

(** A parser that knows one line more than [loads_subreddit]: the number
    42. *)
Definition loads_number_or_subreddit (line : str) : result json :=
  if str_eqb line (lit "42") then Ok (JInt 42) else loads_subreddit line.

Definition number_library : Library :=
  {| json_loads := loads_number_or_subreddit;
     str_lower := ascii_lower;
     str_strip := ascii_strip;
     exn_str := fun e =>
       match e with
       | KeyError key => key
       | ValueError msg | OtherError msg => msg
       | TypeError => lit "'int' object is not subscriptable"
       | _ => lit "error"
       end |}.

(** ** More on the coordinator *)

(** The last [n] items of a list, all of them if there are fewer. *)
Definition last_items {A} (n : nat) (l : list A) : list A :=
  skipn (length l - n) l.

(** The status file holds the checkpoint of a task list, written for an
    argument string and a run type. *)
Definition holds_checkpoint {codec : Codec} (fs : FileSystem text)
    (status_json : str) (files : list FileConfig)
    (saved_arg_string saved_type : str) : Prop :=
  text_file fs status_json
  = Some (json_dumps (output_dict files saved_arg_string saved_type [])).

(** The files that the walk keeps, each with its directory. *)
Definition candidates {text} (fs : FileSystem text) (args : Args)
    : list (str * str) :=
  flat_map (fun '(subdir, files) =>
              map (fun file_name => (subdir, file_name))
                (filter (selected args) files))
    (walk fs (input args)).

(** The record that discovery builds for a file of a directory. *)
Definition discovered {text} (fs : FileSystem text) (args : Args)
    (entry : str * str) (f : FileConfig) : Prop :=
  let '(subdir, file_name) := entry in
  input_path f = path_join subdir file_name
  /\ output_path f = Some (path_join (working args) file_name)
  /\ stat_size fs (input_path f) = Some (file_size f)
  /\ file_type f
     = (if startswith (lit "RS_") file_name then SUBMISSION else COMMENT)
  /\ complete f = false
  /\ bytes_processed f = 0
  /\ lines_processed f = 0
  /\ error_message f = None
  /\ error_lines f = 0
  /\ lines_matched f = 0.

(** A record of the task list after some updates: the record it was, or an
    update for the same path. *)
Definition updated_by (updates : list (FileConfig * Q)) (f g : FileConfig)
    : Prop :=
  g = f
  \/ exists time, In (g, time) updates /\ input_path g = input_path f.

(** The disk of [stopped_disk] after the smaller archive was deleted. *)
Definition disk_without_RC : FileSystem json :=
  {| stat_size := fun p => if str_eqb p RS_2020 then Some 90 else None;
     archive := archive stopped_disk;
     text_file := text_file stopped_disk;
     walk := walk stopped_disk |}.

(** The coordinator of the two archives at the start of the loop. *)
Definition example_coordinator : Coordinator (codec := example_codec) :=
  mkCoordinator (codec := example_codec) example_disk
    [todo_RC_2020; todo_RS_2020]
    (Queue_put (mkQueue _ [] 40) (0%Q, 0, 0)) (mkQueue _ [] 40) [].

(** The larger archive once it is done. *)
Definition done_RS_2020 : FileConfig :=
  mkFileConfig RS_2020 (Some (lit "temp_files/RS_2020-01.zst")) 90 true 90 3
    None 0 2 SUBMISSION.

(** A disk with one archive that holds no line. *)
Definition empty_RS_disk : FileSystem json :=
  {| stat_size := fun p => if str_eqb p RS_2020 then Some 90 else None;
     archive := fun p =>
       if str_eqb p RS_2020 then Some (archive_of_lines []) else None;
     text_file := fun _ => None;
     walk := fun _ => [(lit "dumps", [lit "RS_2020-01.zst"])] |}.

(** ** The comments of a post *)

(** The tree of comments of a post as Reddit's listing gives it: comments
    with their replies, and stubs that stand for comments left out. *)
Inductive Thread : Type :=
| More (count : Z) (children : list str)
| Reply (id author : str) (created_utc : json) (body : str)
    (replies : list Thread).

Definition listing_json (children : list json) : json :=
  JDict [(lit "kind", JStr (lit "Listing"));
         (lit "data", JDict [(lit "children", JList children)])].

(** The ["data"] of a comment; a comment without replies has the empty
    string for them. *)
Definition reply_data (id author : str) (created_utc : json) (body : str)
    (replies : list json) : json :=
  JDict [(lit "id", JStr id); (lit "author", JStr author);
         (lit "created_utc", created_utc); (lit "body", JStr body);
         (lit "replies",
          match replies with
          | [] => JStr []
          | _ => listing_json replies
          end)].

Fixpoint thread_json (t : Thread) : json :=
  match t with
  | More count children =>
    JDict [(lit "kind", JStr (lit "more"));
           (lit "data", JDict [(lit "count", JInt count);
                               (lit "children", JList (map JStr children))])]
  | Reply id author created_utc body replies =>
    JDict [(lit "kind", JStr (lit "t1"));
           (lit "data",
            reply_data id author created_utc body (map thread_json replies))]
  end.

(** The calls of [extract_comments] that are nested for a tree. *)
Fixpoint height (t : Thread) : nat :=
  match t with
  | More _ _ => 0
  | Reply _ _ _ _ replies =>
    S (fold_right (fun r h => Nat.max (height r) h) O replies)
  end.

Definition forest_height (threads : list Thread) : nat :=
  fold_right (fun r h => Nat.max (height r) h) O threads.

Section Rows.
Variable datetime : Type.
Variable utcfromtimestamp : json -> result datetime.

(** The time of a comment: none for a timestamp that is false. *)
Definition stamp (created_utc : json) : option datetime :=
  if truthy created_utc then
    match utcfromtimestamp created_utc with
    | Ok time => Some time
    | Raise _ => None
    end
  else None.

(** The rows of a tree, the comment before its replies: a stub gives none
    and neither does a comment of AutoModerator, replies included. *)
Fixpoint rows (post_id parent_id : option json) (depth : Z) (t : Thread)
    : list (Reddit.Comment datetime) :=
  match t with
  | More _ _ => []
  | Reply id author created_utc body replies =>
    if str_eqb author (lit "AutoModerator") then []
    else
      Reddit.mkComment datetime (JStr id) post_id parent_id
        (if str_eqb author (lit "[deleted]") then lit "[deleted]"
         else lit "u/" ++ author)
        (stamp created_utc) (JStr body) depth
      :: flat_map (rows post_id (Some (JStr id)) (depth + 1)) replies
  end.

(** Every timestamp of the tree that is not false is one that
    [utcfromtimestamp] takes. *)
Fixpoint dated (t : Thread) : Prop :=
  match t with
  | More _ _ => True
  | Reply _ _ created_utc _ replies =>
    (truthy created_utc = true ->
     exists time, utcfromtimestamp created_utc = Ok time)
    /\ fold_right (fun r P => dated r /\ P) True replies
  end.

(** [dated] for each tree of a listing. *)
Definition all_dated (threads : list Thread) : Prop :=
  fold_right (fun r P => dated r /\ P) True threads.

End Rows.

(** The waits of [k] attempts in a row that were answered 429. *)
Definition backoff (k : nat) : list Z :=
  map (fun i => 2 * 2 ^ Z.of_nat i) (seq 0 k).

(** The document of a post with its comments. *)
Definition post_json (post : json) (threads : list Thread) : json :=
  JList [post; listing_json (map thread_json threads)].

(** A clock that takes the whole numbers, a formatter, and three servers:
    one that always answers 429, one that answers 404 at the third attempt,
    and one that answers with a document. *)
Definition example_clock (v : json) : result Z :=
  match v with
  | JInt n => Ok n
  | _ => Raise TypeError
  end.

Definition example_str (v : json) : str :=
  match v with
  | JStr s => s
  | _ => lit "?"
  end.

Definition refusing_server (attempt : nat) : result Reddit.Response :=
  Ok (Reddit.mkResponse 429 (Raise JSONDecodeError)).

Definition absent_post_server (attempt : nat) : result Reddit.Response :=
  if (attempt <? 2)%nat then Ok (Reddit.mkResponse 429 (Raise JSONDecodeError))
  else Ok (Reddit.mkResponse 404 (Raise JSONDecodeError)).

Definition document_server (document : json) (attempt : nat)
    : result Reddit.Response :=
  Ok (Reddit.mkResponse 200 (Ok document)).

(** A comment with a reply of AutoModerator, which has a reply of its own,
    and with a reply of a deleted author; then a stub. *)
Definition example_threads : list Thread :=
  [Reply (lit "c1") (lit "alice") (JInt 1577836800) (lit "hello")
     [Reply (lit "c2") (lit "AutoModerator") (JInt 1577836801) (lit "rules")
        [Reply (lit "c3") (lit "bob") (JInt 1577836802) (lit "ok") []];
      Reply (lit "c4") (lit "[deleted]") (JInt 0) (lit "[removed]") []];
   More 3 [lit "c9"]].

(** A sink whose fetcher finds a thread without the key it reads. *)
Definition keyless_thread_sink : Sink :=
  {| Submission := json;
     Comment := unit;
     Session := list json;
     database_connect := fun _ => Ok [];
     make_submission := fun obj => Ok obj;
     get_reddit_comments := fun _ => Raise (KeyError (lit "data"));
     bulk_save_submissions := fun s rows => Ok (s ++ rows);
     bulk_save_comments := fun s _ => Ok s;
     commit := fun s => Ok s;
     close := fun s => Ok s |}.

(** ** A file with one malformed line *)

(** The text of lines that a newline ends each. *)
Definition terminated (lines : list str) : str :=
  concat (map (fun line => line ++ [NEWLINE]) lines).

(** [yield_lines] gets to the end of the archive, and raises nothing. *)
Definition read_to_end (a : Archive) : Prop :=
  exists items, yield_lines (Some a) = Some (items, None).

Definition archive_of_text (t : str) : Archive :=
  {| decompressed := encode_ascii t; tell_after := fun n => n |}.

(** A disk with the one archive [a], of 90 bytes, at the path of
    [todo_RS_2020]. *)
Definition disk_of (a : Archive) : FileSystem json :=
  {| stat_size := fun p => if str_eqb p RS_2020 then Some 90 else None;
     archive := fun p => if str_eqb p RS_2020 then Some a else None;
     text_file := fun _ => None;
     walk := fun _ => [(lit "dumps", [lit "RS_2020-01.zst"])] |}.

(** Two lines with a line that is not JSON between them; the two lines
    alone; and a line followed by a malformed one that no newline ends. *)
Definition with_bad_line : str :=
  terminated [subreddit_line "MentalHealth"; lit "{not json";
              subreddit_line "python"].

Definition without_bad_line : str :=
  terminated [subreddit_line "MentalHealth"; subreddit_line "python"].

Definition bad_last_line : str :=
  terminated [subreddit_line "MentalHealth"] ++ lit "{not json".

(** * Properties *)

Module Utf8Facts.
Import Utf8.

Lemma head_app (a b : list byte) c a' :
  head a = Some (c, a') -> head (a ++ b) = Some (c, a' ++ b).
Proof.
  unfold head.
  destruct a as [|b0 [|b1 [|b2 [|b3 r]]]]; simpl; try discriminate;
    repeat match goal with
    | |- context [if ?x then _ else _] => destruct x
    end;
    intros E; inversion E; subst; reflexivity.
Qed.

Lemma head_shorter (a : list byte) c a' :
  head a = Some (c, a') -> (length a' < length a)%nat.
Proof.
  unfold head.
  destruct a as [|b0 [|b1 [|b2 [|b3 r]]]]; simpl; try discriminate;
    repeat match goal with
    | |- context [if ?x then _ else _] => destruct x
    end;
    intros E; inversion E; subst; simpl; lia.
Qed.

Lemma decode_fuel_enough fuel : forall bs,
  (length bs <= fuel)%nat -> decode_fuel fuel bs = decode bs.
Proof.
  unfold decode.
  induction fuel as [fuel IH] using lt_wf_ind.
  intros bs Hlen. destruct bs as [|b bs]; [destruct fuel; reflexivity|].
  destruct fuel as [|fuel]; [simpl in Hlen; lia|].
  cbn [decode_fuel length].
  destruct (head (b :: bs)) as [[c rest]|] eqn:Hh; [|reflexivity].
  pose proof (head_shorter _ _ _ Hh) as Hs. simpl in Hs, Hlen.
  rewrite (IH fuel) by lia.
  rewrite (IH (length bs)) by lia. reflexivity.
Qed.

(** The equation that [decode] satisfies. *)
Lemma decode_eq (bs : list byte) :
  decode bs =
  match bs with
  | [] => Some []
  | _ :: _ =>
    match head bs with
    | Some (c, rest) => option_map (cons c) (decode rest)
    | None => None
    end
  end.
Proof.
  destruct bs as [|b bs]; [reflexivity|].
  unfold decode at 1. cbn [length decode_fuel].
  destruct (head (b :: bs)) as [[c rest]|] eqn:Hh; [|reflexivity].
  pose proof (head_shorter _ _ _ Hh) as Hs. simpl in Hs.
  rewrite decode_fuel_enough by lia. reflexivity.
Qed.

Lemma decode_app (a : list byte) : forall ta b,
  decode a = Some ta ->
  decode (a ++ b) = option_map (app ta) (decode b).
Proof.
  induction a as [a IH] using (induction_ltof1 _ (@length byte)).
  unfold ltof in IH.
  intros ta b Ha. rewrite decode_eq in Ha.
  destruct a as [|x a].
  - inversion Ha; subst. simpl. destruct (decode b); reflexivity.
  - destruct (head (x :: a)) as [[c rest]|] eqn:Hh; [|discriminate].
    destruct (decode rest) as [tr|] eqn:Hr; [|discriminate].
    inversion Ha; subst.
    rewrite decode_eq. cbn [app].
    change (x :: a ++ b) with ((x :: a) ++ b).
    rewrite (head_app _ b _ _ Hh).
    rewrite (IH rest (head_shorter _ _ _ Hh) tr b Hr).
    destruct (decode b); reflexivity.
Qed.

Lemma decode_empty_text (bs : list byte) :
  decode bs = Some [] -> bs = [].
Proof.
  rewrite decode_eq. destruct bs; [reflexivity|].
  destruct (head _) as [[c rest]|]; [|discriminate].
  destruct (decode rest); discriminate.
Qed.

Example decode_euro : decode [xe2; x82; xac] = Some [8364%N].
Proof. reflexivity. Qed.

Example decode_emoji : decode [xf0; x9f; x98; x80] = Some [128512%N].
Proof. reflexivity. Qed.

Example decode_truncated : decode [x61; xe2; x82] = None.
Proof. reflexivity. Qed.

Example decode_overlong : decode [xc0; x80] = None.
Proof. reflexivity. Qed.

Example decode_surrogate : decode [xed; xa0; x80] = None.
Proof. reflexivity. Qed.

End Utf8Facts.
Import Utf8Facts.

(** ** Slices *)

Lemma take_drop {A} (l : list A) : forall n, take n l ++ drop n l = l.
Proof.
  induction l as [|x l IH]; intros n; simpl; [reflexivity|].
  destruct (n <=? 0); simpl; [reflexivity|]. now rewrite IH.
Qed.

Lemma take_nonpos {A} (l : list A) n : n <= 0 -> take n l = [].
Proof.
  intros Hn. destruct l; simpl; [reflexivity|].
  destruct (Z.leb_spec n 0); [reflexivity|lia].
Qed.

Lemma drop_nonpos {A} (l : list A) n : n <= 0 -> drop n l = l.
Proof.
  intros Hn. destruct l; simpl; [reflexivity|].
  destruct (Z.leb_spec n 0); [reflexivity|lia].
Qed.

(** Reading [a] items and then [b] more is reading [a + b]. *)
Lemma take_take_drop {A} (l : list A) : forall a b,
  0 <= a -> 0 <= b -> take a l ++ take b (drop a l) = take (a + b) l.
Proof.
  induction l as [|x l IH]; intros a b Ha Hb; simpl; [reflexivity|].
  destruct (Z.leb_spec a 0).
  - replace a with 0 by lia. simpl. reflexivity.
  - destruct (Z.leb_spec (a + b) 0); [lia|].
    simpl. rewrite IH by lia. do 2 f_equal. lia.
Qed.

Lemma drop_drop {A} (l : list A) : forall a b,
  0 <= a -> 0 <= b -> drop b (drop a l) = drop (a + b) l.
Proof.
  induction l as [|x l IH]; intros a b Ha Hb; simpl; [reflexivity|].
  destruct (Z.leb_spec a 0).
  - replace a with 0 by lia. simpl. reflexivity.
  - destruct (Z.leb_spec (a + b) 0); [lia|].
    rewrite IH by lia. f_equal. lia.
Qed.

Lemma take_empty_iff {A} (l : list A) n : 0 < n -> take n l = [] -> l = [].
Proof.
  destruct l; simpl; [reflexivity|].
  destruct (Z.leb_spec n 0); [lia|discriminate].
Qed.

Lemma length_take_drop {A} (l : list A) n :
  length l = (length (take n l) + length (drop n l))%nat.
Proof. rewrite <- (take_drop l n) at 1. apply length_app. Qed.

(** ** [read_and_decode] *)

Lemma reader_read_pos r c :
  0 < c -> reader_read r c = (take c (pending r), after_reads r c).
Proof.
  intros Hc. unfold reader_read, after_reads.
  destruct (Z.ltb_spec c 0); [lia|reflexivity].
Qed.

Lemma accumulated_shift prev r a b :
  0 <= a -> 0 <= b ->
  accumulated (Some (accumulated prev r a)) (after_reads r a) b
  = accumulated prev r (a + b).
Proof.
  intros Ha Hb. unfold accumulated, after_reads. cbn [pending previous_bytes].
  rewrite <- app_assoc. f_equal. now apply take_take_drop.
Qed.

Lemma after_reads_shift r a b :
  0 <= a -> 0 <= b ->
  after_reads (after_reads r a) b = after_reads r (a + b).
Proof.
  intros Ha Hb. unfold after_reads. cbn [pending delivered].
  rewrite drop_drop by assumption. f_equal.
  rewrite <- (take_take_drop (pending r) a b) by assumption.
  rewrite length_app. lia.
Qed.

Lemma read_and_decode_rec_outcome fuel : forall r c w prev br,
  0 < c -> w < br + c + Z.of_nat fuel * c ->
  outcome r c w prev br (read_and_decode_rec fuel r c w prev br).
Proof.
  induction fuel as [|fuel IH]; intros r c w prev br Hc Hfuel;
    cbn [read_and_decode_rec]; rewrite (reader_read_pos r c Hc);
    replace (match prev with Some previous => previous ++ take c (pending r)
                           | None => take c (pending r) end)
      with (accumulated prev r c)
      by (unfold accumulated; destruct prev; reflexivity);
    destruct (Utf8.decode (accumulated prev r c)) as [t|] eqn:Hd.
  1,3: pose proof (decoded r c w prev br 1 t) as D;
       rewrite !Z.mul_1_l in D; apply D; [lia|intros; lia|exact Hd].
  - destruct (Z.ltb_spec w (br + c)); [|lia].
    pose proof (window_exceeded r c w prev br 1) as D.
    rewrite !Z.mul_1_l in D. apply D; [lia|intros; lia|exact Hd|lia].
  - destruct (Z.ltb_spec w (br + c)).
    + pose proof (window_exceeded r c w prev br 1) as D.
      rewrite !Z.mul_1_l in D. apply D; [lia|intros; lia|exact Hd|lia].
    + specialize (IH (after_reads r c) c w (Some (accumulated prev r c))
                    (br + c) Hc ltac:(lia)).
      assert (Hshift : forall k, 0 <= k ->
                accumulated (Some (accumulated prev r c)) (after_reads r c)
                  (k * c) = accumulated prev r ((k + 1) * c)).
      { intros k Hk. rewrite accumulated_shift by nia. f_equal. lia. }
      assert (Hafter : forall k, 0 <= k ->
                after_reads (after_reads r c) (k * c)
                = after_reads r ((k + 1) * c)).
      { intros k Hk. rewrite after_reads_shift by nia. f_equal. lia. }
      assert (Hfirst : forall k j, 1 <= k ->
                (forall j, 1 <= j < k ->
                   Utf8.decode (accumulated (Some (accumulated prev r c))
                                  (after_reads r c) (j * c)) = None
                   /\ br + c + j * c <= w) ->
                1 <= j < k + 1 ->
                Utf8.decode (accumulated prev r (j * c)) = None
                /\ br + j * c <= w).
      { intros k j Hk Hall Hj. destruct (Z.eq_dec j 1) as [->|Hne].
        - rewrite Z.mul_1_l. split; [assumption|lia].
        - destruct (Hall (j - 1) ltac:(lia)) as [Hn Hw].
          rewrite Hshift in Hn by lia.
          replace (j - 1 + 1) with j in Hn by lia. split; [assumption|lia]. }
      inversion IH as [k t Hk Hall Hdec Heq | k Hk Hall Hdec Hw Heq].
      * rewrite Hafter by lia. rewrite Hshift in Hdec by lia.
        apply decoded; [lia| |assumption].
        intros j Hj. now apply (Hfirst k).
      * rewrite Hafter by lia. rewrite Hshift in Hdec by lia.
        replace (br + c + k * c) with (br + (k + 1) * c) by lia.
        apply window_exceeded; [lia| |assumption|lia].
        intros j Hj. now apply (Hfirst k).
Qed.

Lemma read_and_decode_outcome r c w prev br :
  0 < c ->
  outcome r c w prev br (read_and_decode r c w prev br).
Proof.
  intros Hc. unfold read_and_decode.
  apply read_and_decode_rec_outcome; [assumption|].
  destruct (Z.le_gt_cases 0 (w - br)) as [Hnn|Hneg].
  - rewrite Z2Nat.id by (apply Z.div_pos; lia).
    pose proof (Z.mul_succ_div_gt (w - br) c Hc). lia.
  - assert ((w - br) / c < 0) by (apply Z.div_lt_upper_bound; lia).
    destruct ((w - br) / c); simpl; lia.
Qed.

(** ** Lines *)

Lemma split_char_nonempty sep s : split_char sep s <> [].
Proof.
  destruct s as [|c s]; simpl; [discriminate|].
  destruct (N.eqb c sep); [discriminate|].
  destruct (split_char sep s); discriminate.
Qed.

Lemma last_split_no_sep sep s : ~ In sep (last (split_char sep s) []).
Proof.
  induction s as [|c s IH]; simpl; [tauto|].
  destruct (N.eqb_spec c sep) as [->|Hne].
  - destruct (split_char sep s) eqn:E; [now apply split_char_nonempty in E|].
    exact IH.
  - destruct (split_char sep s) as [|l [|l2 ls]] eqn:E;
      [now apply split_char_nonempty in E| |exact IH].
    simpl in *. intros [->|Hin]; [now apply Hne|tauto].
Qed.

Lemma split_char_no_sep sep s : ~ In sep s -> split_char sep s = [s].
Proof.
  induction s as [|c s IH]; simpl; [reflexivity|].
  intros Hnot. destruct (N.eqb_spec c sep) as [->|Hne]; [tauto|].
  rewrite IH by tauto. reflexivity.
Qed.

Lemma split_char_cons sep c s :
  N.eqb c sep = false ->
  split_char sep (c :: s) = cons_first c (split_char sep s).
Proof.
  intros Hc. cbn [split_char]. rewrite Hc.
  pose proof (split_char_nonempty sep s).
  destruct (split_char sep s); [tauto|reflexivity].
Qed.

Lemma removelast_cons_first c L :
  L <> [] -> removelast (cons_first c L) = cons_first c (removelast L).
Proof. destruct L as [|l [|l2 ls]]; [tauto|reflexivity|reflexivity]. Qed.

(** Splitting a text in two blocks: the lines of the first block, then the
    lines of what the first block leaves followed by the second. *)
Lemma split_char_app sep u v :
  removelast (split_char sep (u ++ v))
  = removelast (split_char sep u)
    ++ removelast (split_char sep (last (split_char sep u) [] ++ v)).
Proof.
  induction u as [|c u IH]; [reflexivity|].
  pose proof (split_char_nonempty sep (u ++ v)) as N1.
  pose proof (split_char_nonempty sep u) as N2.
  destruct (N.eqb c sep) eqn:Ec.
  - cbn [app split_char]. rewrite Ec.
    destruct (split_char sep (u ++ v)) as [|x xs] eqn:E1; [tauto|].
    destruct (split_char sep u) as [|y ys] eqn:E2; [tauto|].
    cbn [removelast last] in *.
    change (match ys with [] => y | _ :: _ => last ys [] end)
      with (last (y :: ys) []).
    rewrite IH. reflexivity.
  - change ((c :: u) ++ v) with (c :: (u ++ v)).
    rewrite !(split_char_cons sep c) by assumption.
    rewrite !removelast_cons_first by assumption. rewrite IH.
    destruct (split_char sep u) as [|y [|y2 ys]] eqn:E2; [tauto| |].
    + cbn [removelast last cons_first app].
      change (c :: y ++ v) with (c :: (y ++ v)).
      rewrite split_char_cons by assumption.
      rewrite removelast_cons_first by apply split_char_nonempty.
      reflexivity.
    + reflexivity.
Qed.

Lemma complete_lines_app u v :
  complete_lines (u ++ v)
  = complete_lines u
    ++ complete_lines (last (split_char NEWLINE u) [] ++ v).
Proof. apply split_char_app. Qed.

Lemma complete_lines_no_newline s : ~ In NEWLINE s -> complete_lines s = [].
Proof.
  intros Hs. unfold complete_lines. now rewrite split_char_no_sep.
Qed.

(** ** [yield_lines] *)

Lemma CHUNK_SIZE_pos : 0 < CHUNK_SIZE.
Proof. reflexivity. Qed.

Lemma MAX_WINDOW_SIZE_chunks : MAX_WINDOW_SIZE = 8 * CHUNK_SIZE.
Proof. reflexivity. Qed.

Lemma decoded_text_nonempty bs t :
  Utf8.decode bs = Some t -> t <> [] -> bs <> [].
Proof.
  intros Hd Ht ->. change (Utf8.decode []) with (@Some str []) in Hd.
  inversion Hd; subst. now apply Ht.
Qed.

Lemma length_drop_lt {A} (l : list A) n :
  take n l <> [] -> (length (drop n l) < length l)%nat.
Proof.
  intros Hne. rewrite (length_take_drop l n).
  destruct (take n l); [tauto|simpl; lia].
Qed.

(** The loop ends: every round that goes on has consumed a byte. *)
Lemma yield_loop_ends tell fuel : forall r buffer,
  (length (pending r) < fuel)%nat ->
  yield_loop fuel tell r buffer <> None.
Proof.
  induction fuel as [|fuel IH]; intros r buffer Hlen; [lia|].
  cbn [yield_loop].
  pose proof (read_and_decode_outcome r CHUNK_SIZE MAX_WINDOW_SIZE None 0
                CHUNK_SIZE_pos) as Hout.
  inversion Hout as [k t Hk Hall Hdec Heq | k Hk Hall Hdec Hw Heq];
    [|discriminate].
  destruct t as [|ch t]; [discriminate|].
  assert (Hne : take (k * CHUNK_SIZE) (pending r) <> []).
  { eapply decoded_text_nonempty; [exact Hdec|discriminate]. }
  apply length_drop_lt in Hne.
  specialize (IH (after_reads r (k * CHUNK_SIZE))
                (last (split_char NEWLINE (buffer ++ ch :: t)) [])).
  cbn [after_reads pending] in IH.
  destruct (yield_loop fuel tell _ _) as [[rest err]|];
    [discriminate|apply IH; lia].
Qed.

Theorem yield_lines_ends (file : option Archive) : yield_lines file <> None.
Proof.
  destruct file as [a|]; [|discriminate].
  apply yield_loop_ends. simpl. lia.
Qed.

Section YieldLoop.
Variable data : list byte.
Variable tell : Z -> Z.

Lemma yield_loop_correct fuel : forall m r buffer before after,
  0 <= m ->
  pending r = drop (m * CHUNK_SIZE) data ->
  Utf8.decode (take (m * CHUNK_SIZE) data) = Some before ->
  Utf8.decode (pending r) = Some after ->
  ~ In NEWLINE buffer ->
  (length (pending r) < fuel)%nat ->
  exists items err,
    yield_loop fuel tell r buffer = Some (items, err)
    /\ ends_well (map fst items) err (complete_lines (buffer ++ after))
    /\ ((forall m', m <= m' -> boundary_within_window data m') -> err = None).
Proof.
  induction fuel as [|fuel IH];
    intros m r buffer before after Hm Hpend Hbefore Hafter Hbuf Hlen; [lia|].
  cbn [yield_loop].
  pose proof (read_and_decode_outcome r CHUNK_SIZE MAX_WINDOW_SIZE None 0
                CHUNK_SIZE_pos) as Hout.
  pose proof CHUNK_SIZE_pos as Hc.
  assert (Hacc : forall j, 0 <= j ->
            Utf8.decode (take ((m + j) * CHUNK_SIZE) data)
            = option_map (app before)
                (Utf8.decode (accumulated None r (j * CHUNK_SIZE)))).
  { intros j Hj. unfold accumulated. cbn [previous_bytes app].
    rewrite Hpend.
    replace ((m + j) * CHUNK_SIZE) with (m * CHUNK_SIZE + j * CHUNK_SIZE)
      by lia.
    rewrite <- take_take_drop by nia. now apply decode_app. }
  inversion Hout as [k t Hk Hall Hdec Heq | k Hk Hall Hdec Hw Heq].
  - (* a block of text *)
    pose proof Hafter as Hsplit.
    rewrite <- (take_drop (pending r) (k * CHUNK_SIZE)) in Hsplit.
    unfold accumulated in Hdec. cbn [previous_bytes app] in Hdec.
    rewrite (decode_app _ _ _ Hdec) in Hsplit.
    destruct (Utf8.decode (drop (k * CHUNK_SIZE) (pending r)))
      as [after'|] eqn:Hrest; [|discriminate].
    cbn [option_map] in Hsplit.
    assert (Hafter' : after = t ++ after') by congruence. clear Hsplit.
    destruct t as [|ch t].
    + (* the end of the stream *)
      apply decode_empty_text in Hdec.
      apply take_empty_iff in Hdec; [|nia].
      exists [], None. split; [reflexivity|]. split; [|reflexivity].
      cbn [ends_well map]. rewrite Hdec in Hafter.
      change (Utf8.decode []) with (@Some str []) in Hafter.
      assert (Hnil : after = []) by congruence.
      rewrite Hnil, app_nil_r.
      symmetry. now apply complete_lines_no_newline.
    + assert (Hne : take (k * CHUNK_SIZE) (pending r) <> []).
      { eapply decoded_text_nonempty; [exact Hdec|discriminate]. }
      apply length_drop_lt in Hne.
      set (chunk := ch :: t) in *.
      destruct (IH (m + k) (after_reads r (k * CHUNK_SIZE))
                  (last (split_char NEWLINE (buffer ++ chunk)) [])
                  (before ++ chunk) after')
        as (items & err & Hrun & Hwell & Hnone).
      * lia.
      * cbn [after_reads pending]. rewrite Hpend, drop_drop by nia.
        f_equal. lia.
      * rewrite Hacc by lia. unfold accumulated.
        cbn [previous_bytes app]. now rewrite Hdec.
      * exact Hrest.
      * apply last_split_no_sep.
      * cbn [after_reads pending]. lia.
      * rewrite Hrun.
        exists (map (fun line => (line, tell (delivered
                                   (after_reads r (k * CHUNK_SIZE)))))
                  (removelast (split_char NEWLINE (buffer ++ chunk)))
                ++ items), err.
        split; [reflexivity|]. split.
        -- rewrite Hafter', app_assoc, complete_lines_app.
           rewrite map_app, map_map. cbn [fst]. rewrite map_id.
           fold (complete_lines (buffer ++ chunk)).
           destruct err as [e|]; cbn [ends_well] in *.
           ++ destruct Hwell as [Hn [missing Hmiss]]. split; [exact Hn|].
              exists missing. rewrite Hmiss. now rewrite app_assoc.
           ++ now rewrite Hwell.
        -- intros Hb. apply Hnone. intros m' Hm'. apply Hb. lia.
  - (* the window is exceeded *)
    exists [], (Some (UnicodeError (0 + k * CHUNK_SIZE))).
    split; [reflexivity|]. split.
    + cbn [ends_well map]. split; [eauto|].
      now exists (complete_lines (buffer ++ after)).
    + intros Hb. exfalso.
      destruct (Hb m (Z.le_refl m)) as (j & Hj & Hdecodes).
      apply Hdecodes. rewrite Hacc by lia.
      pose proof MAX_WINDOW_SIZE_chunks as Hmax.
      destruct (Z.eq_dec j k) as [->|Hjk]; [now rewrite Hdec|].
      assert (Hk9 : k = 9).
      { destruct (Z.le_gt_cases k 9); [nia|].
        destruct (Hall 9 ltac:(lia)) as [_ Hle]. lia. }
      destruct (Hall j ltac:(lia)) as [-> _]. reflexivity.
Qed.

End YieldLoop.

Lemma take_zero {A} (l : list A) : take 0 l = [].
Proof. now apply take_nonpos. Qed.

Lemma drop_zero {A} (l : list A) : drop 0 l = l.
Proof. now apply drop_nonpos. Qed.

(** C6, as the code has it. For an archive whose decompressed bytes are
    valid UTF-8 with text [t], [yield_lines] yields only lines of [t], in
    order and uncorrupted: a block that ends inside a character is decoded
    again with the next chunk appended, and what follows the last newline of
    a block starts the next one. It yields every newline-terminated line of
    [t] when, of any nine consecutive chunk boundaries, one falls between two
    characters; otherwise [read_and_decode] may exceed its window, and then
    the lines stop short with a [UnicodeError]. *)
Theorem yield_lines_correct (a : Archive) (t : str) :
  Utf8.decode (decompressed a) = Some t ->
  exists items err,
    yield_lines (Some a) = Some (items, err)
    /\ ends_well (map fst items) err (complete_lines t)
    /\ ((forall m, 0 <= m -> boundary_within_window (decompressed a) m) ->
        err = None).
Proof.
  intros Hvalid. unfold yield_lines.
  apply (yield_loop_correct (decompressed a) (tell_after a)
           (S (length (decompressed a))) 0
           {| pending := decompressed a; delivered := 0 |} [] [] t).
  - lia.
  - cbn [pending]. now rewrite Z.mul_0_l, drop_zero.
  - now rewrite Z.mul_0_l, take_zero.
  - exact Hvalid.
  - intros [].
  - cbn [pending]. lia.
Qed.

(** ** A valid text that no chunk boundary of the window splits cleanly *)

Lemma take_cons {A} (x : A) l n :
  0 < n -> take n (x :: l) = x :: take (n - 1) l.
Proof.
  intros Hn. cbn [take]. destruct (Z.leb_spec n 0); [lia|reflexivity].
Qed.

Lemma decode_ascii (b : byte) rest :
  (Byte.to_N b <? 0x80)%N = true ->
  Utf8.decode (b :: rest) = option_map (cons (Byte.to_N b)) (Utf8.decode rest).
Proof.
  intros Hb. rewrite decode_eq. unfold Utf8.head. now rewrite Hb.
Qed.

Lemma decode_e_acute rest :
  Utf8.decode (xc3 :: xa9 :: rest)
  = option_map (cons 233%N) (Utf8.decode rest).
Proof. rewrite decode_eq. reflexivity. Qed.

Lemma decode_e_acute_run n : forall rest,
  Utf8.decode (e_acute n ++ rest)
  = option_map (app (repeat 233%N n)) (Utf8.decode rest).
Proof.
  induction n as [|n IH]; intros rest; cbn [e_acute app repeat].
  - destruct (Utf8.decode rest); reflexivity.
  - rewrite decode_e_acute, IH. destruct (Utf8.decode rest); reflexivity.
Qed.

Lemma odd_line_valid n : Utf8.decode (odd_line n) = Some (odd_line_text n).
Proof.
  unfold odd_line, odd_line_text.
  rewrite decode_ascii by reflexivity. rewrite decode_e_acute_run.
  reflexivity.
Qed.

Lemma odd_line_cut_undecodable j :
  Utf8.decode (x61 :: e_acute j ++ [xc3]) = None.
Proof.
  rewrite decode_ascii by reflexivity. rewrite decode_e_acute_run.
  reflexivity.
Qed.

Lemma take_e_acute j : forall i rest,
  take (2 * Z.of_nat j + 1) (e_acute (j + S i) ++ rest) = e_acute j ++ [xc3].
Proof.
  induction j as [|j IH]; intros i rest.
  - cbn [Nat.add e_acute app]. rewrite take_cons by lia.
    now rewrite take_nonpos by lia.
  - cbn [Nat.add e_acute app]. rewrite !take_cons by lia. do 2 f_equal.
    rewrite <- (IH i rest). f_equal. lia.
Qed.

(** An even cut of the line, short of its end, is inside a character. *)
Lemma odd_line_even_cut n h :
  1 <= h <= Z.of_nat n ->
  Utf8.decode (take (2 * h) (odd_line n)) = None.
Proof.
  intros Hh. unfold odd_line.
  replace n with (Z.to_nat (h - 1) + S (n - Z.to_nat h))%nat by lia.
  rewrite take_cons by lia.
  replace (2 * h - 1) with (2 * Z.of_nat (Z.to_nat (h - 1)) + 1) by lia.
  rewrite take_e_acute. apply odd_line_cut_undecodable.
Qed.

Lemma split_char_terminated sep s :
  ~ In sep s -> split_char sep (s ++ [sep]) = [s; []].
Proof.
  induction s as [|c s IH]; intros Hs.
  - cbn [app split_char]. now rewrite N.eqb_refl.
  - cbn [app]. rewrite split_char_cons.
    + rewrite IH; [reflexivity|]. intros Hin. apply Hs. now right.
    + apply N.eqb_neq. intros ->. apply Hs. now left.
Qed.

Lemma odd_line_lines n :
  complete_lines (odd_line_text n) = [97%N :: repeat 233%N n].
Proof.
  unfold odd_line_text, complete_lines.
  change (97%N :: repeat 233%N n ++ [10%N])
    with ((97%N :: repeat 233%N n) ++ [NEWLINE]).
  rewrite split_char_terminated; [reflexivity|].
  intros [Hin|Hin]; [discriminate|].
  apply repeat_spec in Hin. discriminate.
Qed.

(** On such a line of at least nine chunks, the first call of
    [read_and_decode] finds no boundary within its window. *)
Lemma odd_line_exceeds_window n delivered0 :
  9 * 2 ^ 26 <= Z.of_nat n ->
  fst (read_and_decode {| pending := odd_line n; delivered := delivered0 |}
         CHUNK_SIZE MAX_WINDOW_SIZE None 0)
  = Raise (UnicodeError (9 * CHUNK_SIZE)).
Proof.
  intros Hn.
  pose proof (read_and_decode_outcome
                {| pending := odd_line n; delivered := delivered0 |}
                CHUNK_SIZE MAX_WINDOW_SIZE None 0 CHUNK_SIZE_pos) as Hout.
  pose proof MAX_WINDOW_SIZE_chunks as Hmax.
  pose proof CHUNK_SIZE_pos as Hc.
  assert (Hchunk : CHUNK_SIZE = 2 * 2 ^ 26) by reflexivity.
  assert (Hcut : forall k, 1 <= k <= 9 ->
            Utf8.decode
              (accumulated None
                 {| pending := odd_line n; delivered := delivered0 |}
                 (k * CHUNK_SIZE)) = None).
  { intros k Hk. unfold accumulated. cbn [previous_bytes app pending].
    replace (k * CHUNK_SIZE) with (2 * (k * 2 ^ 26)) by lia.
    apply odd_line_even_cut. lia. }
  assert (Hnine : forall k, 1 <= k ->
            (forall j, 1 <= j < k -> 0 + j * CHUNK_SIZE <= MAX_WINDOW_SIZE) ->
            k <= 9).
  { intros k Hk Hall. destruct (Z.le_gt_cases k 9); [assumption|].
    specialize (Hall 9 ltac:(lia)). lia. }
  inversion Hout as [k t Hk Hall Hdec Heq | k Hk Hall Hdec Hw Heq].
  - rewrite Hcut in Hdec; [discriminate|].
    split; [assumption|]. apply Hnine; [assumption|].
    intros j Hj. now apply Hall.
  - assert (k = 9) as ->.
    { assert (k <= 9)
        by (apply Hnine; [assumption|intros j Hj; now apply Hall]).
      nia. }
    reflexivity.
Qed.

Lemma yield_lines_long_line_counterexample :
  Utf8.decode (decompressed long_line_archive)
  = Some (odd_line_text LONG_LINE_CHARS)
  /\ complete_lines (odd_line_text LONG_LINE_CHARS)
     = [97%N :: repeat 233%N LONG_LINE_CHARS]
  /\ yield_lines (Some long_line_archive)
     = Some ([], Some (UnicodeError (9 * 2 ^ 27))).
Proof.
  split; [apply odd_line_valid|]. split; [apply odd_line_lines|].
  unfold yield_lines, long_line_archive.
  cbn [decompressed tell_after yield_loop].
  pose proof (odd_line_exceeds_window LONG_LINE_CHARS 0) as Hread.
  destruct (read_and_decode _ _ _ _ _) as [res r'].
  cbn [fst] in Hread. rewrite Hread; [reflexivity|].
  unfold LONG_LINE_CHARS. rewrite Z2Nat.id; lia.
Qed.

(** Text is returned only for bytes that decode as a whole. *)
Lemma read_and_decode_text r c w prev br t r' :
  0 < c ->
  read_and_decode r c w prev br = (Ok t, r') ->
  exists k, 1 <= k
            /\ Utf8.decode (accumulated prev r (k * c)) = Some t
            /\ r' = after_reads r (k * c).
Proof.
  intros Hc Hrun.
  pose proof (read_and_decode_outcome r c w prev br Hc) as Hout.
  rewrite Hrun in Hout.
  inversion Hout as [k t' Hk Hall Hdec | k Hk Hall Hdec Hw]; subst.
  now exists k.
Qed.

(** C5. While the bytes accumulated by the successive reads do not decode,
    [read_and_decode] reads on; once their count has passed
    [max_window_size] it raises [UnicodeError], and returns no text. *)
Theorem read_and_decode_window_error r c w prev br :
  0 < c ->
  (forall k, 1 <= k -> br + (k - 1) * c <= w \/ k = 1 ->
             Utf8.decode (accumulated prev r (k * c)) = None) ->
  exists k, 1 <= k /\ w < br + k * c
            /\ read_and_decode r c w prev br
               = (Raise (UnicodeError (br + k * c)), after_reads r (k * c)).
Proof.
  intros Hc Hbad.
  pose proof (read_and_decode_outcome r c w prev br Hc) as Hout.
  inversion Hout as [k t Hk Hall Hdec Heq | k Hk Hall Hdec Hw Heq].
  - rewrite Hbad in Hdec; [discriminate|assumption|].
    destruct (Z.eq_dec k 1) as [->|Hne]; [now right|left].
    destruct (Hall (k - 1) ltac:(lia)) as [_ Hle]. exact Hle.
  - exists k. repeat split; assumption.
Qed.

(** A reader that ends inside a three-byte character, read byte by byte
    with a window of two bytes. *)
Lemma read_and_decode_window_error_witness :
  0 < 1
  /\ (forall k, 1 <= k -> 0 + (k - 1) * 1 <= 2 \/ k = 1 ->
        Utf8.decode (accumulated None
                       {| pending := [xe2; x82]; delivered := 0 |} (k * 1))
        = None)
  /\ exists k, 1 <= k /\ 2 < 0 + k * 1
       /\ read_and_decode {| pending := [xe2; x82]; delivered := 0 |} 1 2
            None 0
          = (Raise (UnicodeError (0 + k * 1)),
             after_reads {| pending := [xe2; x82]; delivered := 0 |} (k * 1)).
Proof.
  assert (Hbad : forall k, 1 <= k -> 0 + (k - 1) * 1 <= 2 \/ k = 1 ->
            Utf8.decode (accumulated None
                           {| pending := [xe2; x82]; delivered := 0 |} (k * 1))
            = None).
  { intros k Hk Hw.
    assert (Hcases : k = 1 \/ k = 2 \/ k = 3) by lia.
    destruct Hcases as [->|[->| ->]]; reflexivity. }
  split; [lia|]. split; [exact Hbad|].
  apply read_and_decode_window_error; [lia|exact Hbad].
Defined.

Example read_and_decode_window_error_value :
  read_and_decode {| pending := [xe2; x82]; delivered := 0 |} 1 2 None 0
  = (Raise (UnicodeError 3), {| pending := []; delivered := 2 |}).
Proof. reflexivity. Qed.

(** A two-byte character cut by the chunk boundary is completed by the
    next read. *)
Example read_and_decode_straddle :
  read_and_decode {| pending := [x68; xc3; xa9; x0a]; delivered := 0 |} 2 8
    None 0
  = (Ok [104; 233; 10]%N, {| pending := []; delivered := 4 |}).
Proof. reflexivity. Qed.

Example yield_lines_short :
  yield_lines (Some short_archive)
  = Some ([([104; 233]%N, 7); ([97]%N, 7)], None).
Proof. reflexivity. Qed.

Lemma yield_lines_correct_witness :
  Utf8.decode (decompressed short_archive) = Some [104; 233; 10; 97; 10; 98]%N
  /\ exists items err,
       yield_lines (Some short_archive) = Some (items, err)
       /\ ends_well (map fst items) err
            (complete_lines [104; 233; 10; 97; 10; 98]%N)
       /\ ((forall m, 0 <= m ->
              boundary_within_window (decompressed short_archive) m) ->
           err = None).
Proof.
  split; [reflexivity|]. apply yield_lines_correct. reflexivity.
Defined.

(** ** The worker *)

Section WorkerFacts.
Context {lib : Library} {sink : Sink}.

Section Simulation.
Variable d : Z.

Lemma alike_ret {A} (a : A) : alike d (ret a) (ret a).
Proof. intros w1 w2 Hw. now split. Qed.

Lemma alike_raise {A} (e : exn) : alike d (@raise _ A e) (raise e).
Proof. intros w1 w2 Hw. now split. Qed.

Lemma alike_lift {A} (r : result A) : alike d (lift r) (lift r).
Proof. intros w1 w2 Hw. now split. Qed.

Lemma alike_bind {A B} (m1 m2 : M A) (k1 k2 : A -> M B) :
  alike d m1 m2 -> (forall a, alike d (k1 a) (k2 a)) ->
  alike d (mbind m1 k1) (mbind m2 k2).
Proof.
  intros Hm Hk w1 w2 Hw. unfold mbind.
  destruct (Hm w1 w2 Hw) as [Hres Hst].
  destruct (m1 w1) as [[a1|e1] u1], (m2 w2) as [[a2|e2] u2];
    cbn [fst snd] in *; try discriminate.
  - inversion Hres; subst. now apply Hk.
  - inversion Hres; subst. now split.
Qed.

Lemma alike_get {B} (k1 k2 : Worker -> M B) :
  (forall u1 u2, ahead_by d u1 u2 -> alike d (k1 u1) (k2 u2)) ->
  alike d (mbind get k1) (mbind get k2).
Proof. intros Hk w1 w2 Hw. unfold mbind, get. now apply Hk. Qed.

Lemma alike_modify (g1 g2 : Worker -> Worker) :
  (forall w1 w2, ahead_by d w1 w2 -> ahead_by d (g1 w1) (g2 w2)) ->
  alike d (modify g1) (modify g2).
Proof. intros Hg w1 w2 Hw. split; [reflexivity|now apply Hg]. Qed.

Lemma alike_on_session (op : Session -> result Session) :
  alike d (on_session op) (on_session op).
Proof.
  unfold on_session. apply alike_get. intros u1 u2 Hu.
  destruct Hu as (_ & _ & -> & _).
  apply alike_bind; [apply alike_lift|]. intros s.
  apply alike_modify. intros w1 w2 Hw. unfold ahead_by in *. cbn. tauto.
Qed.

Lemma alike_flush_batch : alike d flush_batch flush_batch.
Proof.
  unfold flush_batch. apply alike_get. intros u1 u2 Hu.
  destruct Hu as (-> & -> & _).
  apply alike_bind; [apply alike_on_session|]. intros _.
  apply alike_bind.
  { destruct (comment_records u2); [apply alike_ret|apply alike_on_session]. }
  intros _. apply alike_bind; [apply alike_on_session|]. intros _.
  apply alike_modify. intros w1 w2 Hw. unfold ahead_by in *. cbn. tauto.
Qed.

Lemma alike_try_line field value comment_depth line :
  alike d (try_line field value comment_depth line)
        (try_line field value comment_depth line).
Proof.
  unfold try_line.
  apply alike_bind; [apply alike_lift|]. intros obj.
  apply alike_bind; [apply alike_lift|]. intros observed.
  apply alike_bind.
  - destruct (line_matched value observed); [|apply alike_ret].
    apply alike_bind; [apply alike_lift|]. intros submission.
    apply alike_bind.
    { apply alike_modify. intros w1 w2 Hw. unfold ahead_by in *. cbn.
      destruct Hw as (-> & -> & Hw). tauto. }
    intros _. apply alike_bind.
    { destruct (0 <=? comment_depth); [|apply alike_ret].
      apply alike_bind; [apply alike_lift|]. intros comments.
      apply alike_modify. intros w1 w2 Hw. unfold ahead_by in *. cbn.
      destruct Hw as (-> & -> & Hw). tauto. }
    intros _. apply alike_modify. intros w1 w2 Hw. unfold ahead_by in *. cbn.
    destruct Hw as (? & ? & ? & -> & ?). tauto.
  - intros _. apply alike_get. intros u1 u2 Hu.
    destruct Hu as (-> & _).
    destruct (BATCH_SIZE <=? _); [apply alike_flush_batch|apply alike_ret].
Qed.

Lemma alike_process_line field value comment_depth item :
  alike d (process_line field value comment_depth item)
        (process_line field value comment_depth item).
Proof.
  unfold process_line. destruct item as [line position].
  apply alike_bind.
  { unfold guarded_line. intros w1 w2 Hw.
    destruct (alike_try_line field value comment_depth line w1 w2 Hw)
      as [Hres Hst].
    destruct (try_line _ _ _ _ w1) as [[[]|e1] u1],
             (try_line _ _ _ _ w2) as [[[]|e2] u2];
      cbn [fst snd] in *; try discriminate; [now split|].
    inversion Hres; subst.
    destruct (line_handler_catches e2); cbn [fst snd]; [|now split].
    split; [reflexivity|]. unfold ahead_by in *. cbn.
    destruct Hst as (? & ? & ? & ? & -> & ?). repeat split; try tauto. lia. }
  intros _. apply alike_bind.
  { apply alike_modify. intros w1 w2 Hw. unfold ahead_by in *. cbn.
    destruct Hw as (? & ? & ? & ? & ? & -> & ?). repeat split; try tauto. lia. }
  intros _. apply alike_get. intros u1 u2 _ w1 w2 Hw.
  set (report := fun w : Worker =>
                   queue_put (on_file (fun f =>
                                set_bytes_processed f position) w)).
  assert (Hsent : forall w, ahead_by d w1 w -> ahead_by d w1 (report w)).
  { intros w Hr. unfold ahead_by in *. cbn. tauto. }
  assert (Hsent' : forall w, ahead_by d w w2 -> ahead_by d (report w) w2).
  { intros w Hr. unfold ahead_by in *. cbn. tauto. }
  destruct (_ =? 0), (_ =? 0); cbn; (split; [reflexivity|]); auto.
Qed.

Lemma alike_for_lines field value comment_depth items :
  alike d (for_lines field value comment_depth items)
        (for_lines field value comment_depth items).
Proof.
  induction items as [|item items IH]; cbn [for_lines]; [apply alike_ret|].
  apply alike_bind; [apply alike_process_line|]. intros _. exact IH.
Qed.

Lemma alike_finish_file : alike d finish_file finish_file.
Proof.
  unfold finish_file. apply alike_get. intros u1 u2 Hu.
  destruct Hu as (-> & -> & _).
  apply alike_bind.
  { destruct (matched_records u2); [apply alike_ret|].
    apply alike_bind; [apply alike_on_session|]. intros _.
    apply alike_on_session. }
  intros _. apply alike_bind.
  { destruct (comment_records u2); [apply alike_ret|].
    apply alike_bind; [apply alike_on_session|]. intros _.
    apply alike_on_session. }
  intros _. apply alike_bind; [apply alike_on_session|]. intros _.
  apply alike_bind.
  { apply alike_modify. intros w1 w2 Hw. unfold ahead_by in *. cbn. tauto. }
  intros _. apply alike_modify. intros w1 w2 Hw. unfold ahead_by in *. cbn.
  tauto.
Qed.

Lemma alike_file_body field value comment_depth stream :
  alike d (file_body field value comment_depth stream)
        (file_body field value comment_depth stream).
Proof.
  unfold file_body. apply alike_bind; [apply alike_for_lines|]. intros _.
  destruct (snd stream); [apply alike_raise|apply alike_finish_file].
Qed.

End Simulation.

Lemma for_lines_app field value comment_depth items1 items2 w :
  for_lines field value comment_depth (items1 ++ items2) w
  = mbind (for_lines field value comment_depth items1)
      (fun _ => for_lines field value comment_depth items2) w.
Proof.
  revert w. induction items1 as [|item items1 IH]; intros w; [reflexivity|].
  cbn [app for_lines]. unfold mbind.
  destruct (process_line _ _ _ _ w) as [[[]|e] w']; [|reflexivity].
  rewrite IH. reflexivity.
Qed.

Lemma file_body_split field value comment_depth before rest w :
  file_body field value comment_depth (before ++ rest, None) w
  = match for_lines field value comment_depth before w with
    | (Ok _, w1) => file_body field value comment_depth (rest, None) w1
    | (Raise e, w1) => (Raise e, w1)
    end.
Proof.
  unfold file_body. cbn [fst snd]. unfold mbind at 1.
  rewrite for_lines_app. unfold mbind at 1 2.
  destruct (for_lines field value comment_depth before w) as [[[]|e] w1];
    reflexivity.
Qed.

Lemma file_body_cons field value comment_depth item rest w :
  file_body field value comment_depth (item :: rest, None) w
  = match process_line field value comment_depth item w with
    | (Ok _, w1) => file_body field value comment_depth (rest, None) w1
    | (Raise e, w1) => (Raise e, w1)
    end.
Proof.
  unfold file_body. cbn [fst snd for_lines]. unfold mbind.
  destruct (process_line field value comment_depth item w) as [[[]|e] w1];
    reflexivity.
Qed.

(** A line that [json.loads] rejects is counted, and nothing else changes. *)
Lemma process_line_malformed field value comment_depth line position w :
  json_loads line = Raise JSONDecodeError ->
  exists w', process_line field value comment_depth (line, position) w
             = (Ok tt, w')
             /\ ahead_by 1 w w'.
Proof.
  intros Hbad. unfold process_line, guarded_line, try_line, mbind, lift.
  rewrite Hbad.
  cbn [line_handler_catches modify get ret on_file file].
  destruct (_ =? 0); eexists; (split; [reflexivity|]);
    unfold ahead_by; cbn; tauto.
Qed.

(** *** What no statement of the worker touches *)

Section Kept.
Variable P : Worker -> Prop.

Hypothesis P_file : forall w1 w2,
  error_message (file w1) = error_message (file w2) ->
  file_size (file w1) = file_size (file w2) ->
  P w1 -> P w2.

Lemma keeps_ret {A} (a : A) : keeps P (ret a).
Proof. intros w Hw. exact Hw. Qed.

Lemma keeps_lift {A} (r : result A) : keeps P (lift r).
Proof. intros w Hw. exact Hw. Qed.

Lemma keeps_bind {A B} (m : M A) (k : A -> M B) :
  keeps P m -> (forall a, keeps P (k a)) -> keeps P (mbind m k).
Proof.
  intros Hm Hk w Hw. unfold mbind. specialize (Hm w Hw).
  destruct (m w) as [[a|e] u]; cbn [snd] in *; [now apply Hk|assumption].
Qed.

Lemma keeps_modify (g : Worker -> Worker) :
  (forall w, error_message (file w) = error_message (file (g w))
             /\ file_size (file w) = file_size (file (g w))) ->
  keeps P (modify g).
Proof.
  intros Hg w Hw. destruct (Hg w). cbn. now apply (P_file w).
Qed.

Lemma keeps_on_session (op : Session -> result Session) :
  keeps P (on_session op).
Proof.
  unfold on_session. apply keeps_bind; [intros w Hw; exact Hw|]. intros u.
  apply keeps_bind; [apply keeps_lift|]. intros s.
  apply keeps_modify. intros w. now split.
Qed.

Lemma keeps_flush_batch : keeps P flush_batch.
Proof.
  unfold flush_batch. apply keeps_bind; [intros w Hw; exact Hw|]. intros u.
  apply keeps_bind; [apply keeps_on_session|]. intros _.
  apply keeps_bind.
  { destruct (comment_records u); [apply keeps_ret|apply keeps_on_session]. }
  intros _. apply keeps_bind; [apply keeps_on_session|]. intros _.
  apply keeps_modify. intros w. now split.
Qed.

Lemma keeps_try_line field value comment_depth line :
  keeps P (try_line field value comment_depth line).
Proof.
  unfold try_line.
  apply keeps_bind; [apply keeps_lift|]. intros obj.
  apply keeps_bind; [apply keeps_lift|]. intros observed.
  apply keeps_bind.
  - destruct (line_matched value observed); [|apply keeps_ret].
    apply keeps_bind; [apply keeps_lift|]. intros submission.
    apply keeps_bind; [apply keeps_modify; intros w; now split|]. intros _.
    apply keeps_bind.
    { destruct (0 <=? comment_depth); [|apply keeps_ret].
      apply keeps_bind; [apply keeps_lift|]. intros comments.
      apply keeps_modify. intros w. now split. }
    intros _. apply keeps_modify. intros w. now split.
  - intros _. apply keeps_bind; [intros w Hw; exact Hw|]. intros u.
    destruct (BATCH_SIZE <=? _); [apply keeps_flush_batch|apply keeps_ret].
Qed.

Lemma keeps_process_line field value comment_depth item :
  keeps P (process_line field value comment_depth item).
Proof.
  unfold process_line. destruct item as [line position].
  apply keeps_bind.
  { unfold guarded_line. intros w Hw.
    pose proof (keeps_try_line field value comment_depth line w Hw).
    destruct (try_line _ _ _ _ w) as [[[]|e] u]; cbn [snd] in *;
      [assumption|].
    destruct (line_handler_catches e); cbn [snd]; [|assumption].
    now apply (P_file u). }
  intros _. apply keeps_bind; [apply keeps_modify; intros w; now split|].
  intros _. apply keeps_bind; [intros w Hw; exact Hw|]. intros u.
  destruct (_ =? 0); [|apply keeps_ret].
  apply keeps_bind; apply keeps_modify || intros _; try (intros w; now split).
  apply keeps_modify. intros w. now split.
Qed.

Lemma keeps_for_lines field value comment_depth items :
  keeps P (for_lines field value comment_depth items).
Proof.
  induction items as [|item items IH]; cbn [for_lines]; [apply keeps_ret|].
  apply keeps_bind; [apply keeps_process_line|]. intros _. exact IH.
Qed.

Lemma keeps_finish_file : keeps P finish_file.
Proof.
  unfold finish_file. apply keeps_bind; [intros w Hw; exact Hw|]. intros u.
  apply keeps_bind.
  { destruct (matched_records u); [apply keeps_ret|].
    apply keeps_bind; [apply keeps_on_session|]. intros _.
    apply keeps_on_session. }
  intros _. apply keeps_bind.
  { destruct (comment_records u); [apply keeps_ret|].
    apply keeps_bind; [apply keeps_on_session|]. intros _.
    apply keeps_on_session. }
  intros _. apply keeps_bind; [apply keeps_on_session|]. intros _.
  apply keeps_bind; apply keeps_modify || intros _; try (intros w; now split).
  apply keeps_modify. intros w. now split.
Qed.

Lemma keeps_file_body field value comment_depth stream :
  keeps P (file_body field value comment_depth stream).
Proof.
  unfold file_body. apply keeps_bind; [apply keeps_for_lines|]. intros _.
  destruct (snd stream); [intros w Hw; exact Hw|apply keeps_finish_file].
Qed.

End Kept.

(** The error message and the size of the file are set by no statement of
    the [try] body. *)
Lemma file_body_keeps field value comment_depth stream w :
  let w' := snd (file_body field value comment_depth stream w) in
  error_message (file w') = error_message (file w)
  /\ file_size (file w') = file_size (file w).
Proof.
  apply (keeps_file_body
           (fun u => error_message (file u) = error_message (file w)
                     /\ file_size (file u) = file_size (file w))).
  - intros w1 w2 Hm Hs [H1 H2]. split; congruence.
  - now split.
Qed.

Lemma mbind_ok {A B} (m : M A) (k : A -> M B) w b w' :
  mbind m k w = (Ok b, w') ->
  exists a u, m w = (Ok a, u) /\ k a u = (Ok b, w').
Proof.
  unfold mbind. destruct (m w) as [[a|e] u]; [|discriminate].
  intros Hk. now exists a, u.
Qed.

Lemma finish_file_ok w w' :
  finish_file w = (Ok tt, w') ->
  complete (file w') = true
  /\ bytes_processed (file w') = file_size (file w').
Proof.
  unfold finish_file. intros Hrun.
  repeat (apply mbind_ok in Hrun; destruct Hrun as (? & ? & ? & Hrun)).
  unfold modify in *.
  repeat match goal with
         | E : (_, _) = (_, _) |- _ => inversion E; clear E; subst
         end.
  cbn. now split.
Qed.

(** A file whose body ends without an exception is marked complete, with
    all its bytes processed. *)
Lemma file_body_ok field value comment_depth items w w' :
  file_body field value comment_depth (items, None) w = (Ok tt, w') ->
  complete (file w') = true
  /\ bytes_processed (file w') = file_size (file w').
Proof.
  unfold file_body. cbn [fst snd]. intros Hrun.
  apply mbind_ok in Hrun. destruct Hrun as (? & u & _ & Hrun).
  now apply finish_file_ok in Hrun.
Qed.

(** Among lines that are processed to completion without it, one more line
    that is not valid JSON adds one to [error_lines] and to
    [lines_processed], leaves [lines_matched] as it is, and the lines are
    still processed to completion, with no error message set. *)
Lemma malformed_item_counted field value comment_depth
    (before after : list (str * Z)) (line : str) (position : Z)
    (w : Worker) :
  json_loads line = Raise JSONDecodeError ->
  fst (file_body field value comment_depth (before ++ after, None) w)
  = Ok tt ->
  let clean :=
    process_stream field value comment_depth (before ++ after, None) w in
  let dirty :=
    process_stream field value comment_depth
      (before ++ (line, position) :: after, None) w in
  fst (file_body field value comment_depth
         (before ++ (line, position) :: after, None) w) = Ok tt
  /\ complete (file dirty) = true
  /\ error_message (file dirty) = error_message (file w)
  /\ error_lines (file dirty) = error_lines (file clean) + 1
  /\ lines_matched (file dirty) = lines_matched (file clean)
  /\ lines_processed (file dirty) = lines_processed (file clean) + 1
  /\ bytes_processed (file dirty) = file_size (file w).
Proof.
  intros Hbad Hclean clean dirty. subst clean dirty.
  unfold process_stream.
  pose proof (file_body_keeps field value comment_depth
                (before ++ (line, position) :: after, None) w) as Hkept.
  cbn zeta in Hkept.
  revert Hclean Hkept. rewrite !file_body_split.
  destruct (for_lines field value comment_depth before w) as [[[]|e] w1];
    [|discriminate].
  rewrite file_body_cons.
  destruct (process_line_malformed field value comment_depth line position w1
              Hbad) as (w1' & -> & Hahead).
  destruct (alike_file_body 1 field value comment_depth (after, None)
              w1 w1' Hahead) as [Hres Hst].
  destruct (file_body field value comment_depth (after, None) w1)
    as [[[]|e1] v1],
    (file_body field value comment_depth (after, None) w1')
    as [[[]|e2] v2] eqn:Hf2;
    cbn [fst snd] in *; try discriminate.
  intros _ [Hmsg Hsize].
  pose proof (file_body_ok _ _ _ _ _ _ Hf2) as Hdone.
  unfold ahead_by in Hst. cbn [queue_put file].
  repeat split; try tauto; try congruence. lia.
Qed.

(** *** Counters within one run *)

Ltac solve_counted :=
  unfold counted in *; cbn; intuition (try lia; congruence).

Lemma within_weaken {A} a b (m : M A) :
  a <= b -> within a m -> within b m.
Proof. intros Hab Hm w. specialize (Hm w). solve_counted. Qed.

Lemma within_ret {A} (x : A) : within 0 (ret x).
Proof. intros w. solve_counted. Qed.

Lemma within_lift {A} (r : result A) : within 0 (lift r).
Proof. intros w. solve_counted. Qed.

Lemma within_get : within 0 get.
Proof. intros w. solve_counted. Qed.

Lemma within_bind {A B} a b c (m : M A) (k : A -> M B) :
  c = a + b -> 0 <= b ->
  within a m -> (forall x, within b (k x)) -> within c (mbind m k).
Proof.
  intros -> Hb Hm Hk w. unfold mbind. specialize (Hm w).
  destruct (m w) as [[x|e] u]; cbn [snd] in *.
  - specialize (Hk x u). solve_counted.
  - solve_counted.
Qed.

Lemma within_modify n (g : Worker -> Worker) :
  (forall w, counted n w (g w)) -> within n (modify g).
Proof. intros Hg w. apply Hg. Qed.

Lemma within_on_session (op : Session -> result Session) :
  within 0 (on_session op).
Proof.
  unfold on_session.
  apply (within_bind 0 0); [reflexivity|lia|apply within_get|]. intros u.
  apply (within_bind 0 0); [reflexivity|lia|apply within_lift|]. intros s.
  apply within_modify. intros w. solve_counted.
Qed.

Lemma within_flush_batch : within 0 flush_batch.
Proof.
  unfold flush_batch.
  apply (within_bind 0 0); [reflexivity|lia|apply within_get|]. intros u.
  apply (within_bind 0 0); [reflexivity|lia|apply within_on_session|].
  intros _. apply (within_bind 0 0); [reflexivity|lia| |].
  { destruct (comment_records u); [apply within_ret|apply within_on_session]. }
  intros _.
  apply (within_bind 0 0); [reflexivity|lia|apply within_on_session|].
  intros _. apply within_modify. intros w. solve_counted.
Qed.

(** The inner [try] counts at most one match, and nothing else. *)
Lemma within_try_line field value comment_depth line :
  within 1 (try_line field value comment_depth line).
Proof.
  unfold try_line.
  apply (within_bind 0 1); [reflexivity|lia|apply within_lift|]. intros obj.
  apply (within_bind 0 1); [reflexivity|lia|apply within_lift|].
  intros observed.
  apply (within_bind 1 0); [reflexivity|lia| |].
  - destruct (line_matched value observed);
      [|apply (within_weaken 0); [lia|apply within_ret]].
    apply (within_bind 0 1); [reflexivity|lia|apply within_lift|].
    intros submission.
    apply (within_bind 0 1); [reflexivity|lia| |].
    { apply within_modify. intros w. solve_counted. }
    intros _. apply (within_bind 0 1); [reflexivity|lia| |].
    { destruct (0 <=? comment_depth); [|apply within_ret].
      apply (within_bind 0 0); [reflexivity|lia|apply within_lift|].
      intros comments. apply within_modify. intros w. solve_counted. }
    intros _. apply within_modify. intros w. solve_counted.
  - intros _.
    apply (within_bind 0 0); [reflexivity|lia|apply within_get|]. intros u.
    destruct (BATCH_SIZE <=? _); [apply within_flush_batch|apply within_ret].
Qed.

Lemma snapshot_ok_iff f :
  snapshot_ok f = true
  <-> lines_matched f <= lines_processed f
      /\ bytes_processed f <= file_size f.
Proof.
  unfold snapshot_ok. rewrite andb_true_iff, !Z.leb_le. tauto.
Qed.

Lemma process_line_in_step field value comment_depth line position size w w' :
  position <= size ->
  in_step size w ->
  process_line field value comment_depth (line, position) w = (Ok tt, w') ->
  in_step size w'.
Proof.
  intros Hpos (Hsize & Hlm & Hbytes & Hq) Hrun.
  unfold process_line in Hrun.
  apply mbind_ok in Hrun. destruct Hrun as (x & u1 & Htry & Hrun).
  apply mbind_ok in Hrun. destruct Hrun as (y & u2 & Hinc & Hrun).
  apply mbind_ok in Hrun. destruct Hrun as (u3 & u4 & Hget & Hrun).
  assert (Hu1 : counted 1 w u1).
  { unfold guarded_line in Htry.
    pose proof (within_try_line field value comment_depth line w) as Hc.
    destruct (try_line field value comment_depth line w) as [[[]|e] u];
      cbn [snd] in Hc.
    - inversion Htry; subst. exact Hc.
    - destruct (line_handler_catches e); [|discriminate].
      inversion Htry; subst. solve_counted. }
  unfold modify in Hinc. inversion Hinc; subst. clear Hinc.
  unfold get in Hget. inversion Hget; subst. clear Hget.
  unfold counted in Hu1. destruct Hu1 as (Hm & Hp & Hb & Hs & Hqu).
  destruct (_ =? 0).
  - apply mbind_ok in Hrun. destruct Hrun as (z & u5 & Hset & Hput).
    unfold modify in Hset, Hput. inversion Hset; subst.
    inversion Hput; subst. unfold in_step. cbn.
    rewrite forallb_app, Hqu, Hq. cbn. rewrite andb_true_r.
    repeat split; try lia. apply snapshot_ok_iff. cbn. lia.
  - unfold ret in Hrun. inversion Hrun; subst. unfold in_step. cbn.
    rewrite Hqu. repeat split; try lia. exact Hq.
Qed.

Lemma for_lines_in_step field value comment_depth size items : forall w w',
  Forall (fun item => snd item <= size) items ->
  in_step size w ->
  for_lines field value comment_depth items w = (Ok tt, w') ->
  in_step size w'.
Proof.
  induction items as [|[line position] items IH]; intros w w' Hpos Hw.
  - cbn. intros E. inversion E; subst. exact Hw.
  - cbn [for_lines]. unfold mbind at 1. inversion Hpos; subst.
    destruct (process_line _ _ _ _ w) as [[[]|e] u] eqn:Hline;
      [|discriminate].
    apply IH; [assumption|].
    eapply process_line_in_step; eauto.
Qed.

Lemma finish_file_in_step size w w' :
  in_step size w ->
  finish_file w = (Ok tt, w') ->
  in_step size w'.
Proof.
  intros (Hsize & Hlm & Hbytes & Hq) Hrun. unfold finish_file in Hrun.
  apply mbind_ok in Hrun. destruct Hrun as (u0 & u0' & Hget & Hrun).
  unfold get in Hget. inversion Hget; subst. clear Hget.
  apply mbind_ok in Hrun. destruct Hrun as (x1 & u1 & Hsave1 & Hrun).
  apply mbind_ok in Hrun. destruct Hrun as (x2 & u2 & Hsave2 & Hrun).
  apply mbind_ok in Hrun. destruct Hrun as (x3 & u3 & Hclose & Hrun).
  apply mbind_ok in Hrun. destruct Hrun as (x4 & u4 & Hset & Hput).
  assert (H1 : counted 0 u0' u1).
  { replace u1 with (snd (match matched_records u0' with
                          | [] => ret tt
                          | _ :: _ =>
                            mbind (on_session (fun s =>
                                     bulk_save_submissions s
                                       (matched_records u0')))
                              (fun _ => on_session commit)
                          end u0')) by now rewrite Hsave1.
    destruct (matched_records u0'); [apply within_ret|].
    apply (within_bind 0 0); [reflexivity|lia|apply within_on_session|].
    intros _. apply within_on_session. }
  assert (H2 : counted 0 u1 u2).
  { replace u2 with (snd (match comment_records u0' with
                          | [] => ret tt
                          | _ :: _ =>
                            mbind (on_session (fun s =>
                                     bulk_save_comments s
                                       (comment_records u0')))
                              (fun _ => on_session commit)
                          end u1)) by now rewrite Hsave2.
    destruct (comment_records u0'); [apply within_ret|].
    apply (within_bind 0 0); [reflexivity|lia|apply within_on_session|].
    intros _. apply within_on_session. }
  assert (H3 : counted 0 u2 u3).
  { replace u3 with (snd (on_session close u2)) by now rewrite Hclose.
    apply within_on_session. }
  unfold modify in Hset, Hput. inversion Hset; subst. inversion Hput; subst.
  unfold counted in *. unfold in_step. cbn.
  destruct H1 as (? & ? & ? & ? & ?), H2 as (? & ? & ? & ? & ?),
    H3 as (? & ? & ? & ? & ?).
  repeat split; try lia; congruence.
Qed.

(** A run from a record in step, on a file whose offsets stay within its
    size, that ends without an exception: every snapshot sent satisfies
    what the specification asks. *)
Lemma snapshots_ok_on_success field value comment_depth items w :
  in_step (file_size (file w)) w ->
  Forall (fun item => snd item <= file_size (file w)) items ->
  fst (file_body field value comment_depth (items, None) w) = Ok tt ->
  forallb snapshot_ok
    (queue (process_stream field value comment_depth (items, None) w))
  = true.
Proof.
  intros Hw Hpos Hrun. unfold process_stream.
  destruct (file_body field value comment_depth (items, None) w)
    as [[[]|e] w'] eqn:Hbody; [|discriminate].
  unfold file_body in Hbody. cbn [fst snd] in Hbody.
  apply mbind_ok in Hbody. destruct Hbody as (x & u & Hlines & Hfinish).
  destruct x.
  pose proof (for_lines_in_step _ _ _ _ _ _ _ Hpos Hw Hlines) as Hu.
  pose proof (finish_file_in_step _ _ _ Hu Hfinish) as (Hs & Hlm & Hb & Hq).
  cbn [queue_put queue]. rewrite forallb_app, Hq. cbn.
  rewrite andb_true_r. apply snapshot_ok_iff. lia.
Qed.

End WorkerFacts.

(** ** Runs of the worker *)

Example todo_RS_2020_init :
  FileConfig_init example_disk RS_2020
    (Some (lit "temp_files/RS_2020-01.zst")) false 0 0 0
  = Ok todo_RS_2020.
Proof. reflexivity. Qed.

Example one_value_run :
  sent (run_worker example_sink todo_RS_2020 "mentalhealth")
  = [todo_RS_2020;
     mkFileConfig RS_2020 (Some (lit "temp_files/RS_2020-01.zst")) 90 true 90
       3 None 0 2 SUBMISSION].
Proof. vm_compute. reflexivity. Qed.

(** *** The predicate of the filter *)

Lemma single_value_agrees (v observed : str) :
  line_matched (single_value [v]) observed = spec_matched [v] observed.
Proof. cbn. now rewrite orb_false_r. Qed.

Lemma several_values_never_match (values : list str) (observed : str) :
  length values <> 1%nat ->
  line_matched (single_value values) observed = false.
Proof.
  destruct values as [|v [|v' values]]; [reflexivity|easy|reflexivity].
Qed.

(** C1, on the code. With [--value mentalhealth,depression] the set has two
    members and [value] stays [None]: the three lines of the archive are
    processed and none is matched, although the field of two of them
    contains "mentalhealth", which alone as [--value] matches both. *)
Theorem two_values_match_nothing :
  values (example_args "mentalhealth,depression")
  = [lit "mentalhealth"; lit "depression"]
  /\ spec_matched [lit "mentalhealth"; lit "depression"]
       (ascii_lower (lit "MentalHealth")) = true
  /\ line_matched (single_value [lit "mentalhealth"; lit "depression"])
       (ascii_lower (lit "MentalHealth")) = false
  /\ final_file
       (run_worker example_sink todo_RS_2020 "mentalhealth,depression")
     = Some (mkFileConfig RS_2020 (Some (lit "temp_files/RS_2020-01.zst")) 90
               true 90 3 None 0 0 SUBMISSION)
  /\ final_file (run_worker example_sink todo_RS_2020 "mentalhealth")
     = Some (mkFileConfig RS_2020 (Some (lit "temp_files/RS_2020-01.zst")) 90
               true 90 3 None 0 2 SUBMISSION).
Proof. vm_compute. repeat split; reflexivity. Qed.

(** *** Snapshots *)

(** A run in which the database refuses the rows of the larger archive: the
    worker sends the record at the start, and at the end the record with the
    error, three lines processed and two matched. *)
Example failed_run_snapshots :
  sent (run_worker unavailable_sink todo_RS_2020 "mentalhealth")
  = [todo_RS_2020; failed_RS_2020].
Proof. vm_compute. reflexivity. Qed.

(** C3, on the code. The next run loads the row saved for that record with
    its processed lines reset and its matched lines kept, and [process_file]
    counts on from there: the snapshot it sends at the start has 2 lines
    matched of 0 processed, the final one 4 of 3. *)
Theorem resumed_snapshots_evaluation :
  rehydrate example_disk (simple_file failed_RS_2020) = Ok resumed_RS_2020
  /\ sent (run_worker example_sink resumed_RS_2020 "mentalhealth")
     = [resumed_RS_2020;
        mkFileConfig RS_2020 (Some (lit "temp_files/RS_2020-01.zst")) 90 true
          90 3 None 0 4 SUBMISSION]
  /\ forallb snapshot_ok
       (sent (run_worker example_sink resumed_RS_2020 "mentalhealth"))
     = false.
Proof. vm_compute. repeat split; reflexivity. Qed.

(** Twenty lines that match, written to a database that refuses the write:
    the twentieth is counted as matched, the batch fails, and the line is
    never counted as processed. *)
Example failed_batch_snapshot :
  let w :=
    process_stream (sink := unavailable_sink) (lit "subreddit")
      (Some (lit "mentalhealth")) (-1)
      (repeat (subreddit_line "mentalhealth", 0) 20, None)
      (mkWorker (sink := unavailable_sink) todo_RS_2020 [] [] []
         [todo_RS_2020]) in
  lines_matched (file (sink := unavailable_sink) w) = 20
  /\ lines_processed (file (sink := unavailable_sink) w) = 19
  /\ error_message (file (sink := unavailable_sink) w)
     = Some (lit "gone away").
Proof. vm_compute. repeat split; reflexivity. Qed.

(** *** One malformed line *)

Example malformed_line_values :
  file (process_stream (lit "subreddit") (Some (lit "mentalhealth")) (-1)
          ([(subreddit_line "MentalHealth", 0); (lit "{not json", 0);
            (subreddit_line "python", 0)], None) fresh_worker)
  = mkFileConfig RS_2020 (Some (lit "temp_files/RS_2020-01.zst")) 90 true 90
      3 None 1 1 SUBMISSION.
Proof. vm_compute. reflexivity. Qed.

(** ** Task records and the checkpoint *)

Lemma str_eqb_refl (a : str) : str_eqb a a = true.
Proof.
  induction a as [|x a IH]; [reflexivity|]. cbn. now rewrite N.eqb_refl.
Qed.

Lemma str_eqb_eq (a b : str) : str_eqb a b = true <-> a = b.
Proof.
  split; [|intros ->; apply str_eqb_refl].
  revert b. induction a as [|x a IH]; intros [|y b]; cbn; try easy.
  intros Hab. apply andb_true_iff in Hab. destruct Hab as [Hx Hab].
  apply N.eqb_eq in Hx. f_equal; [assumption|now apply IH].
Qed.

Lemma FileConfig_init_ok {text} (fs : FileSystem text) path out c lp el lm f :
  FileConfig_init fs path out c lp el lm = Ok f ->
  exists size type,
    stat_size fs path = Some size
    /\ name_type (basename path) = Some type
    /\ f = mkFileConfig path out size c (if c then size else 0)
             (if c then lp else 0) None el lm type.
Proof.
  unfold FileConfig_init, name_type.
  destruct (stat_size fs path) as [size|]; [|discriminate].
  destruct (startswith (lit "RS") (basename path)).
  - intros E. inversion E. now exists size, SUBMISSION.
  - destruct (startswith (lit "RC") (basename path)); [|discriminate].
    intros E. inversion E. now exists size, COMMENT.
Qed.

Section CheckpointFacts.
Context {codec : Codec}.

Lemma rehydrate_ok (fs : FileSystem text) row f :
  rehydrate fs row = Ok f ->
  exists out c lp el lm,
    FileConfig_init fs (input_path f) out c lp el lm = Ok f.
Proof.
  unfold rehydrate. intros Hrow.
  repeat match type of Hrow with
         | match ?x with _ => _ end = _ => destruct x; try discriminate
         | (if ?x then _ else _) = _ => destruct x; try discriminate
         end;
    pose proof Hrow as Hinit;
    apply FileConfig_init_ok in Hinit;
    destruct Hinit as (size & type & _ & _ & ->); cbn [input_path];
    eauto 6.
Qed.

(** C10, as the code has it. A path whose base name starts with neither
    "RS" nor "RC" gives no record: [FileConfig] raises, a [ValueError] if the
    file can be stat'ed and the error of [os.stat] otherwise. So every
    record, built at discovery or rehydrated from a row of the checkpoint,
    has the type that its base name stands for. *)
Theorem FileConfig_requires_known_name (fs : FileSystem text) path out c lp
    el lm :
  (name_type (basename path) = None ->
   FileConfig_init fs path out c lp el lm
   = match stat_size fs path with
     | Some _ =>
       Raise (ValueError (lit "Unknown working file type: " ++ basename path))
     | None => Raise (OSError path)
     end)
  /\ (forall f, FileConfig_init fs path out c lp el lm = Ok f ->
                name_type (basename (input_path f)) = Some (file_type f))
  /\ (forall row f, rehydrate fs row = Ok f ->
                    name_type (basename (input_path f)) = Some (file_type f)).
Proof.
  assert (Hinit : forall path out c lp el lm f,
            FileConfig_init fs path out c lp el lm = Ok f ->
            name_type (basename (input_path f)) = Some (file_type f)).
  { intros p o b x y z f Hf. apply FileConfig_init_ok in Hf.
    destruct Hf as (size & type & _ & Hname & ->). exact Hname. }
  split; [|split].
  - unfold name_type, FileConfig_init.
    destruct (stat_size fs path); [|reflexivity].
    destruct (startswith (lit "RS") (basename path)); [discriminate|].
    destruct (startswith (lit "RC") (basename path)); [discriminate|].
    reflexivity.
  - apply Hinit.
  - intros row f Hrow. apply rehydrate_ok in Hrow.
    destruct Hrow as (o & b & x & y & z & Hf). now apply Hinit in Hf.
Qed.

End CheckpointFacts.

(** A path that is not on the disk: the exception is that of [os.stat], not
    a [ValueError]. *)
Lemma FileConfig_missing_file_counterexample :
  startswith (lit "RS") (basename (lit "dumps/notes.txt")) = false
  /\ startswith (lit "RC") (basename (lit "dumps/notes.txt")) = false
  /\ FileConfig_init example_disk (lit "dumps/notes.txt") None false 0 0 0
     = Raise (OSError (lit "dumps/notes.txt")).
Proof. repeat split; reflexivity. Qed.

Section RoundTrip.
Context {codec : Codec}.

Lemma FileConfig_init_on_disk (fs : FileSystem text) f :
  on_disk fs f ->
  FileConfig_init fs (input_path f) (output_path f) (complete f)
    (lines_processed f) (error_lines f) (lines_matched f)
  = Ok (reloaded f).
Proof.
  intros [Hsize Hname]. unfold FileConfig_init, reloaded. rewrite Hsize.
  unfold name_type in Hname.
  destruct (startswith (lit "RS") (basename (input_path f)));
    [now inversion Hname|].
  destruct (startswith (lit "RC") (basename (input_path f)));
    [now inversion Hname|discriminate].
Qed.

Lemma rehydrate_simple_file (fs : FileSystem text) f :
  on_disk fs f -> rehydrate fs (simple_file f) = Ok (reloaded f).
Proof.
  intros Hf. unfold rehydrate, simple_file, json_of_path.
  pose proof (FileConfig_init_on_disk fs f Hf) as Hinit.
  destruct (output_path f); exact Hinit.
Qed.

Lemma map_result_rehydrate (fs : FileSystem text) files :
  Forall (on_disk fs) files ->
  map_result (rehydrate fs) (map simple_file files) = Ok (map reloaded files).
Proof.
  induction 1 as [|f files Hf _ IH]; [reflexivity|].
  cbn [map map_result]. rewrite rehydrate_simple_file by assumption.
  cbn [bind]. now rewrite IH.
Qed.

Lemma on_disk_write_text (fs : FileSystem text) path content f :
  on_disk (write_text fs path content) f <-> on_disk fs f.
Proof. reflexivity. Qed.



End RoundTrip.



(** ** The coordinator *)

Lemma In_insert_sorted {A} (leb : A -> A -> bool) x y l :
  In x (insert_sorted leb y l) <-> x = y \/ In x l.
Proof.
  induction l as [|z l IH]; cbn; [intuition congruence|].
  destruct (leb y z); cbn; [intuition congruence|].
  rewrite IH. intuition congruence.
Qed.

Lemma In_sorted {A} (leb : A -> A -> bool) x l :
  In x (sorted leb l) <-> In x l.
Proof.
  induction l as [|y l IH]; cbn; [tauto|].
  rewrite In_insert_sorted, IH. intuition congruence.
Qed.

Section CoordinatorFacts.
Context {codec : Codec}.

Lemma In_files_to_process f files :
  In f (files_to_process files) <-> In f files /\ complete f = false.
Proof.
  unfold files_to_process, by_size_desc.
  rewrite filter_In, In_sorted, negb_true_iff. tauto.
Qed.

(** C4. On a run that finds a checkpoint written with its own argument
    string and run type, the task list is the loaded one, and the files
    dispatched are its records that are not complete: no record loaded as
    complete is given to a worker. *)
Theorem resume_skips_complete (fs : FileSystem text) (args : Args)
    (loaded : list FileConfig) (prefixes : list json) :
  load_file_list fs (status_json_of args)
  = Ok (Some loaded, JStr (arg_string args), JStr script_type, prefixes) ->
  startup fs args
  = match loaded with
    | [] => SysExit 0
    | _ => Dispatch fs loaded (files_to_process loaded)
    end
  /\ forall f, In f (dispatched (startup fs args))
               <-> In f loaded /\ complete f = false.
Proof.
  intros Hload.
  assert (Hstart : startup fs args
                   = match loaded with
                     | [] => SysExit 0
                     | _ => Dispatch fs loaded (files_to_process loaded)
                     end).
  { unfold startup. fold (status_json_of args). rewrite Hload.
    cbn [differs_from]. rewrite !str_eqb_refl. cbn [negb].
    rewrite !andb_false_r. reflexivity. }
  split; [exact Hstart|]. intros f. rewrite Hstart.
  destruct loaded as [|g loaded]; [cbn; intuition|].
  cbn [dispatched]. apply In_files_to_process.
Qed.



End CoordinatorFacts.

(** A first run lists both archives, saves the list and dispatches them,
    the larger first. *)
Example first_run_discovers :
  startup example_disk (example_args "mentalhealth")
  = Dispatch
      (save_file_list example_disk [todo_RC_2020; todo_RS_2020]
         (lit "temp_files") status_path (lit "subreddit:mentalhealth")
         script_type None)
      [todo_RC_2020; todo_RS_2020] [todo_RS_2020; todo_RC_2020].
Proof. reflexivity. Qed.

Lemma resume_skips_complete_witness :
  load_file_list stopped_disk (status_json_of (example_args "mentalhealth"))
  = Ok (Some [done_RC_2020; todo_RS_2020],
        JStr (arg_string (example_args "mentalhealth")), JStr script_type, [])
  /\ startup stopped_disk (example_args "mentalhealth")
     = Dispatch stopped_disk [done_RC_2020; todo_RS_2020]
         (files_to_process [done_RC_2020; todo_RS_2020])
  /\ forall f,
       In f (dispatched (startup stopped_disk (example_args "mentalhealth")))
       <-> In f [done_RC_2020; todo_RS_2020] /\ complete f = false.
Proof.
  assert (Hload : load_file_list stopped_disk
                    (status_json_of (example_args "mentalhealth"))
                  = Ok (Some [done_RC_2020; todo_RS_2020],
                        JStr (arg_string (example_args "mentalhealth")),
                        JStr script_type, []))
    by reflexivity.
  split; [exact Hload|].
  exact (resume_skips_complete (codec := example_codec) stopped_disk
           (example_args "mentalhealth") [done_RC_2020; todo_RS_2020] []
           Hload).
Defined.

Example resume_dispatches_the_rest :
  dispatched (startup stopped_disk (example_args "mentalhealth"))
  = [todo_RS_2020].
Proof. reflexivity. Qed.



(** The same checkpoint once the smaller archive was deleted: the run for
    [--value depression] does not get to the comparison, and ends with the
    error of [os.stat]. *)
Example unloadable_checkpoint_exit :
  load_file_list disk_without_RC (status_json_of (example_args "depression"))
  = Raise (OSError RC_2020)
  /\ run_main disk_without_RC "depression" [] = Died (OSError RC_2020)
  /\ exit_code (run_main disk_without_RC "depression" []) = 1.
Proof. repeat split; reflexivity. Qed.

(** *** The estimate of the time left *)

(** C9, on the code. The worker of the larger archive fails at the end of
    the file (see [failed_run_snapshots]); its final record is the first
    update with lines processed, and comes with no byte processed: the speed
    is 0, its mean is 0, and the division for the seconds left raises
    [ZeroDivisionError], which nothing catches. *)
Theorem zero_throughput_raises :
  run_main example_disk "mentalhealth"
    [(todo_RS_2020, 1%Q); (failed_RS_2020, 2%Q)]
  = Died ZeroDivisionError
  /\ exit_code (run_main example_disk "mentalhealth"
                  [(todo_RS_2020, 1%Q); (failed_RS_2020, 2%Q)]) = 1.
Proof. vm_compute. split; reflexivity. Qed.

(** * Further properties of the code *)

Module Utf8EncoderFacts.
Import Utf8 Utf8Encoder.
Local Open Scope N_scope.

Lemma to_N_byte_of n : n < 256 -> Byte.to_N (byte_of n) = n.
Proof.
  intros Hn. unfold byte_of.
  destruct (Byte.of_N n) as [b|] eqn:E.
  - now apply Byte.to_of_N.
  - apply Byte.of_N_None_iff in E. lia.
Qed.

Lemma byte_of_to_N b : byte_of (Byte.to_N b) = b.
Proof. unfold byte_of. now rewrite Byte.of_to_N. Qed.

Lemma to_N_lt b : Byte.to_N b < 256.
Proof.
  destruct (N.lt_ge_cases (Byte.to_N b) 256) as [H|H]; [assumption|].
  assert (E : Byte.of_N (Byte.to_N b) = None)
    by (apply Byte.of_N_None_iff; lia).
  rewrite Byte.of_to_N in E. discriminate.
Qed.

Lemma between_false lo hi n : between lo hi n = false -> n < lo \/ hi < n.
Proof.
  unfold between. intros H. apply andb_false_iff in H.
  destruct H as [H|H]; apply N.leb_gt in H; tauto.
Qed.

Lemma between_true lo hi n : between lo hi n = true -> lo <= n <= hi.
Proof.
  unfold between. intros H. apply andb_true_iff in H.
  destruct H as [H1 H2]. apply N.leb_le in H1, H2. tauto.
Qed.

(** A number in base 64: quotient and last digit. *)
Ltac digit x q r :=
  let Hq := fresh "Hq" in
  let Hr := fresh "Hr" in
  pose proof (N.div_mod x 64 ltac:(discriminate)) as Hq;
  pose proof (N.mod_lt x 64 ltac:(discriminate)) as Hr;
  set (q := x / 64) in *; set (r := x mod 64) in *;
  clearbody q r.

Ltac settle t spec_true spec_false spec :=
  first [ replace t with true by (symmetry; apply spec_true; lia)
        | replace t with false by (symmetry; apply spec_false; lia)
        | destruct spec ].

Ltac tests :=
  repeat match goal with
  | |- context [?a <? ?b] =>
    settle (a <? b) N.ltb_lt N.ltb_ge (N.ltb_spec a b)
  | |- context [?a <=? ?b] =>
    settle (a <=? b) N.leb_le N.leb_gt (N.leb_spec a b)
  | |- context [?a =? ?b] =>
    settle (a =? b) N.eqb_eq N.eqb_neq (N.eqb_spec a b)
  end.

Ltac name_bytes :=
  repeat match goal with
  | |- context [byte_of ?n] =>
    let b := fresh "b" in
    let Hb := fresh "Hb" in
    assert (Hb : Byte.to_N (byte_of n) = n) by (apply to_N_byte_of; lia);
    set (b := byte_of n) in *; clearbody b
  end.

Ltac read_back :=
  name_bytes; intros E; injection E as <-;
  unfold app, head, cont, low6, second_ok, between;
  tests; cbn [andb]; try discriminate; do 2 f_equal; lia.

(** The decoder reads back the character that the encoder wrote. *)
Lemma head_encode_char c bs rest :
  encode_char c = Some bs -> head (bs ++ rest) = Some (c, rest).
Proof.
  unfold encode_char.
  change 4096 with (64 * 64). change 262144 with (64 * 64 * 64).
  rewrite <- !N.Div0.div_div.
  destruct (N.ltb_spec c 0x80); [read_back|].
  digit c q1 r1.
  destruct (N.ltb_spec c 0x800); [read_back|].
  digit q1 q2 r2.
  destruct (N.ltb_spec c 0x10000).
  { destruct (between 0xD800 0xDFFF c) eqn:Hs; [discriminate|].
    apply between_false in Hs. read_back. }
  digit q2 q3 r3.
  destruct (N.ltb_spec c 0x110000); [|discriminate].
  read_back.
Qed.

Lemma encode_char_nonempty c bs : encode_char c = Some bs -> bs <> [].
Proof.
  unfold encode_char.
  repeat match goal with
         | |- context [if ?t then _ else _] => destruct t
         end; intros [= <-]; discriminate.
Qed.

Ltac same_byte :=
  match goal with
  | |- byte_of ?n = ?b => rewrite <- (byte_of_to_N b); f_equal; lia
  end.

(** The encoder writes back the bytes that the decoder read: no other
    bytes decode to the same character. *)
Lemma encode_char_head bs c rest :
  head bs = Some (c, rest) ->
  exists enc, encode_char c = Some enc /\ bs = enc ++ rest.
Proof.
  unfold head.
  destruct bs as [|b0 r0]; [discriminate|].
  pose proof (to_N_lt b0) as L0.
  destruct (N.ltb_spec (Byte.to_N b0) 0x80) as [H0|H0].
  { intros [= <- <-]. exists [b0]. split; [|reflexivity].
    unfold encode_char. tests. f_equal. f_equal. apply byte_of_to_N. }
  destruct (between 0xC2 0xDF (Byte.to_N b0)) eqn:R2.
  { apply between_true in R2.
    destruct r0 as [|b1 r1]; [discriminate|].
    destruct (cont b1) eqn:C1; [|discriminate].
    apply between_true in C1. unfold low6.
    intros [= <- <-]. exists [b0; b1]. split; [|reflexivity].
    unfold encode_char.
    set (c := (Byte.to_N b0 - 192) * 64 + (Byte.to_N b1 - 128)).
    assert (Hc : c = (Byte.to_N b0 - 192) * 64 + (Byte.to_N b1 - 128))
      by reflexivity.
    clearbody c. digit c q1 d1.
    tests; repeat f_equal; same_byte. }
  destruct (between 0xE0 0xEF (Byte.to_N b0)) eqn:R3.
  { apply between_true in R3.
    destruct r0 as [|b1 [|b2 r2]]; try discriminate.
    destruct (second_ok (Byte.to_N b0) b1) eqn:S1; [|discriminate].
    destruct (cont b2) eqn:C2; [|discriminate].
    apply between_true in C2. unfold low6. cbn [andb].
    intros [= <- <-]. exists [b0; b1; b2]. split; [|reflexivity].
    assert (S1' : 0x80 <= Byte.to_N b1 <= 0xBF
                  /\ (Byte.to_N b0 = 0xE0 -> 0xA0 <= Byte.to_N b1)
                  /\ (Byte.to_N b0 = 0xED -> Byte.to_N b1 <= 0x9F)).
    { unfold second_ok in S1.
      repeat match type of S1 with
             | context [?a =? ?b] => destruct (N.eqb_spec a b)
             end; apply between_true in S1; lia. }
    clear S1.
    unfold encode_char.
    change 4096 with (64 * 64). rewrite <- !N.Div0.div_div.
    set (c := ((Byte.to_N b0 - 224) * 64 + (Byte.to_N b1 - 128)) * 64
              + (Byte.to_N b2 - 128)).
    assert (Hc : c = ((Byte.to_N b0 - 224) * 64 + (Byte.to_N b1 - 128)) * 64
                     + (Byte.to_N b2 - 128)) by reflexivity.
    clearbody c. digit c q1 d1. digit q1 q2 d2.
    unfold between. tests; cbn [andb];
      repeat f_equal; same_byte. }
  destruct (between 0xF0 0xF4 (Byte.to_N b0)) eqn:R4; [|discriminate].
  apply between_true in R4.
  destruct r0 as [|b1 [|b2 [|b3 r3]]]; try discriminate.
  destruct (second_ok (Byte.to_N b0) b1) eqn:S1; [|discriminate].
  destruct (cont b2) eqn:C2; [|discriminate].
  destruct (cont b3) eqn:C3; [|discriminate].
  apply between_true in C2, C3. unfold low6. cbn [andb].
  intros [= <- <-]. exists [b0; b1; b2; b3]. split; [|reflexivity].
  assert (S1' : 0x80 <= Byte.to_N b1 <= 0xBF
                /\ (Byte.to_N b0 = 0xF0 -> 0x90 <= Byte.to_N b1)
                /\ (Byte.to_N b0 = 0xF4 -> Byte.to_N b1 <= 0x8F)).
  { unfold second_ok in S1.
    repeat match type of S1 with
           | context [?a =? ?b] => destruct (N.eqb_spec a b)
           end; apply between_true in S1; lia. }
  clear S1.
  unfold encode_char.
  change 4096 with (64 * 64). change 262144 with (64 * 64 * 64).
  rewrite <- !N.Div0.div_div.
  set (c := (((Byte.to_N b0 - 240) * 64 + (Byte.to_N b1 - 128)) * 64
             + (Byte.to_N b2 - 128)) * 64 + (Byte.to_N b3 - 128)).
  assert (Hc : c = (((Byte.to_N b0 - 240) * 64 + (Byte.to_N b1 - 128)) * 64
                    + (Byte.to_N b2 - 128)) * 64 + (Byte.to_N b3 - 128))
    by reflexivity.
  clearbody c. digit c q1 d1. digit q1 q2 d2. digit q2 q3 d3.
  tests; repeat f_equal; same_byte.
Qed.

(** What [encode] writes, [decode] reads back. *)
Lemma decode_encode (s : str) : forall bs,
  encode s = Some bs -> decode bs = Some s.
Proof.
  induction s as [|c s IH]; intros bs; cbn [encode].
  - intros [= <-]. reflexivity.
  - destruct (encode_char c) as [enc|] eqn:Hc; [|discriminate].
    destruct (encode s) as [rest|] eqn:Hs; [|discriminate].
    intros [= <-]. rewrite decode_eq.
    pose proof (encode_char_nonempty _ _ Hc) as Hne.
    rewrite (head_encode_char _ _ rest Hc).
    rewrite (IH rest eq_refl).
    destruct enc; [tauto|reflexivity].
Qed.

(** What [decode] reads, [encode] writes back: UTF-8 text has one
    encoding. *)
Lemma encode_decode (bs : list byte) : forall s,
  decode bs = Some s -> encode s = Some bs.
Proof.
  induction bs as [bs IH] using (induction_ltof1 _ (@length byte)).
  unfold ltof in IH. intros s. rewrite decode_eq.
  destruct bs as [|b bs]; [intros [= <-]; reflexivity|].
  destruct (head (b :: bs)) as [[c rest]|] eqn:Hh; [|discriminate].
  destruct (decode rest) as [t|] eqn:Hr; [|discriminate].
  intros [= <-]. cbn [encode].
  destruct (encode_char_head _ _ _ Hh) as (enc & -> & ->).
  now rewrite (IH rest (head_shorter _ _ _ Hh) t Hr).
Qed.

End Utf8EncoderFacts.

Import Utf8EncoderFacts.

(** ** More on [yield_lines] *)

Lemma In_removelast {A} (x : A) l : In x (removelast l) -> In x l.
Proof.
  induction l as [|y l IH]; [tauto|].
  destruct l as [|z l]; [intros []|].
  intros [->|Hin]; [now left|right; now apply IH].
Qed.

Lemma split_char_segments sep s :
  Forall (fun l => ~ In sep l) (split_char sep s).
Proof.
  induction s as [|c s IH]; cbn [split_char].
  - constructor; [tauto|constructor].
  - destruct (N.eqb_spec c sep) as [->|Hne].
    + constructor; [tauto|exact IH].
    + destruct (split_char sep s) as [|l ls]; [repeat constructor|].
      * intros [E|[]]. now apply Hne.
      * inversion IH; subst. constructor; [|assumption].
        intros [E|Hin]; [now apply Hne|tauto].
Qed.

Lemma complete_lines_segments t :
  Forall (fun l => ~ In NEWLINE l) (complete_lines t).
Proof.
  apply Forall_forall. intros l Hl. apply In_removelast in Hl.
  revert l Hl. apply Forall_forall. apply split_char_segments.
Qed.

Lemma yield_loop_no_newline tell fuel : forall r buffer items err,
  yield_loop fuel tell r buffer = Some (items, err) ->
  Forall (fun item => ~ In NEWLINE (fst item)) items.
Proof.
  induction fuel as [|fuel IH]; intros r buffer items err; [discriminate|].
  cbn [yield_loop].
  destruct (read_and_decode r CHUNK_SIZE MAX_WINDOW_SIZE None 0)
    as [[[|ch t]|e] r']; try (intros [= <- <-]; constructor).
  destruct (yield_loop fuel tell r' _) as [[rest err']|] eqn:Hrest;
    [|discriminate].
  intros [= <- <-]. apply Forall_app. split; [|now apply (IH _ _ _ _ Hrest)].
  apply Forall_forall. intros [line position] Hin.
  apply in_map_iff in Hin. destruct Hin as (l & [= <- <-] & Hl).
  cbn [fst]. revert l Hl. apply Forall_forall.
  apply (complete_lines_segments (buffer ++ ch :: t)).
Qed.

(** A round that decodes leaves a reader whose bytes, if they decode, follow
    the text of the round. *)
Lemma yield_loop_clean tell fuel : forall r buffer items,
  yield_loop fuel tell r buffer = Some (items, None) ->
  exists after, Utf8.decode (pending r) = Some after.
Proof.
  induction fuel as [|fuel IH]; intros r buffer items; [discriminate|].
  cbn [yield_loop].
  pose proof (read_and_decode_outcome r CHUNK_SIZE MAX_WINDOW_SIZE None 0
                CHUNK_SIZE_pos) as Hout.
  pose proof CHUNK_SIZE_pos as Hc.
  inversion Hout as [k t Hk Hall Hdec Heq | k Hk Hall Hdec Hw Heq];
    [|discriminate].
  unfold accumulated in Hdec. cbn [previous_bytes app] in Hdec.
  destruct t as [|ch t].
  - intros _. apply decode_empty_text in Hdec.
    apply take_empty_iff in Hdec; [|nia]. rewrite Hdec. now exists [].
  - destruct (yield_loop fuel tell _ _) as [[rest [e|]]|] eqn:Hrest;
      try discriminate.
    intros _. apply IH in Hrest. destruct Hrest as [after' Hafter'].
    cbn [after_reads pending] in Hafter'.
    rewrite <- (take_drop (pending r) (k * CHUNK_SIZE)).
    rewrite (decode_app _ _ _ Hdec), Hafter'. cbn [option_map]. eauto.
Qed.

Lemma yield_loop_error tell fuel : forall r buffer items e,
  yield_loop fuel tell r buffer = Some (items, Some e) ->
  exists n, e = UnicodeError n /\ MAX_WINDOW_SIZE < n.
Proof.
  induction fuel as [|fuel IH]; intros r buffer items e; [discriminate|].
  cbn [yield_loop].
  pose proof (read_and_decode_outcome r CHUNK_SIZE MAX_WINDOW_SIZE None 0
                CHUNK_SIZE_pos) as Hout.
  inversion Hout as [k t Hk Hall Hdec Heq | k Hk Hall Hdec Hw Heq].
  - destruct t as [|ch t]; [discriminate|].
    destruct (yield_loop fuel tell _ _) as [[rest [e'|]]|] eqn:Hrest;
      try discriminate.
    intros [= <- <-]. now apply IH in Hrest.
  - intros [= <- <-]. eauto.
Qed.

(** The lines of a valid stream every block of which ends within the
    window. *)
Lemma yield_lines_all (a : Archive) (t : str) :
  Utf8.decode (decompressed a) = Some t ->
  (forall m, 0 <= m -> boundary_within_window (decompressed a) m) ->
  exists items,
    yield_lines (Some a) = Some (items, None)
    /\ map fst items = complete_lines t.
Proof.
  intros Hvalid Hbound. unfold yield_lines.
  destruct (yield_loop_correct (decompressed a) (tell_after a)
              (S (length (decompressed a))) 0
              {| pending := decompressed a; delivered := 0 |} [] [] t)
    as (items & err & Hrun & Hwell & Hnone).
  - lia.
  - cbn [pending]. now rewrite Z.mul_0_l, drop_zero.
  - now rewrite Z.mul_0_l, take_zero.
  - exact Hvalid.
  - intros [].
  - cbn [pending]. lia.
  - rewrite (Hnone Hbound) in *. exists items. now split.
Qed.

Lemma take_all {A} (l : list A) : forall n,
  Z.of_nat (length l) <= n -> take n l = l.
Proof.
  induction l as [|x l IH]; intros n Hn; [reflexivity|].
  cbn [take length] in *. destruct (Z.leb_spec n 0); [lia|].
  rewrite IH by lia. reflexivity.
Qed.

Lemma take_Forall {A} (P : A -> Prop) (l : list A) : forall n,
  Forall P l -> Forall P (take n l).
Proof.
  induction l as [|x l IH]; intros n Hl; [constructor|].
  cbn [take]. inversion Hl; subst.
  destruct (n <=? 0); [constructor|]. constructor; [assumption|now apply IH].
Qed.

Lemma decode_all_ascii (bs : list byte) :
  Forall is_ascii bs -> Utf8.decode bs = Some (map Byte.to_N bs).
Proof.
  induction 1 as [|b bs Hb _ IH]; [reflexivity|].
  rewrite decode_ascii by now apply N.ltb_lt.
  rewrite IH. reflexivity.
Qed.

(** X1. Every line that [yield_lines] yields is free of newlines, whatever
    the archive holds. *)
Theorem yield_lines_no_newline (file : option Archive) items err :
  yield_lines file = Some (items, err) ->
  Forall (fun item => ~ In NEWLINE (fst item)) items.
Proof.
  destruct file as [a|]; [apply yield_loop_no_newline|].
  intros [= <- <-]. constructor.
Qed.

Lemma yield_lines_no_newline_witness :
  yield_lines (Some short_archive)
  = Some ([([104; 233]%N, 7); ([97]%N, 7)], None)
  /\ Forall (fun item : str * Z => ~ In NEWLINE (fst item))
       [([104; 233]%N, 7); ([97]%N, 7)].
Proof.
  split; [reflexivity|].
  apply (yield_lines_no_newline (Some short_archive) _ None). reflexivity.
Defined.

(** X2. An archive whose decompressed bytes are not valid UTF-8 is never read
    to its end: [yield_lines] raises [UnicodeError] past the window. *)
Theorem yield_lines_invalid_stream (a : Archive) :
  Utf8.decode (decompressed a) = None ->
  exists items n,
    yield_lines (Some a) = Some (items, Some (UnicodeError n))
    /\ MAX_WINDOW_SIZE < n.
Proof.
  intros Hbad. pose proof (yield_lines_ends (Some a)) as Hends.
  destruct (yield_lines (Some a)) as [[items [e|]]|] eqn:Hrun; [| |tauto].
  - unfold yield_lines in Hrun.
    destruct (yield_loop_error _ _ _ _ _ _ Hrun) as (n & -> & Hn). eauto.
  - unfold yield_lines in Hrun. apply yield_loop_clean in Hrun.
    destruct Hrun as [after Hafter]. cbn [pending] in Hafter. congruence.
Qed.

Lemma yield_lines_invalid_stream_witness :
  Utf8.decode (decompressed truncated_archive) = None
  /\ exists items n,
       yield_lines (Some truncated_archive)
       = Some (items, Some (UnicodeError n))
       /\ MAX_WINDOW_SIZE < n.
Proof.
  split; [reflexivity|]. apply yield_lines_invalid_stream. reflexivity.
Defined.

(** X3. When [yield_lines] ends without an exception, the archive was valid
    UTF-8 and every line of it that a newline ends was yielded, in order. *)
Theorem yield_lines_clean_end (a : Archive) items :
  yield_lines (Some a) = Some (items, None) ->
  exists t, Utf8.decode (decompressed a) = Some t
            /\ map fst items = complete_lines t.
Proof.
  intros Hrun. pose proof Hrun as Hclean. unfold yield_lines in Hclean.
  apply yield_loop_clean in Hclean. destruct Hclean as [t Ht].
  cbn [pending] in Ht. exists t. split; [exact Ht|].
  destruct (yield_loop_correct (decompressed a) (tell_after a)
              (S (length (decompressed a))) 0
              {| pending := decompressed a; delivered := 0 |} [] [] t)
    as (items' & err & Hrun' & Hwell & _).
  - lia.
  - cbn [pending]. now rewrite Z.mul_0_l, drop_zero.
  - now rewrite Z.mul_0_l, take_zero.
  - exact Ht.
  - intros [].
  - cbn [pending]. lia.
  - unfold yield_lines in Hrun. rewrite Hrun in Hrun'.
    injection Hrun' as <- <-. exact Hwell.
Qed.

Lemma yield_lines_clean_end_witness :
  yield_lines (Some short_archive)
  = Some ([([104; 233]%N, 7); ([97]%N, 7)], None)
  /\ exists t, Utf8.decode (decompressed short_archive) = Some t
               /\ map fst [([104; 233]%N, 7); ([97]%N, 7)]
                  = complete_lines t.
Proof.
  split; [reflexivity|].
  apply (yield_lines_clean_end short_archive). reflexivity.
Defined.

(** X4. A valid archive of at most nine chunks (9 * 2^27 bytes once
    decompressed) is read to its end: the ninth read of a block has the
    whole stream. *)
Theorem yield_lines_small_archive (a : Archive) (t : str) :
  Z.of_nat (length (decompressed a)) <= 9 * CHUNK_SIZE ->
  Utf8.decode (decompressed a) = Some t ->
  exists items,
    yield_lines (Some a) = Some (items, None)
    /\ map fst items = complete_lines t.
Proof.
  intros Hsmall Hvalid. apply yield_lines_all; [exact Hvalid|].
  intros m Hm. exists 9. split; [lia|].
  pose proof CHUNK_SIZE_pos.
  rewrite take_all by nia. congruence.
Qed.

Lemma yield_lines_small_archive_witness :
  Z.of_nat (length (decompressed short_archive)) <= 9 * CHUNK_SIZE
  /\ Utf8.decode (decompressed short_archive)
     = Some [104; 233; 10; 97; 10; 98]%N
  /\ exists items,
       yield_lines (Some short_archive) = Some (items, None)
       /\ map fst items = complete_lines [104; 233; 10; 97; 10; 98]%N.
Proof.
  assert (Hsmall : Z.of_nat (length (decompressed short_archive))
                   <= 9 * CHUNK_SIZE) by (vm_compute; discriminate).
  split; [exact Hsmall|]. split; [reflexivity|].
  apply yield_lines_small_archive; [exact Hsmall|reflexivity].
Defined.

(** X5. An archive of ASCII bytes only is read to its end, whatever its
    size: every chunk decodes at the first read. *)
Theorem yield_lines_ascii (a : Archive) :
  Forall is_ascii (decompressed a) ->
  exists items,
    yield_lines (Some a) = Some (items, None)
    /\ map fst items = complete_lines (map Byte.to_N (decompressed a)).
Proof.
  intros Hascii. apply yield_lines_all; [now apply decode_all_ascii|].
  intros m Hm. exists 1. split; [lia|].
  rewrite decode_all_ascii by now apply take_Forall. discriminate.
Qed.

Lemma yield_lines_ascii_witness :
  Forall is_ascii (decompressed (archive_of_lines [lit "a"; lit "b"]))
  /\ exists items,
       yield_lines (Some (archive_of_lines [lit "a"; lit "b"]))
       = Some (items, None)
       /\ map fst items
          = complete_lines
              (map Byte.to_N
                 (decompressed (archive_of_lines [lit "a"; lit "b"]))).
Proof.
  assert (Hascii : Forall is_ascii
                     (decompressed (archive_of_lines [lit "a"; lit "b"])))
    by (repeat constructor).
  split; [exact Hascii|]. now apply yield_lines_ascii.
Defined.

(** X6. [str.encode('utf-8')] and [bytes.decode()] are inverse: the bytes
    written for a text decode to it, and no other bytes do. *)
Theorem utf8_round_trip (s : str) (bs : list byte) :
  Utf8Encoder.encode s = Some bs <-> Utf8.decode bs = Some s.
Proof. split; [apply decode_encode|apply encode_decode]. Qed.

(** ** Writing lines *)

Lemma decode_newline rest :
  Utf8.decode (Writer.newline_encoded ++ rest)
  = option_map (cons NEWLINE) (Utf8.decode rest).
Proof.
  unfold Writer.newline_encoded. cbn [app]. now rewrite decode_ascii.
Qed.

Lemma decode_records lines encs :
  Forall2 (fun line data => Utf8Encoder.encode line = Some data) lines encs ->
  Utf8.decode (concat (map (fun data => data ++ Writer.newline_encoded) encs))
  = Some (concat (map (fun line => line ++ [NEWLINE]) lines)).
Proof.
  induction 1 as [|line data lines encs Hline _ IH]; [reflexivity|].
  cbn [map concat]. rewrite <- app_assoc.
  rewrite (decode_app _ _ _ (decode_encode _ _ Hline)).
  rewrite decode_newline, IH. cbn [option_map].
  now rewrite <- app_assoc.
Qed.

Lemma complete_lines_records lines :
  Forall (fun line => ~ In NEWLINE line) lines ->
  complete_lines (concat (map (fun line => line ++ [NEWLINE]) lines)) = lines.
Proof.
  induction 1 as [|line lines Hline _ IH]; [reflexivity|].
  cbn [map concat]. rewrite complete_lines_app.
  unfold complete_lines at 1.
  rewrite (split_char_terminated NEWLINE line Hline).
  cbn [removelast last app]. now rewrite IH.
Qed.

(** X7. What [write_line] writes for a line is its UTF-8 encoding and a
    newline; a stream of such records, for lines without a newline and of at
    most nine chunks in all, is read back by [yield_lines] as those
    lines. *)
Theorem yield_lines_reads_written_lines (a : Archive) (lines : list str)
    (encs : list (list byte)) :
  Forall2 (fun line data => Utf8Encoder.encode line = Some data) lines encs ->
  Forall (fun line => ~ In NEWLINE line) lines ->
  decompressed a
  = concat (map (fun data => data ++ Writer.newline_encoded) encs) ->
  Z.of_nat (length (decompressed a)) <= 9 * CHUNK_SIZE ->
  exists items,
    yield_lines (Some a) = Some (items, None) /\ map fst items = lines.
Proof.
  intros Henc Hlines Hdata Hsmall.
  pose proof (decode_records lines encs Henc) as Hvalid.
  rewrite <- Hdata in Hvalid.
  destruct (yield_lines_all a _ Hvalid) as (items & Hrun & Hitems).
  - intros m Hm. exists 9. split; [lia|].
    pose proof CHUNK_SIZE_pos. rewrite take_all by nia. congruence.
  - exists items. split; [exact Hrun|].
    now rewrite Hitems, complete_lines_records.
Qed.

Lemma yield_lines_reads_written_lines_witness :
  Forall2 (fun line data => Utf8Encoder.encode line = Some data)
    [[104; 233]%N; [97]%N] [[x68; xc3; xa9]; [x61]]
  /\ Forall (fun line => ~ In NEWLINE line) [[104; 233]%N; [97]%N]
  /\ exists items,
       yield_lines
         (Some {| decompressed := [x68; xc3; xa9; x0a; x61; x0a];
                  tell_after := fun n => n |})
       = Some (items, None)
       /\ map fst items = [[104; 233]%N; [97]%N].
Proof.
  assert (Henc : Forall2
                   (fun line data => Utf8Encoder.encode line = Some data)
                   [[104; 233]%N; [97]%N] [[x68; xc3; xa9]; [x61]])
    by (repeat constructor).
  assert (Hlines : Forall (fun line => ~ In NEWLINE line)
                     [[104; 233]%N; [97]%N]).
  { repeat constructor; cbn; unfold NEWLINE; intuition discriminate. }
  split; [exact Henc|]. split; [exact Hlines|].
  apply (yield_lines_reads_written_lines
           {| decompressed := [x68; xc3; xa9; x0a; x61; x0a];
              tell_after := fun n => n |} _ _ Henc Hlines);
    [reflexivity|vm_compute; discriminate].
Defined.

Section WriterFacts.
Variable writable : str -> bool.

(** No entry of [self.handles] is stored under an integer. *)
Lemma dict_get_path_only path (held : list Writer.Handle) :
  Writer.dict_get (map (fun h => (Writer.StrKey path, h)) held)
    (Writer.IntKey 1) = None.
Proof. induction held as [|h held IH]; [reflexivity|exact IH]. Qed.

Lemma dict_set_path path (held : list Writer.Handle) h :
  Writer.dict_set (map (fun h => (Writer.StrKey path, h)) held)
    (Writer.StrKey path) h
  = map (fun h => (Writer.StrKey path, h))
      (match held with [] => [h] | _ :: held' => h :: held' end).
Proof.
  destruct held as [|h0 held]; [reflexivity|].
  cbn [map Writer.dict_set Writer.Key_eqb]. now rewrite str_eqb_refl.
Qed.

Lemma opened_app trace trace' :
  Writer.opened (trace ++ trace')
  = (Writer.opened trace + Writer.opened trace')%nat.
Proof. unfold Writer.opened. now rewrite filter_app, length_app. Qed.

Lemma write_lines_from path : forall lines encs held trace,
  writable path = true ->
  Forall2 (fun line data => Utf8Encoder.encode line = Some data) lines encs ->
  (length held <= 1)%nat ->
  write_lines writable
    (Writer.mkFileHandle path (map (fun h => (Writer.StrKey path, h)) held))
    trace lines
  = (Ok tt,
     Writer.mkFileHandle path
       (map (fun h => (Writer.StrKey path, h))
          (match lines with
           | [] => held
           | _ => [(Writer.opened trace + length lines - 1)%nat]
           end)),
     trace ++ flat_map (line_events path)
                (combine (seq (Writer.opened trace) (length encs)) encs)).
Proof.
  induction lines as [|line lines IH]; intros encs held trace Hw Henc Hheld;
    inversion Henc as [|? data ? encs' Hline Hrest]; subst.
  - cbn. now rewrite app_nil_r.
  - cbn [write_lines]. unfold Writer.write_line, Writer.get_write_handle.
    cbn [Writer.handles Writer.path].
    rewrite dict_get_path_only, Hw, Hline, dict_set_path.
    rewrite (IH encs') ; [|assumption|assumption|].
    + rewrite <- !app_assoc. cbn [app]. rewrite !opened_app.
      cbn [Writer.opened filter Writer.is_open length].
      cbn [length seq combine flat_map line_events app].
      repeat f_equal.
      * destruct lines; [|f_equal; lia].
        destruct held as [|h0 [|h1 held]]; cbn in *; try lia;
          repeat f_equal; lia.
      * lia.
    + destruct held as [|h0 [|h1 held]]; cbn in *; lia.
Qed.

(** X8. [get_write_handle] looks its handle up under the key [1] and stores
    it under the path, so it never finds one: each call of [write_line]
    opens the file again and writes its line to a writer of its own, and
    [close] closes the last writer only. *)
Theorem write_line_opens_again (path : str) (lines : list str)
    (encs : list (list byte)) :
  writable path = true ->
  Forall2 (fun line data => Utf8Encoder.encode line = Some data) lines encs ->
  exists self,
    write_lines writable (Writer.init path) [] lines
    = (Ok tt, self,
       flat_map (line_events path) (combine (seq 0 (length encs)) encs))
    /\ Writer.close self []
       = map Writer.Closed (last_handle (length lines)).
Proof.
  intros Hw Henc. unfold Writer.init.
  pose proof (write_lines_from path lines encs [] [] Hw Henc) as Hrun.
  cbn [map app] in Hrun. rewrite Hrun by (cbn; lia).
  eexists. split; [reflexivity|].
  unfold Writer.close. cbn [Writer.handles app].
  destruct lines as [|line lines]; [reflexivity|].
  cbn [length last_handle map snd Writer.opened filter].
  do 2 f_equal. lia.
Qed.

End WriterFacts.

Lemma write_line_opens_again_witness :
  (fun _ : str => true) (lit "out.zst") = true
  /\ Forall2 (fun line data => Utf8Encoder.encode line = Some data)
       [[104; 233]%N; [97]%N] [[x68; xc3; xa9]; [x61]]
  /\ exists self,
       write_lines (fun _ => true) (Writer.init (lit "out.zst")) []
         [[104; 233]%N; [97]%N]
       = (Ok tt, self,
          flat_map (line_events (lit "out.zst"))
            (combine (seq 0 (length [[x68; xc3; xa9]; [x61]]))
               [[x68; xc3; xa9]; [x61]]))
       /\ Writer.close self []
          = map Writer.Closed (last_handle (length [[104; 233]%N; [97]%N])).
Proof.
  assert (Henc : Forall2
                   (fun line data => Utf8Encoder.encode line = Some data)
                   [[104; 233]%N; [97]%N] [[x68; xc3; xa9]; [x61]])
    by (repeat constructor).
  split; [reflexivity|]. split; [exact Henc|].
  apply (write_line_opens_again (fun _ => true) (lit "out.zst") _ _
           eq_refl Henc).
Defined.

(** ** More on the worker *)

Section WorkerSteps.
Context {lib : Library} {sink : Sink}.

Section Steps.
Variable R : Worker -> Worker -> Prop.
Hypothesis R_refl : forall w, R w w.
Hypothesis R_trans : forall a b c, R a b -> R b c -> R a c.
Hypothesis R_session : forall s w, R w (set_session s w).
Hypothesis R_records : forall ms cs w, R w (set_records ms cs w).
Hypothesis R_matched : forall w,
  R w (on_file (fun f => set_lines_matched f (lines_matched f + 1)) w).
Hypothesis R_error : forall w,
  R w (on_file (fun f => set_error_lines f (error_lines f + 1)) w).
Hypothesis R_processed : forall w,
  R w (on_file (fun f => set_lines_processed f (lines_processed f + 1)) w).
Hypothesis R_report : forall w position,
  lines_processed (file w) mod REPORT_EVERY = 0 ->
  R w (queue_put (on_file (fun f => set_bytes_processed f position) w)).

Lemma steps_ret {A} (a : A) : steps R (ret a).
Proof. intros w. apply R_refl. Qed.

Lemma steps_lift {A} (r : result A) : steps R (lift r).
Proof. intros w. apply R_refl. Qed.

Lemma steps_bind {A B} (m : M A) (k : A -> M B) :
  steps R m -> (forall a, steps R (k a)) -> steps R (mbind m k).
Proof.
  intros Hm Hk w. unfold mbind. specialize (Hm w).
  destruct (m w) as [[a|e] u]; cbn [snd] in *; [|assumption].
  eapply R_trans; [exact Hm|apply Hk].
Qed.

Lemma steps_get {B} (k : Worker -> M B) :
  (forall u, steps R (k u)) -> steps R (mbind get k).
Proof. intros Hk w. unfold mbind, get. apply Hk. Qed.

Lemma steps_modify (g : Worker -> Worker) :
  (forall w, R w (g w)) -> steps R (modify g).
Proof. intros Hg w. apply Hg. Qed.

Lemma steps_on_session (op : Session -> result Session) :
  steps R (on_session op).
Proof.
  unfold on_session. apply steps_get. intros u.
  apply steps_bind; [apply steps_lift|]. intros s.
  apply steps_modify. apply R_session.
Qed.

Lemma steps_flush_batch : steps R flush_batch.
Proof.
  unfold flush_batch. apply steps_get. intros u.
  apply steps_bind; [apply steps_on_session|]. intros _.
  apply steps_bind.
  { destruct (comment_records u); [apply steps_ret|apply steps_on_session]. }
  intros _. apply steps_bind; [apply steps_on_session|]. intros _.
  apply steps_modify. apply R_records.
Qed.

Lemma steps_try_line field value comment_depth line :
  steps R (try_line field value comment_depth line).
Proof.
  unfold try_line.
  apply steps_bind; [apply steps_lift|]. intros obj.
  apply steps_bind; [apply steps_lift|]. intros observed.
  apply steps_bind.
  - destruct (line_matched value observed); [|apply steps_ret].
    apply steps_bind; [apply steps_lift|]. intros submission.
    apply steps_bind; [apply steps_modify; intros w; apply R_records|].
    intros _. apply steps_bind.
    { destruct (0 <=? comment_depth); [|apply steps_ret].
      apply steps_bind; [apply steps_lift|]. intros comments.
      apply steps_modify. intros w. apply R_records. }
    intros _. apply steps_modify. apply R_matched.
  - intros _. apply steps_get. intros u.
    destruct (BATCH_SIZE <=? _); [apply steps_flush_batch|apply steps_ret].
Qed.

Lemma steps_guarded_line field value comment_depth line :
  steps R (guarded_line field value comment_depth line).
Proof.
  intros w. unfold guarded_line.
  pose proof (steps_try_line field value comment_depth line w) as Htry.
  destruct (try_line _ _ _ _ w) as [[[]|e] u]; cbn [snd] in *;
    [assumption|].
  destruct (line_handler_catches e); cbn [snd]; [|assumption].
  eapply R_trans; [exact Htry|apply R_error].
Qed.

Lemma steps_process_line field value comment_depth item :
  steps R (process_line field value comment_depth item).
Proof.
  unfold process_line. destruct item as [line position].
  apply steps_bind; [apply steps_guarded_line|]. intros _.
  apply steps_bind; [apply steps_modify; apply R_processed|]. intros _.
  intros w. unfold mbind, get.
  destruct (Z.eqb_spec (lines_processed (file w) mod REPORT_EVERY) 0)
    as [Hmod|Hmod]; [|apply R_refl].
  cbn. apply (R_report w position Hmod).
Qed.

Lemma steps_for_lines field value comment_depth items :
  steps R (for_lines field value comment_depth items).
Proof.
  induction items as [|item items IH]; cbn [for_lines]; [apply steps_ret|].
  apply steps_bind; [apply steps_process_line|]. intros _. exact IH.
Qed.

Hypothesis R_complete : forall w,
  R w (on_file (fun f => set_complete f true) w).
Hypothesis R_all_bytes : forall w,
  R w (on_file (fun f => set_bytes_processed f (file_size f)) w).

Lemma steps_finish_file : steps R finish_file.
Proof.
  unfold finish_file. apply steps_get. intros u.
  apply steps_bind.
  { destruct (matched_records u); [apply steps_ret|].
    apply steps_bind; [apply steps_on_session|]. intros _.
    apply steps_on_session. }
  intros _. apply steps_bind.
  { destruct (comment_records u); [apply steps_ret|].
    apply steps_bind; [apply steps_on_session|]. intros _.
    apply steps_on_session. }
  intros _. apply steps_bind; [apply steps_on_session|]. intros _.
  apply steps_bind; [apply steps_modify; apply R_complete|]. intros _.
  apply steps_modify. apply R_all_bytes.
Qed.

End Steps.

Lemma same_file_refl f : same_file f f.
Proof. repeat split. Qed.

Lemma same_file_trans f g h : same_file f g -> same_file g h -> same_file f h.
Proof. unfold same_file. intuition congruence. Qed.

Lemma reported_refl w : reported w w.
Proof.
  repeat split. exists []. split; [now rewrite app_nil_r|constructor].
Qed.

Lemma reported_trans a b c : reported a b -> reported b c -> reported a c.
Proof.
  intros (Hf1 & Hc1 & Hm1 & s1 & Hq1 & Hs1) (Hf2 & Hc2 & Hm2 & s2 & Hq2 & Hs2).
  split; [eapply same_file_trans; eassumption|].
  split; [congruence|]. split; [congruence|].
  exists (s1 ++ s2). split; [now rewrite Hq2, Hq1, app_assoc|].
  apply Forall_app. split; [assumption|].
  eapply Forall_impl; [|exact Hs2]. cbn beta.
  intros s (Hmod & Hsame & Hc & Hm).
  split; [assumption|]. split; [eapply same_file_trans; eassumption|].
  split; congruence.
Qed.

Lemma reported_quiet w w' :
  same_file (file w) (file w') ->
  complete (file w') = complete (file w) ->
  error_message (file w') = error_message (file w) ->
  queue w' = queue w ->
  reported w w'.
Proof.
  intros Hf Hc Hm Hq. repeat split; try apply Hf; try assumption.
  exists []. split; [now rewrite app_nil_r|constructor].
Qed.

(** The loop over the lines reports as [reported] says. *)
Lemma for_lines_reported field value comment_depth items :
  steps reported (for_lines field value comment_depth items).
Proof.
  apply steps_for_lines.
  - apply reported_refl.
  - apply reported_trans.
  - intros s w. now apply reported_quiet.
  - intros ms cs w. now apply reported_quiet.
  - intros w. now apply reported_quiet.
  - intros w. now apply reported_quiet.
  - intros w. now apply reported_quiet.
  - intros w position Hmod. repeat split.
    eexists. cbn. split; [reflexivity|].
    constructor; [|constructor]. cbn. repeat split. exact Hmod.
Qed.

Lemma settled_refl w : settled w w.
Proof. repeat split. Qed.

Lemma settled_trans a b c : settled a b -> settled b c -> settled a c.
Proof.
  unfold settled. intros (Hf1 & H1) (Hf2 & H2).
  split; [eapply same_file_trans; eassumption|]. intuition congruence.
Qed.

Lemma finish_file_settled : steps settled finish_file.
Proof.
  apply steps_finish_file.
  - apply settled_refl.
  - apply settled_trans.
  - intros s w. repeat split.
  - intros w. repeat split.
  - intros w. repeat split.
Qed.

Lemma try_line_errors_kept field value comment_depth line :
  steps errors_kept (try_line field value comment_depth line).
Proof.
  apply steps_try_line; unfold errors_kept; try reflexivity.
  intros a b c Hab Hbc. congruence.
Qed.

(** A line that is processed without an exception counts once as
    processed, at most once as an error and at most once as matched. *)
Lemma process_line_counts field value comment_depth item w w' :
  process_line field value comment_depth item w = (Ok tt, w') ->
  lines_processed (file w') = lines_processed (file w) + 1
  /\ error_lines (file w) <= error_lines (file w') <= error_lines (file w) + 1
  /\ lines_matched (file w) <= lines_matched (file w')
     <= lines_matched (file w) + 1.
Proof.
  destruct item as [line position]. unfold process_line. intros Hrun.
  apply mbind_ok in Hrun. destruct Hrun as (x & u1 & Htry & Hrun).
  apply mbind_ok in Hrun. destruct Hrun as (y & u2 & Hinc & Hrun).
  apply mbind_ok in Hrun. destruct Hrun as (u3 & u4 & Hget & Hrun).
  assert (Hu1 : counted 1 w u1
                /\ error_lines (file w) <= error_lines (file u1)
                   <= error_lines (file w) + 1).
  { unfold guarded_line in Htry.
    pose proof (within_try_line field value comment_depth line w) as Hc.
    pose proof (try_line_errors_kept field value comment_depth line w) as He.
    unfold errors_kept in He.
    destruct (try_line field value comment_depth line w) as [[[]|e] u];
      cbn [snd] in Hc, He.
    - inversion Htry; subst. split; [exact Hc|lia].
    - destruct (line_handler_catches e); [|discriminate].
      inversion Htry; subst. unfold counted in *. cbn.
      repeat split; try tauto; lia. }
  unfold modify in Hinc. inversion Hinc; subst. clear Hinc.
  unfold get in Hget. inversion Hget; subst. clear Hget.
  destruct Hu1 as ((Hm & Hp & Hb & Hs & Hqu) & He).
  destruct (_ =? 0).
  - apply mbind_ok in Hrun. destruct Hrun as (z & u5 & Hset & Hput).
    unfold modify in Hset, Hput. inversion Hset; subst.
    inversion Hput; subst. cbn. lia.
  - unfold ret in Hrun. inversion Hrun; subst. cbn. lia.
Qed.

Lemma for_lines_counts field value comment_depth items : forall w w',
  for_lines field value comment_depth items w = (Ok tt, w') ->
  lines_processed (file w')
  = lines_processed (file w) + Z.of_nat (length items)
  /\ error_lines (file w) <= error_lines (file w')
     <= error_lines (file w) + Z.of_nat (length items)
  /\ lines_matched (file w) <= lines_matched (file w')
     <= lines_matched (file w) + Z.of_nat (length items).
Proof.
  induction items as [|item items IH]; intros w w'.
  - cbn. intros [= <-]. lia.
  - cbn [for_lines]. unfold mbind at 1.
    destruct (process_line _ _ _ item w) as [[[]|e] u] eqn:Hline;
      [|discriminate].
    intros Hrest. apply process_line_counts in Hline. apply IH in Hrest.
    cbn [length]. lia.
Qed.

(** X9. In a file that is processed to completion every line that
    [yield_lines] gives is counted as processed exactly once, and at most
    once as an error and as matched. *)
Theorem lines_counted_once field value comment_depth
    (items : list (str * Z)) (w : Worker) :
  fst (file_body field value comment_depth (items, None) w) = Ok tt ->
  let f := file w in
  let f' :=
    file (process_stream field value comment_depth (items, None) w) in
  lines_processed f' = lines_processed f + Z.of_nat (length items)
  /\ error_lines f <= error_lines f' <= error_lines f + Z.of_nat (length items)
  /\ lines_matched f <= lines_matched f'
     <= lines_matched f + Z.of_nat (length items).
Proof.
  intros Hrun. cbn zeta. unfold process_stream.
  destruct (file_body field value comment_depth (items, None) w)
    as [[[]|e] w'] eqn:Hbody; [|discriminate].
  unfold file_body in Hbody. cbn [fst snd] in Hbody.
  apply mbind_ok in Hbody. destruct Hbody as ([] & u & Hlines & Hfinish).
  apply for_lines_counts in Hlines.
  pose proof (finish_file_settled u) as Hs. rewrite Hfinish in Hs.
  destruct Hs as (_ & _ & _ & Hp & He & Hm). cbn [snd] in *.
  cbn [queue_put file]. lia.
Qed.

(** X10. A line that is a JSON object without the field, or with a field
    that is not a string, is counted as an error and as processed; no
    record, counter of matches or message changes, and the loop goes on. *)
Theorem line_without_field_counted field value comment_depth (line : str)
    (position : Z) (d : list (str * json)) (w : Worker) :
  json_loads line = Ok (JDict d) ->
  (forall s, dict_get d field <> Some (JStr s)) ->
  exists w',
    process_line field value comment_depth (line, position) w = (Ok tt, w')
    /\ ahead_by 1 w w'.
Proof.
  intros Hobj Hfield.
  assert (Hraise : exists e,
            bind (subscript (JDict d) field) (fun v => lower_method v)
            = Raise e /\ line_handler_catches e = true).
  { cbn [subscript]. destruct (dict_get d field) as [v|] eqn:Hv.
    - cbn [bind]. destruct v; try (now exists AttributeError).
      now destruct (Hfield s).
    - now exists (KeyError field). }
  destruct Hraise as (e & Hraise & Hcatch).
  unfold process_line, guarded_line, try_line, mbind, lift.
  rewrite Hobj, Hraise, Hcatch.
  cbn [modify get ret on_file file].
  destruct (_ =? 0); eexists; (split; [reflexivity|]);
    unfold ahead_by; cbn; tauto.
Qed.

(** X11. A line that is valid JSON but not an object stops the file: the
    subscript raises [TypeError], which the handler of the loop does not
    catch; the record keeps the counts of the lines before, gets the
    message of the error and is sent, and no later line is looked at. *)
Theorem non_object_line_aborts field value comment_depth
    (before after : list (str * Z)) (err : option exn) (line : str)
    (position : Z) (obj : json) (w w1 : Worker) :
  json_loads line = Ok obj ->
  (forall d, obj <> JDict d) ->
  for_lines field value comment_depth before w = (Ok tt, w1) ->
  process_stream field value comment_depth
    (before ++ (line, position) :: after, err) w
  = queue_put
      (on_file (fun f => set_error_message f (Some (exn_str TypeError))) w1).
Proof.
  intros Hobj Hshape Hbefore.
  assert (Hsub : subscript obj field = Raise TypeError).
  { destruct obj; try reflexivity. now destruct (Hshape d). }
  unfold process_stream, file_body. cbn [fst snd].
  unfold mbind at 1. rewrite for_lines_app. unfold mbind at 1.
  rewrite Hbefore. cbn [for_lines]. unfold mbind at 1.
  unfold process_line at 1, guarded_line, try_line, mbind, lift.
  rewrite Hobj, Hsub. cbn [bind line_handler_catches]. reflexivity.
Qed.

(** X12. What [process_file] puts on the channel: the record as it got it,
    then a snapshot at every multiple of [REPORT_EVERY] lines, then the
    record it ends with. All are about the same file; those in between show
    it as it came, neither complete nor failed if it was not; the last one
    is complete or has an error message. *)
Theorem process_file_snapshots {text} (fs : FileSystem text)
    (f : FileConfig) (q : list FileConfig) field values database_name
    comment_depth (w : Worker) :
  process_file fs f q field values database_name comment_depth
  = Some (Returned w) ->
  exists sent_between,
    queue w = q ++ f :: sent_between ++ [file w]
    /\ Forall (fun s => lines_processed s mod REPORT_EVERY = 0
                        /\ same_file f s
                        /\ complete s = complete f
                        /\ error_message s = error_message f) sent_between
    /\ same_file f (file w)
    /\ is_terminal (file w) = true.
Proof.
  unfold process_file.
  destruct (database_connect database_name) as [s|e]; [|discriminate].
  destruct (yield_lines _) as [[items err]|]; [|discriminate].
  intros [= Hw]. unfold process_stream, file_body in Hw.
  cbn [fst snd] in Hw. unfold mbind in Hw.
  pose proof (for_lines_reported field (single_value values) comment_depth
                items (mkWorker f [] [] s (q ++ [f]))) as Hloop.
  destruct (for_lines _ _ _ items _) as [[[]|e] u]; cbn [snd] in Hloop;
    destruct Hloop as (Hf & Hc & Hm & sent_since & Hq & Hs);
    cbn [file queue] in Hf, Hc, Hm, Hq, Hs.
  - destruct (match err with Some e => raise e | None => finish_file end u)
      as [res u'] eqn:Hrun.
    assert (Hend : settled u u'
                   /\ (res = Ok tt -> complete (file u') = true)).
    { destruct err as [e|].
      - inversion Hrun; subst. split; [apply settled_refl|discriminate].
      - pose proof (finish_file_settled u) as Hset. rewrite Hrun in Hset.
        split; [exact Hset|]. intros ->.
        now apply finish_file_ok in Hrun. }
    destruct Hend as ((Hf' & Hq' & Hm' & _) & Hdone).
    exists sent_since.
    destruct res as [[]|e]; subst w; cbn [queue_put on_file file queue];
      rewrite Hq', Hq, <- !app_assoc; cbn [app];
      (split; [reflexivity|]); (split; [exact Hs|]).
    + split; [eapply same_file_trans; eassumption|].
      unfold is_terminal. now rewrite Hdone.
    + split; [eapply same_file_trans; [exact Hf|]; exact Hf'|].
      unfold is_terminal. cbn. apply orb_true_r.
  - exists sent_since. subst w. cbn [queue_put on_file file queue].
    rewrite Hq, <- !app_assoc. cbn [app].
    split; [reflexivity|]. split; [exact Hs|]. split; [exact Hf|].
    unfold is_terminal. cbn. apply orb_true_r.
Qed.

End WorkerSteps.

Lemma lines_counted_once_witness :
  fst (file_body (lit "subreddit") (Some (lit "mentalhealth")) (-1)
         ([(subreddit_line "MentalHealth", 0); (lit "{not json", 0)], None)
         fresh_worker) = Ok tt
  /\ let f := file fresh_worker in
     let f' :=
       file (process_stream (lit "subreddit") (Some (lit "mentalhealth")) (-1)
               ([(subreddit_line "MentalHealth", 0); (lit "{not json", 0)],
                None) fresh_worker) in
     lines_processed f' = lines_processed f + Z.of_nat 2
     /\ error_lines f <= error_lines f' <= error_lines f + Z.of_nat 2
     /\ lines_matched f <= lines_matched f'
        <= lines_matched f + Z.of_nat 2.
Proof.
  split; [reflexivity|].
  apply (lines_counted_once (lib := example_library) (sink := example_sink)
           (lit "subreddit") (Some (lit "mentalhealth")) (-1)
           [(subreddit_line "MentalHealth", 0); (lit "{not json", 0)]
           fresh_worker).
  reflexivity.
Defined.

Lemma line_without_field_counted_witness :
  json_loads (subreddit_line "python")
  = Ok (JDict [(lit "subreddit", JStr (lit "python"))])
  /\ (forall s, dict_get [(lit "subreddit", JStr (lit "python"))]
                  (lit "author") <> Some (JStr s))
  /\ exists w',
       process_line (lit "author") (Some (lit "mentalhealth")) (-1)
         (subreddit_line "python", 0) fresh_worker = (Ok tt, w')
       /\ ahead_by 1 fresh_worker w'.
Proof.
  assert (Hfield : forall s, dict_get [(lit "subreddit", JStr (lit "python"))]
                               (lit "author") <> Some (JStr s))
    by (intros s; discriminate).
  split; [reflexivity|]. split; [exact Hfield|].
  apply (line_without_field_counted (lib := example_library)
           (sink := example_sink) (lit "author") (Some (lit "mentalhealth"))
           (-1) (subreddit_line "python") 0
           [(lit "subreddit", JStr (lit "python"))] fresh_worker eq_refl
           Hfield).
Defined.

Lemma non_object_line_aborts_witness :
  json_loads (Library := number_library) (lit "42") = Ok (JInt 42)
  /\ (forall d, JInt 42 <> JDict d)
  /\ for_lines (lib := number_library) (lit "subreddit")
       (Some (lit "mentalhealth")) (-1) [] fresh_worker
     = (Ok tt, fresh_worker)
  /\ process_stream (lib := number_library) (lit "subreddit")
       (Some (lit "mentalhealth")) (-1)
       ([] ++ (lit "42", 0) :: [(subreddit_line "MentalHealth", 0)], None)
       fresh_worker
     = queue_put
         (on_file
            (fun f =>
               set_error_message f
                 (Some (exn_str (Library := number_library) TypeError)))
            fresh_worker).
Proof.
  assert (Hshape : forall d, JInt 42 <> JDict d) by (intros d; discriminate).
  split; [reflexivity|]. split; [exact Hshape|]. split; [reflexivity|].
  apply (non_object_line_aborts (lib := number_library)
           (sink := example_sink) (lit "subreddit")
           (Some (lit "mentalhealth")) (-1) []
           [(subreddit_line "MentalHealth", 0)] None (lit "42") 0 (JInt 42)
           fresh_worker fresh_worker eq_refl Hshape eq_refl).
Defined.

Lemma process_file_snapshots_witness :
  exists w,
    process_file (lib := example_library) (sink := example_sink) example_disk
      todo_RS_2020 [] (lit "subreddit") [lit "mentalhealth"]
      (lit "reddit_bc") (-1)
    = Some (Returned w)
    /\ exists sent_between,
         queue w = [] ++ todo_RS_2020 :: sent_between ++ [file w]
         /\ Forall (fun s => lines_processed s mod REPORT_EVERY = 0
                             /\ same_file todo_RS_2020 s
                             /\ complete s = complete todo_RS_2020
                             /\ error_message s = error_message todo_RS_2020)
              sent_between
         /\ same_file todo_RS_2020 (file w)
         /\ is_terminal (file w) = true.
Proof.
  eexists. split; [vm_compute; reflexivity|].
  apply (process_file_snapshots (lib := example_library)
           (sink := example_sink) example_disk todo_RS_2020 []
           (lit "subreddit") [lit "mentalhealth"] (lit "reddit_bc") (-1)).
  vm_compute. reflexivity.
Defined.

(** ** The value of the filter *)

Lemma startswith_refl (s : str) : startswith s s = true.
Proof.
  induction s as [|c s IH]; [reflexivity|]. cbn. now rewrite N.eqb_refl.
Qed.

Lemma str_in_refl (s : str) : str_in s s = true.
Proof.
  destruct s; cbn; [reflexivity|].
  now rewrite N.eqb_refl, startswith_refl.
Qed.

(** [value == observed or value in observed] is [value in observed]. *)
Lemma line_matched_contains (v observed : str) :
  line_matched (Some v) observed = str_in v observed.
Proof.
  cbn [line_matched]. destruct (str_eqb v observed) eqn:E; [|reflexivity].
  apply str_eqb_eq in E. subst. now rewrite str_in_refl.
Qed.

Lemma nodup_all_same {A} (dec : forall a b : A, {a = b} + {a <> b}) v l :
  l <> [] -> (forall x, In x l -> x = v) -> nodup dec l = [v].
Proof.
  induction l as [|x l IH]; [tauto|]. intros _ Hall. cbn [nodup].
  destruct (in_dec dec x l) as [Hin|Hout].
  - apply IH; [now destruct l|]. intros y Hy. apply Hall. now right.
  - destruct l as [|y l].
    + cbn. f_equal. apply Hall. now left.
    + exfalso. apply Hout. left.
      rewrite (Hall x) by now left. apply Hall. right. now left.
Qed.

Section ValueFacts.
Context {lib : Library}.

(** X13. When every part of [--value] between commas, stripped and in lower
    case, is the same string, the set [values] has that one member, and a
    line matches exactly when it occurs in the lower-case field: the test
    for equality adds nothing to the test for containment. *)
Theorem single_value_matches (args : Args) (v observed : str) :
  (forall part, In part (split_char COMMA (value args)) ->
                str_lower (str_strip part) = v) ->
  values args = [v]
  /\ line_matched (single_value (values args)) observed = str_in v observed.
Proof.
  intros Hparts.
  assert (Hvalues : values args = [v]).
  { unfold values. apply nodup_all_same.
    - pose proof (split_char_nonempty COMMA (value args)).
      destruct (split_char COMMA (value args)); [tauto|discriminate].
    - intros x Hx. apply in_map_iff in Hx.
      destruct Hx as (part & <- & Hpart). now apply Hparts. }
  split; [exact Hvalues|]. rewrite Hvalues. cbn [single_value str_min].
  apply line_matched_contains.
Qed.

End ValueFacts.

Lemma single_value_matches_witness :
  (forall part,
     In part (split_char COMMA
                (value (example_args "MentalHealth, mentalhealth "))) ->
     str_lower (str_strip part) = lit "mentalhealth")
  /\ values (example_args "MentalHealth, mentalhealth ")
     = [lit "mentalhealth"]
  /\ line_matched
       (single_value (values (example_args "MentalHealth, mentalhealth ")))
       (lit "mentalhealth_uk")
     = str_in (lit "mentalhealth") (lit "mentalhealth_uk").
Proof.
  assert (Hparts : forall part,
            In part (split_char COMMA
                       (value (example_args "MentalHealth, mentalhealth "))) ->
            str_lower (str_strip part) = lit "mentalhealth").
  { intros part [<-|[<-|[]]]; reflexivity. }
  split; [exact Hparts|].
  apply (single_value_matches (lib := example_library)
           (example_args "MentalHealth, mentalhealth ")
           (lit "mentalhealth") (lit "mentalhealth_uk") Hparts).
Defined.

(** The empty value is in every string: with [--value ""] every line whose
    field is a string matches. *)
Example empty_value_matches_all (observed : str) :
  line_matched (Some []) observed = true.
Proof. rewrite line_matched_contains. now destruct observed. Qed.

(** ** The class [Queue] *)

Arguments items {A}.
Arguments max_size {A}.

Lemma last_items_short {A} n (l : list A) :
  (length l <= n)%nat -> last_items n l = l.
Proof.
  intros Hlen. unfold last_items.
  replace (length l - n)%nat with O by lia. reflexivity.
Qed.

Lemma last_items_app {A} n (l m : list A) :
  last_items n (last_items n l ++ m) = last_items n (l ++ m).
Proof.
  destruct (Nat.le_gt_cases (length l) n) as [Hle|Hgt].
  - now rewrite (last_items_short n l Hle).
  - unfold last_items. rewrite !length_app, length_skipn.
    rewrite !skipn_app, length_skipn, skipn_skipn.
    f_equal; f_equal; lia.
Qed.

Lemma Queue_put_items {A} (q : Queue A) (x : A) :
  1 <= max_size q ->
  Z.of_nat (length (items q)) <= max_size q ->
  items (Queue_put q x)
  = last_items (Z.to_nat (max_size q)) (items q ++ [x]).
Proof.
  intros Hmax Hlen. unfold Queue_put. cbn [items].
  destruct (Z.leb_spec (max_size q) (Z.of_nat (length (items q)))).
  - unfold last_items. rewrite length_app. cbn [length].
    replace (length (items q) + 1 - Z.to_nat (max_size q))%nat with 1%nat
      by lia.
    destruct (items q); [cbn in *; lia|reflexivity].
  - rewrite last_items_short; [reflexivity|].
    rewrite length_app. cbn [length]. lia.
Qed.

Lemma length_last_items {A} n (l : list A) :
  (length (last_items n l) <= n)%nat.
Proof. unfold last_items. rewrite length_skipn. lia. Qed.

Lemma Queue_puts_items {A} (xs : list A) : forall (q : Queue A),
  1 <= max_size q ->
  Z.of_nat (length (items q)) <= max_size q ->
  max_size (fold_left Queue_put xs q) = max_size q
  /\ items (fold_left Queue_put xs q)
     = last_items (Z.to_nat (max_size q)) (items q ++ xs).
Proof.
  induction xs as [|x xs IH]; intros q Hmax Hlen.
  - cbn [fold_left]. rewrite app_nil_r, last_items_short by lia. now split.
  - cbn [fold_left].
    pose proof (Queue_put_items q x Hmax Hlen) as Hput.
    destruct (IH (Queue_put q x)) as [Hsize Hitems].
    + exact Hmax.
    + rewrite Hput. cbn [Queue_put max_size].
      pose proof (length_last_items (Z.to_nat (max_size q)) (items q ++ [x])).
      lia.
    + split; [exact Hsize|]. rewrite Hitems, Hput. cbn [Queue_put max_size].
      rewrite last_items_app, <- app_assoc. reflexivity.
Qed.

(** X14. A [Queue] made for [max_size >= 1] items holds, after any number of
    [put]s, the last [max_size] items put, oldest first, and all of them
    while they are fewer; [peek] gives the oldest of these, and nothing on
    a queue that nothing was put in. *)
Theorem Queue_sliding_window {A} (n : Z) (xs : list A) :
  1 <= n ->
  let q := fold_left Queue_put xs (mkQueue A [] n) in
  items q = last_items (Z.to_nat n) xs
  /\ (length (items q) <= Z.to_nat n)%nat
  /\ Queue_peek q = nth_error xs (length xs - Z.to_nat n).
Proof.
  intros Hn q.
  destruct (Queue_puts_items xs (mkQueue A [] n)) as [_ Hitems];
    [exact Hn|cbn; lia|].
  cbn [items max_size app] in Hitems. fold q in Hitems.
  split; [exact Hitems|]. split.
  - rewrite Hitems. apply length_last_items.
  - unfold Queue_peek. rewrite Hitems. unfold last_items.
    rewrite <- hd_error_skipn.
    now destruct (skipn (length xs - Z.to_nat n) xs).
Qed.

Lemma Queue_sliding_window_witness :
  1 <= 2
  /\ let q := fold_left Queue_put [10; 20; 30] (mkQueue Z [] 2) in
     items q = last_items (Z.to_nat 2) [10; 20; 30]
     /\ (length (items q) <= Z.to_nat 2)%nat
     /\ Queue_peek q
        = nth_error [10; 20; 30] (length [10; 20; 30] - Z.to_nat 2).
Proof.
  split; [lia|]. apply (Queue_sliding_window 2 [10; 20; 30]). lia.
Defined.

Example Queue_keeps_the_last_two :
  items (fold_left Queue_put [10; 20; 30] (mkQueue Z [] 2)) = [20; 30].
Proof. reflexivity. Qed.

(** ** The order of dispatch *)

Lemma insert_sorted_perm {A} (leb : A -> A -> bool) x l :
  Permutation (insert_sorted leb x l) (x :: l).
Proof.
  induction l as [|y l IH]; cbn [insert_sorted]; [reflexivity|].
  destruct (leb x y); [reflexivity|].
  rewrite IH. apply perm_swap.
Qed.

Lemma sorted_perm {A} (leb : A -> A -> bool) l :
  Permutation (sorted leb l) l.
Proof.
  induction l as [|x l IH]; [reflexivity|].
  cbn [sorted fold_right]. fold (sorted leb l).
  rewrite insert_sorted_perm. now constructor.
Qed.

Lemma filter_perm {A} (keep : A -> bool) l l' :
  Permutation l l' -> Permutation (filter keep l) (filter keep l').
Proof.
  induction 1 as [|x l l' _ IH|x y l|l l' l'' _ IH1 _ IH2]; cbn [filter].
  - reflexivity.
  - destruct (keep x); [now constructor|assumption].
  - destruct (keep x), (keep y); try reflexivity. apply perm_swap.
  - now rewrite IH1.
Qed.

Lemma insert_sorted_sorted (l : list FileConfig) : forall x,
  StronglySorted (fun a b => file_size b <= file_size a) l ->
  StronglySorted (fun a b => file_size b <= file_size a)
    (insert_sorted (fun a b => file_size b <=? file_size a) x l).
Proof.
  induction l as [|y l IH]; intros x Hl; cbn [insert_sorted].
  - repeat constructor.
  - apply StronglySorted_inv in Hl. destruct Hl as [Hl Hy].
    destruct (Z.leb_spec (file_size y) (file_size x)).
    + constructor; [now constructor|]. constructor; [assumption|].
      eapply Forall_impl; [|exact Hy]. cbn beta. intros z Hz. lia.
    + constructor; [now apply IH|].
      rewrite (insert_sorted_perm _ x l).
      constructor; [lia|assumption].
Qed.

Lemma by_size_desc_sorted files :
  StronglySorted (fun a b => file_size b <= file_size a) (by_size_desc files).
Proof.
  unfold by_size_desc.
  induction files as [|f files IH]; [constructor|].
  cbn [sorted fold_right]. now apply insert_sorted_sorted.
Qed.

Lemma filter_sorted {A} (R : A -> A -> Prop) (keep : A -> bool) l :
  StronglySorted R l -> StronglySorted R (filter keep l).
Proof.
  induction 1 as [|x l _ IH Hx]; cbn [filter]; [constructor|].
  destruct (keep x); [|assumption].
  constructor; [assumption|].
  apply Forall_forall. intros y Hy. apply filter_In in Hy.
  destruct Hy as [Hy _]. revert y Hy. now apply Forall_forall.
Qed.

(** X15. The files given to the workers are the records that are not
    complete, each once, and the largest first. *)
Theorem dispatch_order (files : list FileConfig) :
  StronglySorted (fun a b => file_size b <= file_size a)
    (files_to_process files)
  /\ Permutation (files_to_process files)
       (filter (fun f => negb (complete f)) files).
Proof.
  unfold files_to_process. split.
  - apply filter_sorted, by_size_desc_sorted.
  - apply filter_perm. apply sorted_perm.
Qed.

(** ** More on the checkpoint *)

Section CheckpointMore.
Context {codec : Codec}.

Lemma load_of_checkpoint (fs : FileSystem text) status_json files
    saved_arg_string saved_type :
  (forall v, json_load (json_dumps v) = Ok v) ->
  holds_checkpoint fs status_json files saved_arg_string saved_type ->
  load_file_list fs status_json
  = bind (map_result (rehydrate fs) (map simple_file files))
      (fun input_files =>
         Ok (Some input_files, JStr saved_arg_string, JStr saved_type, [])).
Proof.
  intros Hcodec Hholds. unfold load_file_list.
  rewrite Hholds, Hcodec. cbn [bind]. unfold output_dict.
  set (doc := [(lit "args", JStr saved_arg_string);
               (lit "type", JStr saved_type);
               (lit "completed_prefixes", JList (map JStr []));
               (lit "files", JList (map simple_file files))]).
  change (subscript (JDict doc) (lit "files"))
    with (Ok (JList (map simple_file files))).
  change (subscript (JDict doc) (lit "completed_prefixes"))
    with (Ok (JList (@nil json))).
  change (subscript (JDict doc) (lit "args")) with (Ok (JStr saved_arg_string)).
  change (subscript (JDict doc) (lit "type")) with (Ok (JStr saved_type)).
  cbn [bind as_list].
  destruct (map_result (rehydrate fs) (map simple_file files)); reflexivity.
Qed.

Lemma save_holds_checkpoint (fs : FileSystem text) files working_folder
    status_json arg_string script_type :
  holds_checkpoint
    (save_file_list fs files working_folder status_json arg_string
       script_type None)
    status_json files arg_string script_type.
Proof.
  unfold holds_checkpoint, save_file_list, write_text. cbn [text_file].
  now rewrite str_eqb_refl.
Qed.

Lemma rehydrate_missing (fs : FileSystem text) f :
  stat_size fs (input_path f) = None ->
  rehydrate fs (simple_file f) = Raise (OSError (input_path f)).
Proof.
  intros Hgone. unfold rehydrate, simple_file, json_of_path, FileConfig_init.
  destruct (output_path f); now rewrite Hgone.
Qed.

Lemma map_result_rehydrate_missing (fs : FileSystem text) good f rest :
  Forall (on_disk fs) good ->
  stat_size fs (input_path f) = None ->
  map_result (rehydrate fs) (map simple_file (good ++ f :: rest))
  = Raise (OSError (input_path f)).
Proof.
  intros Hgood Hgone. induction Hgood as [|g good Hg _ IH].
  - cbn [app map map_result]. now rewrite rehydrate_missing.
  - cbn [app map map_result].
    rewrite (rehydrate_simple_file fs g Hg). cbn [bind]. now rewrite IH.
Qed.

(** X16. A checkpoint that lists a file which is no longer on the disk cannot
    be loaded: [load_file_list] raises the error of [os.stat] for the first
    such file, nothing catches it, and the run ends before any file is
    processed, whatever it was started for. *)
Theorem vanished_file_stops_resume (fs : FileSystem text) (args : Args)
    (good rest : list FileConfig) (f : FileConfig)
    (saved_arg_string saved_type : str) (start_time : Q)
    (updates : list (FileConfig * Q)) :
  (forall v, json_load (json_dumps v) = Ok v) ->
  holds_checkpoint fs (status_json_of args) (good ++ f :: rest)
    saved_arg_string saved_type ->
  Forall (on_disk fs) good ->
  stat_size fs (input_path f) = None ->
  load_file_list fs (status_json_of args) = Raise (OSError (input_path f))
  /\ main fs args start_time updates = Died (OSError (input_path f)).
Proof.
  intros Hcodec Hholds Hgood Hgone.
  assert (Hload : load_file_list fs (status_json_of args)
                  = Raise (OSError (input_path f))).
  { rewrite (load_of_checkpoint _ _ _ _ _ Hcodec Hholds).
    now rewrite map_result_rehydrate_missing. }
  split; [exact Hload|].
  unfold main, startup. fold (status_json_of args). now rewrite Hload.
Qed.

Lemma startup_of_checkpoint (fs : FileSystem text) (args : Args) files :
  (forall v, json_load (json_dumps v) = Ok v) ->
  holds_checkpoint fs (status_json_of args) files (arg_string args)
    script_type ->
  Forall (on_disk fs) files ->
  startup fs args
  = match files with
    | [] => SysExit 0
    | _ => Dispatch fs (map reloaded files)
             (files_to_process (map reloaded files))
    end.
Proof.
  intros Hcodec Hholds Hfiles. unfold startup. fold (status_json_of args).
  rewrite (load_of_checkpoint _ _ _ _ _ Hcodec Hholds).
  rewrite (map_result_rehydrate fs files Hfiles). cbn [bind differs_from].
  rewrite !str_eqb_refl. cbn [negb]. rewrite !andb_false_r.
  now destruct files.
Qed.

(** X17. A run that finds the checkpoint of a run with the same [--field] and
    [--value], the files of which are still on the disk, discovers nothing
    anew: its task list is the saved one, with the progress of the files
    that were not complete reset, and it dispatches those files only. *)
Theorem rerun_resumes (fs : FileSystem text) (args : Args)
    (files : list FileConfig) :
  (forall v, json_load (json_dumps v) = Ok v) ->
  holds_checkpoint fs (status_json_of args) files (arg_string args)
    script_type ->
  Forall (on_disk fs) files ->
  startup fs args
  = match files with
    | [] => SysExit 0
    | _ => Dispatch fs (map reloaded files)
             (files_to_process (map reloaded files))
    end
  /\ forall f, In f (dispatched (startup fs args))
               <-> exists g, In g files /\ complete g = false
                             /\ f = reloaded g.
Proof.
  intros Hcodec Hholds Hfiles.
  pose proof (startup_of_checkpoint fs args files Hcodec Hholds Hfiles)
    as Hstart.
  split; [exact Hstart|]. intros f. rewrite Hstart.
  destruct files as [|g0 files]; [cbn; split; [tauto|]|].
  - intros (g & [] & _).
  - cbn [dispatched]. rewrite In_files_to_process, in_map_iff. split.
    + intros [(g & <- & Hg) Hc]. exists g. cbn in Hc. now repeat split.
    + intros (g & Hg & Hc & ->). split; [now exists g|exact Hc].
Qed.

End CheckpointMore.

Lemma vanished_file_stops_resume_witness :
  (forall v, json_load (json_dumps v) = Ok v)
  /\ holds_checkpoint disk_without_RC
       (status_json_of (example_args "mentalhealth"))
       ([] ++ done_RC_2020 :: [todo_RS_2020])
       (lit "subreddit:mentalhealth") script_type
  /\ Forall (on_disk disk_without_RC) []
  /\ stat_size disk_without_RC (input_path done_RC_2020) = None
  /\ load_file_list disk_without_RC
       (status_json_of (example_args "mentalhealth"))
     = Raise (OSError (input_path done_RC_2020))
  /\ main disk_without_RC (example_args "mentalhealth") 0 []
     = Died (OSError (input_path done_RC_2020)).
Proof.
  assert (Hcodec : forall v, json_load (json_dumps v) = Ok v)
    by reflexivity.
  assert (Hholds : holds_checkpoint disk_without_RC
                     (status_json_of (example_args "mentalhealth"))
                     ([] ++ done_RC_2020 :: [todo_RS_2020])
                     (lit "subreddit:mentalhealth") script_type)
    by reflexivity.
  split; [exact Hcodec|]. split; [exact Hholds|].
  split; [constructor|]. split; [reflexivity|].
  exact (vanished_file_stops_resume (codec := example_codec) disk_without_RC
           (example_args "mentalhealth") [] [todo_RS_2020] done_RC_2020
           (lit "subreddit:mentalhealth") script_type 0 [] Hcodec Hholds
           (Forall_nil _) eq_refl).
Defined.

Lemma rerun_resumes_witness :
  (forall v, json_load (json_dumps v) = Ok v)
  /\ holds_checkpoint stopped_disk
       (status_json_of (example_args "mentalhealth"))
       [done_RC_2020; todo_RS_2020]
       (arg_string (example_args "mentalhealth")) script_type
  /\ Forall (on_disk stopped_disk) [done_RC_2020; todo_RS_2020]
  /\ startup stopped_disk (example_args "mentalhealth")
     = Dispatch stopped_disk (map reloaded [done_RC_2020; todo_RS_2020])
         (files_to_process (map reloaded [done_RC_2020; todo_RS_2020]))
  /\ forall f,
       In f (dispatched (startup stopped_disk (example_args "mentalhealth")))
       <-> exists g, In g [done_RC_2020; todo_RS_2020]
                     /\ complete g = false /\ f = reloaded g.
Proof.
  assert (Hcodec : forall v, json_load (json_dumps v) = Ok v)
    by reflexivity.
  assert (Hholds : holds_checkpoint stopped_disk
                     (status_json_of (example_args "mentalhealth"))
                     [done_RC_2020; todo_RS_2020]
                     (arg_string (example_args "mentalhealth")) script_type)
    by reflexivity.
  assert (Hdisk : Forall (on_disk stopped_disk) [done_RC_2020; todo_RS_2020])
    by (repeat constructor).
  split; [exact Hcodec|]. split; [exact Hholds|]. split; [exact Hdisk|].
  exact (rerun_resumes (codec := example_codec) stopped_disk
           (example_args "mentalhealth") [done_RC_2020; todo_RS_2020]
           Hcodec Hholds Hdisk).
Defined.

(** ** More on the main loop *)

Section DrainFacts.
Context {codec : Codec}.

(** What a round of the loop that goes through leaves. *)
Lemma drain_step_ok (args : Args) total_bytes (c c' : Coordinator)
    (u : FileConfig) (t : Q) :
  lines_processed u <> 0 ->
  drain_step args total_bytes c (u, t) = Ok c' ->
  input_files c'
  = map (fun file => if str_eqb (input_path file) (input_path u)
                     then u else file) (input_files c)
  /\ disk c'
     = (if is_terminal u
        then save_file_list (disk c) (input_files c') (working args)
               (status_json_of args) (arg_string args) script_type None
        else disk c)
  /\ max_size (progress_queue c') = max_size (progress_queue c)
  /\ max_size (speed_queue c') = max_size (speed_queue c).
Proof.
  intros Hlines. unfold drain_step.
  destruct (Z.eqb_spec (lines_processed u) 0); [tauto|]. cbn zeta.
  destruct (Queue_peek _) as [[[first_time first_lines] first_bytes]|];
    [|discriminate].
  repeat match goal with
         | |- context [truediv ?a ?b] => destruct (truediv a b); cbn [bind]
         end; try discriminate.
  intros [= <-]. cbn. repeat split.
Qed.

Lemma drain_step_skip (args : Args) total_bytes (c : Coordinator)
    (u : FileConfig) (t : Q) :
  lines_processed u = 0 -> drain_step args total_bytes c (u, t) = Ok c.
Proof. intros Hlines. unfold drain_step. now rewrite Hlines. Qed.

Lemma updated_by_one updates u t f :
  updated_by ((u, t) :: updates)
    f (if str_eqb (input_path f) (input_path u) then u else f).
Proof.
  destruct (str_eqb (input_path f) (input_path u)) eqn:E; [|now left].
  apply str_eqb_eq in E. right. exists t. split; [now left|congruence].
Qed.

Lemma updated_by_later update updates f g h :
  updated_by [update] f g -> updated_by updates g h ->
  updated_by (update :: updates) f h.
Proof.
  intros [->|(t & Hin & Hpath)] [->|(t' & Hin' & Hpath')].
  - now left.
  - right. exists t'. split; [now right|assumption].
  - right. exists t. destruct Hin as [->|[]]. split; [now left|assumption].
  - right. exists t'. split; [now right|congruence].
Qed.

Lemma Forall2_refl {A} (R : A -> A -> Prop) l :
  (forall x, R x x) -> Forall2 R l l.
Proof. intros HR. induction l; constructor; auto. Qed.

Lemma Forall2_compose {A} (R S T : A -> A -> Prop) : forall l m n,
  (forall x y z, R x y -> S y z -> T x z) ->
  Forall2 R l m -> Forall2 S m n -> Forall2 T l n.
Proof.
  intros l m n HT Hlm. revert n.
  induction Hlm as [|x y l m Hxy _ IH]; intros n Hmn; inversion Hmn; subst;
    constructor; eauto.
Qed.

(** X19. The loop keeps the task list as it is but for the updates: an
    update replaces the records of its own input path and no other, so
    after any number of updates the list has the same length and order, and
    each record is the one that was there or an update for the same
    path. *)
Theorem drain_keeps_files (args : Args) total_bytes updates : forall c c',
  drain args total_bytes c updates = Ok c' ->
  Forall2 (updated_by updates) (input_files c) (input_files c').
Proof.
  induction updates as [|[u t] updates IH]; intros c c'.
  - cbn. intros [= <-]. apply Forall2_refl. now left.
  - cbn [drain].
    destruct (drain_step args total_bytes c (u, t)) as [c1|e] eqn:Hstep;
      [|discriminate].
    cbn [bind]. intros Hrest. apply IH in Hrest.
    apply (Forall2_compose (updated_by [(u, t)]) (updated_by updates) _
             _ (input_files c1)); [apply updated_by_later| |exact Hrest].
    destruct (Z.eq_dec (lines_processed u) 0) as [Hz|Hnz].
    + rewrite (drain_step_skip _ _ _ _ _ Hz) in Hstep.
      inversion Hstep; subst. apply Forall2_refl. now left.
    + destruct (drain_step_ok _ _ _ _ _ _ Hnz Hstep) as (-> & _).
      induction (input_files c) as [|f files IHf]; cbn [map]; constructor;
        [apply updated_by_one|exact IHf].
Qed.

(** X20. Once the loop has handled the update of a file that is complete,
    the checkpoint on the disk says so: a later run for the same [--field]
    and [--value] does not dispatch any record of that input path. *)
Theorem completed_file_not_redispatched (args : Args) total_bytes
    (c c' : Coordinator) (u : FileConfig) (t : Q) :
  (forall v, json_load (json_dumps v) = Ok v) ->
  drain_step args total_bytes c (u, t) = Ok c' ->
  lines_processed u <> 0 ->
  complete u = true ->
  Forall (on_disk (disk c)) (input_files c) ->
  on_disk (disk c) u ->
  forall f, In f (dispatched (startup (disk c') args)) ->
            input_path f <> input_path u.
Proof.
  intros Hcodec Hstep Hlines Hdone Hfiles Hu f Hf.
  destruct (drain_step_ok _ _ _ _ _ _ Hlines Hstep) as (Hlist & Hdisk & _).
  unfold is_terminal in Hdisk. rewrite Hdone in Hdisk. cbn [orb] in Hdisk.
  assert (Hfiles' : Forall (on_disk (disk c')) (input_files c')).
  { rewrite Hdisk. apply Forall_forall. intros g Hg.
    apply on_disk_write_text. rewrite Hlist in Hg.
    apply in_map_iff in Hg. destruct Hg as (g0 & <- & Hg0).
    destruct (str_eqb _ _); [exact Hu|].
    revert g0 Hg0. now apply Forall_forall. }
  rewrite (startup_of_checkpoint (disk c') args (input_files c') Hcodec)
    in Hf; [|rewrite Hdisk; apply save_holds_checkpoint|exact Hfiles'].
  destruct (input_files c') as [|g0 files'] eqn:Elist; [destruct Hf|].
  cbn [dispatched] in Hf. apply In_files_to_process in Hf.
  destruct Hf as [Hin Hc]. apply in_map_iff in Hin.
  destruct Hin as (g & <- & Hg). cbn [reloaded complete input_path] in *.
  rewrite Hlist in Hg. apply in_map_iff in Hg.
  destruct Hg as (g1 & Hg1 & _).
  destruct (str_eqb (input_path g1) (input_path u)) eqn:E.
  - subst g. congruence.
  - subst g. intros Heq. rewrite Heq, str_eqb_refl in E. discriminate.
Qed.

End DrainFacts.

Lemma drain_keeps_files_witness :
  exists c',
    drain (example_args "mentalhealth") 150 example_coordinator
      [(halfway_RS_2020, 2%Q)] = Ok c'
    /\ Forall2 (updated_by [(halfway_RS_2020, 2%Q)])
         (input_files example_coordinator) (input_files c').
Proof.
  eexists. split; [vm_compute; reflexivity|].
  apply (drain_keeps_files (codec := example_codec)
           (example_args "mentalhealth") 150 [(halfway_RS_2020, 2%Q)]
           example_coordinator).
  vm_compute. reflexivity.
Defined.

Example drain_replaces_the_record :
  option_map input_files
    (match drain (example_args "mentalhealth") 150 example_coordinator
             [(halfway_RS_2020, 2%Q)] with
     | Ok c' => Some c'
     | Raise _ => None
     end)
  = Some [todo_RC_2020; halfway_RS_2020].
Proof. vm_compute. reflexivity. Qed.

Lemma completed_file_not_redispatched_witness :
  (forall v, json_load (json_dumps v) = Ok v)
  /\ exists c',
       drain_step (example_args "mentalhealth") 150 example_coordinator
         (done_RS_2020, 2%Q) = Ok c'
       /\ lines_processed done_RS_2020 <> 0
       /\ complete done_RS_2020 = true
       /\ Forall (on_disk (disk example_coordinator))
            (input_files example_coordinator)
       /\ on_disk (disk example_coordinator) done_RS_2020
       /\ forall f,
            In f (dispatched (startup (disk c')
                                (example_args "mentalhealth"))) ->
            input_path f <> input_path done_RS_2020.
Proof.
  assert (Hcodec : forall v, json_load (json_dumps v) = Ok v)
    by reflexivity.
  assert (Hlines : lines_processed done_RS_2020 <> 0) by discriminate.
  assert (Hfiles : Forall (on_disk (disk example_coordinator))
                     (input_files example_coordinator))
    by (repeat constructor).
  assert (Hu : on_disk (disk example_coordinator) done_RS_2020)
    by (split; reflexivity).
  split; [exact Hcodec|]. eexists.
  split; [vm_compute; reflexivity|]. split; [exact Hlines|].
  split; [reflexivity|]. split; [exact Hfiles|]. split; [exact Hu|].
  apply (completed_file_not_redispatched (codec := example_codec)
           (example_args "mentalhealth") 150 example_coordinator _
           done_RS_2020 2%Q Hcodec); try assumption; reflexivity.
Defined.

(** ** A file without a line *)

Section NoLine.
Context {lib : Library} {sink : Sink} {codec : Codec}.

Lemma drain_skips (args : Args) total_bytes (c : Coordinator) updates :
  Forall (fun update => lines_processed (fst update) = 0) updates ->
  drain args total_bytes c updates = Ok c.
Proof.
  induction 1 as [|[u t] updates Hu _ IH]; [reflexivity|].
  cbn [drain]. rewrite (drain_step_skip _ _ _ _ _ Hu). exact IH.
Qed.

(** X21. A file that gives no line (an archive that is missing, is empty or
    holds no newline, or whose first block does not decode) ends with a
    record that is complete or has an error message, and that still counts
    no line: the main loop takes every update that counts no line for the
    start of a file and skips it, so neither the task list nor the
    checkpoint ever shows that the file has ended. *)
Theorem file_without_lines_unrecorded {text'} (fs : FileSystem text')
    (f : FileConfig) field values database_name comment_depth
    (err : option exn) (w : Worker) (args : Args) total_bytes
    (c : Coordinator) (updates : list (FileConfig * Q)) :
  lines_processed f = 0 ->
  yield_lines (archive fs (input_path f)) = Some ([], err) ->
  process_file fs f [] field values database_name comment_depth
  = Some (Returned w) ->
  map fst updates = queue w ->
  is_terminal (file w) = true
  /\ drain args total_bytes c updates = Ok c.
Proof.
  intros Hzero Hlines. unfold process_file.
  destruct (database_connect database_name) as [s|e]; [|discriminate].
  rewrite Hlines. intros [= Hw] Hupdates.
  unfold process_stream, file_body in Hw. cbn [fst snd for_lines app] in Hw.
  unfold mbind at 1, ret in Hw.
  set (w0 := mkWorker f [] [] s [f]) in *.
  destruct (match err with Some e => raise e | None => finish_file end w0)
    as [res u] eqn:Hrun.
  assert (Hend : settled w0 u /\ (res = Ok tt -> complete (file u) = true)).
  { destruct err as [e|].
    - inversion Hrun; subst. split; [apply settled_refl|discriminate].
    - pose proof (finish_file_settled w0) as Hset. rewrite Hrun in Hset.
      split; [exact Hset|]. intros ->. now apply finish_file_ok in Hrun. }
  destruct Hend as ((_ & Hq & _ & Hp & _) & Hdone).
  cbn [w0 file queue app] in Hq, Hp.
  assert (Hall : Forall (fun s => lines_processed s = 0) (queue w)
                 /\ is_terminal (file w) = true).
  { destruct res as [[]|e]; subst w; cbn [queue_put on_file file queue];
      rewrite Hq.
    - split; [repeat constructor; congruence|].
      unfold is_terminal. now rewrite Hdone.
    - split; [repeat constructor; cbn; congruence|].
      unfold is_terminal. cbn. apply orb_true_r. }
  destruct Hall as [Hall Hterm]. split; [exact Hterm|].
  apply drain_skips. rewrite <- Hupdates in Hall.
  apply Forall_forall. intros update Hin.
  rewrite Forall_forall in Hall. apply Hall. now apply in_map.
Qed.

End NoLine.

Lemma file_without_lines_unrecorded_witness :
  lines_processed todo_RS_2020 = 0
  /\ yield_lines (archive empty_RS_disk (input_path todo_RS_2020))
     = Some ([], None)
  /\ exists w,
       process_file (lib := example_library) (sink := example_sink)
         empty_RS_disk todo_RS_2020 [] (lit "subreddit")
         [lit "mentalhealth"] (lit "reddit_bc") (-1)
       = Some (Returned w)
       /\ map fst [(todo_RS_2020, 1%Q); (file w, 2%Q)] = queue w
       /\ is_terminal (file w) = true
       /\ drain (example_args "mentalhealth") 150 example_coordinator
            [(todo_RS_2020, 1%Q); (file w, 2%Q)]
          = Ok example_coordinator.
Proof.
  split; [reflexivity|]. split; [reflexivity|].
  eexists. split; [vm_compute; reflexivity|]. split; [reflexivity|].
  apply (file_without_lines_unrecorded (lib := example_library)
           (sink := example_sink) (codec := example_codec) empty_RS_disk
           todo_RS_2020 (lit "subreddit") [lit "mentalhealth"]
           (lit "reddit_bc") (-1) None); reflexivity.
Defined.

(** ** Discovery *)

Lemma startswith_skipn (p a : str) :
  startswith p a = true -> a = p ++ skipn (length p) a.
Proof.
  revert a. induction p as [|x p IH]; intros a; [reflexivity|].
  destruct a as [|y a]; [discriminate|]. cbn [startswith].
  intros H. apply andb_true_iff in H. destruct H as [Hxy Hp].
  apply N.eqb_eq in Hxy. subst. cbn [length skipn app]. f_equal.
  now apply IH.
Qed.

Lemma endswith_strip (p a : str) :
  endswith p a = true -> rev (skipn (length p) (rev a)) ++ p = a.
Proof.
  unfold endswith. intros H. apply startswith_skipn in H.
  rewrite length_rev in H.
  rewrite <- (rev_involutive a) at 2. rewrite H at 2.
  now rewrite rev_app_distr, rev_involutive.
Qed.

(** [(a + sep + b).split(sep) == a.split(sep) + b.split(sep)] *)
Lemma split_char_sep_app sep (a b : str) :
  split_char sep (a ++ sep :: b) = split_char sep a ++ split_char sep b.
Proof.
  induction a as [|c a IH].
  - cbn. now rewrite N.eqb_refl.
  - cbn [app]. destruct (N.eqb c sep) eqn:Ec.
    + cbn [split_char]. rewrite Ec, IH. reflexivity.
    + rewrite !(split_char_cons sep c) by assumption. rewrite IH.
      pose proof (split_char_nonempty sep a).
      now destruct (split_char sep a).
Qed.

Lemma basename_after_slash (a name : str) :
  ~ In SLASH name -> basename (a ++ SLASH :: name) = name.
Proof.
  intros Hname. unfold basename.
  rewrite split_char_sep_app, (split_char_no_sep SLASH name Hname).
  apply last_last.
Qed.

Lemma basename_path_join (a name : str) :
  ~ In SLASH name -> basename (path_join a name) = name.
Proof.
  intros Hname. unfold path_join.
  destruct (startswith [SLASH] name) eqn:Hs.
  { destruct name as [|c name]; [discriminate|]. cbn [startswith] in Hs.
    rewrite andb_true_r in Hs. apply N.eqb_eq in Hs. subst c.
    exfalso. apply Hname. now left. }
  destruct a as [|c a].
  - unfold basename. now rewrite split_char_no_sep.
  - destruct (endswith [SLASH] (c :: a)) eqn:He.
    + apply endswith_strip in He. rewrite <- He, <- app_assoc.
      now apply basename_after_slash.
    + now apply basename_after_slash.
Qed.

Lemma selected_type (args : Args) (name : str) :
  selected args name = true ->
  name_type name
  = Some (if startswith (lit "RS_") name then SUBMISSION else COMMENT).
Proof.
  unfold selected, name_type. intros H.
  apply andb_true_iff in H. destruct H as [H _].
  apply andb_true_iff in H. destruct H as [_ H].
  change (lit "RC_") with [82; 67; 95]%N in *.
  change (lit "RS_") with [82; 83; 95]%N in *.
  change (lit "RC") with [82; 67]%N.
  change (lit "RS") with [82; 83]%N.
  destruct name as [|a [|b [|c name]]]; cbn [startswith] in *;
    rewrite ?andb_false_r in H; try discriminate.
  rewrite !andb_true_r in *.
  destruct (N.eqb_spec 82 a); cbn [andb orb] in *; [|discriminate].
  destruct (N.eqb_spec 83 b), (N.eqb_spec 67 b); cbn [andb orb] in *;
    try discriminate; try (subst; discriminate);
    destruct (N.eqb 95 c); try discriminate; reflexivity.
Qed.

Section DiscoverFacts.
Context {codec : Codec}.

Lemma discover_entry (fs : FileSystem text) (args : Args) subdir name :
  selected args name = true ->
  ~ In SLASH name ->
  match FileConfig_init fs (path_join subdir name)
          (Some (path_join (working args)
                   (rev (skipn 4 (rev name)) ++ lit ".zst")))
          false 0 0 0 with
  | Ok f => discovered fs args (subdir, name) f
  | Raise e =>
    stat_size fs (path_join subdir name) = None
    /\ e = OSError (path_join subdir name)
  end.
Proof.
  intros Hsel Hname.
  pose proof (selected_type args name Hsel) as Htype.
  assert (Hzst : rev (skipn 4 (rev name)) ++ lit ".zst" = name).
  { apply (endswith_strip (lit ".zst")). unfold selected in Hsel.
    apply andb_true_iff in Hsel. destruct Hsel as [Hsel _].
    apply andb_true_iff in Hsel. tauto. }
  rewrite Hzst. unfold FileConfig_init.
  destruct (stat_size fs (path_join subdir name)) as [size|] eqn:Hstat;
    [|now split].
  rewrite (basename_path_join subdir name Hname).
  unfold name_type in Htype.
  destruct (startswith (lit "RS") name).
  - inversion Htype as [Ht]. cbn. rewrite Hstat, <- Ht. now repeat split.
  - destruct (startswith (lit "RC") name); [|discriminate].
    inversion Htype as [Ht]. cbn. rewrite Hstat, <- Ht. now repeat split.
Qed.

Lemma candidates_selected (fs : FileSystem text) (args : Args) subdir name :
  In (subdir, name) (candidates fs args) ->
  selected args name = true
  /\ exists names, In (subdir, names) (walk fs (input args))
                   /\ In name names.
Proof.
  unfold candidates. intros Hin. apply in_flat_map in Hin.
  destruct Hin as ([subdir' names] & Hwalk & Hin).
  apply in_map_iff in Hin. destruct Hin as (name' & [= <- <-] & Hname).
  apply filter_In in Hname. destruct Hname as [Hname Hsel].
  split; [exact Hsel|]. now exists names.
Qed.

(** X22. For file names of ASCII characters, discovery builds one record
    for each file of the walk whose name ends in ".zst", starts with "RC_"
    or "RS_" and has no date outside the range asked for, in the order of
    the walk: its output path is the file name in the working folder, its
    type that of the prefix, and nothing in it is processed. The only
    exception that it raises is the error of [os.stat] on such a file; the
    [ValueError] of [FileConfig] is out of reach. (In a name with other
    characters [\d] may match a digit that is not one of 0 to 9, which
    [search_date] does not follow.) *)
Theorem discover_lists (fs : FileSystem text) (args : Args) :
  (forall subdir names name,
     In (subdir, names) (walk fs (input args)) -> In name names ->
     Forall (fun c => (c < 128)%N) name /\ ~ In SLASH name) ->
  match discover fs args with
  | Ok files => Forall2 (discovered fs args) (candidates fs args) files
  | Raise e =>
    exists subdir name,
      In (subdir, name) (candidates fs args)
      /\ stat_size fs (path_join subdir name) = None
      /\ e = OSError (path_join subdir name)
  end.
Proof.
  intros Hnames.
  assert (Hall : forall subdir name,
            In (subdir, name) (candidates fs args) ->
            selected args name = true /\ ~ In SLASH name).
  { intros subdir name Hin. apply candidates_selected in Hin.
    destruct Hin as (Hsel & names & Hwalk & Hname).
    split; [exact Hsel|]. now apply (Hnames subdir names name). }
  change (discover fs args)
    with (map_result
            (fun '(subdir, file_name) =>
               FileConfig_init fs (path_join subdir file_name)
                 (Some (path_join (working args)
                          (rev (skipn 4 (rev file_name)) ++ lit ".zst")))
                 false 0 0 0)
            (candidates fs args)).
  induction (candidates fs args) as [|[subdir name] entries IH];
    [constructor|].
  cbn [map_result].
  destruct (Hall subdir name (or_introl eq_refl)) as [Hsel Hname].
  pose proof (discover_entry fs args subdir name Hsel Hname) as Hentry.
  destruct (FileConfig_init fs (path_join subdir name) _ false 0 0 0)
    as [f|e]; cbn [bind].
  - assert (IH' := IH (fun s n Hin => Hall s n (or_intror Hin))).
    destruct (map_result _ entries) as [files|e]; cbn [bind].
    + now constructor.
    + destruct IH' as (s & n & Hin & Hrest). exists s, n.
      split; [now right|exact Hrest].
  - exists subdir, name. split; [now left|exact Hentry].
Qed.

End DiscoverFacts.

Lemma discover_lists_witness :
  (forall subdir names name,
     In (subdir, names) (walk example_disk (input (example_args "x"))) ->
     In name names ->
     Forall (fun c => (c < 128)%N) name /\ ~ In SLASH name)
  /\ match discover example_disk (example_args "x") with
     | Ok files =>
       Forall2 (discovered example_disk (example_args "x"))
         (candidates example_disk (example_args "x")) files
     | Raise e =>
       exists subdir name,
         In (subdir, name) (candidates example_disk (example_args "x"))
         /\ stat_size example_disk (path_join subdir name) = None
         /\ e = OSError (path_join subdir name)
     end.
Proof.
  assert (Hnames : forall subdir names name,
            In (subdir, names)
              (walk example_disk (input (example_args "x"))) ->
            In name names ->
            Forall (fun c => (c < 128)%N) name /\ ~ In SLASH name).
  { intros subdir names name [[= <- <-]|[]] [<-|[<-|[<-|[]]]];
      (split; [repeat constructor|vm_compute; intuition discriminate]). }
  split; [exact Hnames|].
  exact (discover_lists (codec := example_codec) example_disk
           (example_args "x") Hnames).
Defined.

Example discover_example :
  discover example_disk (example_args "x")
  = Ok [todo_RC_2020; todo_RS_2020].
Proof. reflexivity. Qed.

(** ** The comments of a post *)

Section RedditFacts.
Variable datetime : Type.
Variable utcfromtimestamp : json -> result datetime.
Variable py_str : json -> str.
Variable recursion_limit : nat.
Variable get : nat -> result Reddit.Response.

#[local] Abbreviation attempts := (Reddit.attempts get).
#[local] Abbreviation fetch :=
  (Reddit.get_reddit_comments datetime utcfromtimestamp py_str
     recursion_limit get).
#[local] Abbreviation extract :=
  (Reddit.extract_comments datetime utcfromtimestamp py_str).

Lemma backoff_succ k : backoff (S k) = backoff k ++ [2 * 2 ^ Z.of_nat k].
Proof. unfold backoff. now rewrite seq_S, map_app. Qed.

(** Attempts in a row that are answered 429: each is followed by a wait
    twice as long as the one before. *)
Lemma attempts_refused k : forall left attempt wait_time last sleeps,
  (forall i, (i < k)%nat ->
     exists r, get (attempt + i) = Ok r /\ Reddit.status_code r = 429) ->
  attempts (k + left) attempt wait_time last sleeps
  = attempts left (attempt + k) (wait_time * 2 ^ Z.of_nat k)
      (match k with
       | O => last
       | S k' =>
         match get (attempt + k') with
         | Ok r => Some r
         | Raise _ => None
         end
       end)
      (sleeps ++ map (fun i => wait_time * 2 ^ Z.of_nat i) (seq 0 k)).
Proof.
  induction k as [|k IH]; intros left attempt wait_time last sleeps Hall.
  - cbn [Nat.add seq map]. rewrite Nat.add_0_r, app_nil_r.
    f_equal. cbn. lia.
  - replace (S k + left)%nat with (k + S left)%nat by lia.
    rewrite (IH (S left)) by (intros i Hi; apply Hall; lia).
    destruct (Hall k ltac:(lia)) as (r & Hget & Hstatus).
    cbn [Reddit.attempts]. rewrite Hget, Hstatus.
    cbn [Z.eqb Pos.eqb]. rewrite seq_S, map_app, app_assoc. cbn [map].
    replace (attempt + S k)%nat with (S (attempt + k)) by lia.
    replace (wait_time * 2 ^ Z.of_nat (S k))
      with (wait_time * 2 ^ Z.of_nat k * 2)
      by (rewrite Nat2Z.inj_succ, Z.pow_succ_r; lia).
    reflexivity.
Qed.

(** X23. When each of the [max_retries] attempts is answered 429,
    [get_reddit_comments] makes [max_retries] requests, waits after each of
    them, twice as long each time from 2 seconds on, and returns no
    comment. With no attempt to make it raises [UnboundLocalError]: the
    test after the loop reads a response that was never there. *)
Theorem retries_exhausted (post_id : option json) (max_retries : Z) :
  (forall i, (i < Z.to_nat max_retries)%nat ->
     exists r, get i = Ok r /\ Reddit.status_code r = 429) ->
  fetch post_id max_retries
  = (match Z.to_nat max_retries with
     | O => Raise (OtherError (lit "UnboundLocalError: response"))
     | S _ => Ok []
     end,
     backoff (Z.to_nat max_retries), Z.to_nat max_retries).
Proof.
  intros Hall. unfold Reddit.get_reddit_comments.
  replace (Z.to_nat max_retries) with (Z.to_nat max_retries + 0)%nat at 1
    by lia.
  rewrite attempts_refused by exact Hall.
  cbn [Reddit.attempts app Nat.add]. fold (backoff (Z.to_nat max_retries)).
  destruct (Z.to_nat max_retries) as [|k] eqn:Hn; [reflexivity|].
  destruct (Hall k ltac:(lia)) as (r & Hget & Hstatus).
  cbn [Nat.add]. rewrite Hget, Hstatus. reflexivity.
Qed.

(** X24. The first answer that is not 429 decides, if it comes within
    [max_retries] attempts: after a wait for each attempt before it, no
    other request is made; an answer that is not 200 gives no comment,
    and the document of an answer 200 is read. *)
Theorem first_answer_decides (post_id : option json) (max_retries : Z)
    (k : nat) (r : Reddit.Response) :
  (k < Z.to_nat max_retries)%nat ->
  (forall i, (i < k)%nat ->
     exists r, get i = Ok r /\ Reddit.status_code r = 429) ->
  get k = Ok r ->
  Reddit.status_code r <> 429 ->
  fetch post_id max_retries
  = (if Reddit.status_code r =? 200 then
       bind (Reddit.response_json r) (fun data =>
       bind (Reddit.subscript_int data 1) (fun listing =>
       bind (subscript listing (lit "data")) (fun listing =>
       bind (subscript listing (lit "children")) (fun children =>
       extract recursion_limit post_id children post_id 0 []))))
     else Ok [],
     backoff k, S k).
Proof.
  intros Hk Hall Hget Hstatus. unfold Reddit.get_reddit_comments.
  replace (Z.to_nat max_retries)
    with (k + S (Z.to_nat max_retries - S k))%nat by lia.
  rewrite attempts_refused by exact Hall.
  cbn [Reddit.attempts app Nat.add]. rewrite Hget. fold (backoff k).
  destruct (Z.eqb_spec (Reddit.status_code r) 200) as [H200|H200].
  - rewrite H200. reflexivity.
  - destruct (Z.eqb_spec (Reddit.status_code r) 429); [tauto|reflexivity].
Qed.

(** *** The rows of a listing *)

Hypothesis py_str_str : forall s, py_str (JStr s) = s.

#[local] Abbreviation entry_of :=
  (Reddit.entry datetime utcfromtimestamp py_str).
#[local] Abbreviation rows_of := (rows datetime utcfromtimestamp).
#[local] Abbreviation dated_tree := (dated datetime utcfromtimestamp).

Lemma entry_more recur post_id parent_id depth count children comments :
  entry_of recur post_id parent_id depth (thread_json (More count children))
    comments
  = Ok comments.
Proof. reflexivity. Qed.

Lemma make_comment_reply post_id parent_id depth id author created_utc body
    replies :
  (truthy created_utc = true ->
   exists time, utcfromtimestamp created_utc = Ok time) ->
  Reddit.make_comment datetime utcfromtimestamp py_str
    (reply_data id author created_utc body replies) post_id parent_id depth
  = Ok (Reddit.mkComment datetime (JStr id) post_id parent_id
          (if str_eqb author (lit "[deleted]") then lit "[deleted]"
           else lit "u/" ++ author)
          (stamp datetime utcfromtimestamp created_utc) (JStr body) depth).
Proof.
  intros Htime. unfold Reddit.make_comment, stamp.
  change (subscript (reply_data id author created_utc body replies)
            (lit "id")) with (Ok (JStr id)).
  change (subscript (reply_data id author created_utc body replies)
            (lit "author")) with (Ok (JStr author)).
  change (subscript (reply_data id author created_utc body replies)
            (lit "created_utc")) with (Ok created_utc).
  change (subscript (reply_data id author created_utc body replies)
            (lit "body")) with (Ok (JStr body)).
  cbn [bind differs_from]. rewrite py_str_str.
  destruct (str_eqb author (lit "[deleted]")); cbn [negb bind];
    (destruct (truthy created_utc); cbn [bind]; [|reflexivity]);
    destruct (Htime eq_refl) as [time ->]; reflexivity.
Qed.

Lemma entry_reply recur post_id parent_id depth id author created_utc body
    replies comments :
  (truthy created_utc = true ->
   exists time, utcfromtimestamp created_utc = Ok time) ->
  entry_of recur post_id parent_id depth
    (thread_json (Reply id author created_utc body replies)) comments
  = if str_eqb author (lit "AutoModerator") then Ok comments
    else
      let comments :=
        comments
        ++ [Reddit.mkComment datetime (JStr id) post_id parent_id
              (if str_eqb author (lit "[deleted]") then lit "[deleted]"
               else lit "u/" ++ author)
              (stamp datetime utcfromtimestamp created_utc) (JStr body)
              depth] in
      match replies with
      | [] => Ok comments
      | _ => recur (JList (map thread_json replies)) (Some (JStr id))
               (depth + 1) comments
      end.
Proof.
  intros Htime. unfold Reddit.entry. cbn [thread_json].
  set (data := reply_data id author created_utc body
                 (map thread_json replies)).
  change (subscript (JDict [(lit "kind", JStr (lit "t1"));
                            (lit "data", data)]) (lit "data"))
    with (Ok data).
  cbn [bind]. unfold Reddit.has_text.
  change (Reddit.contains (lit "body") data) with (Ok true).
  change (subscript data (lit "author")) with (Ok (JStr author)).
  cbn [bind differs_from].
  destruct (str_eqb author (lit "AutoModerator")); cbn [negb];
    [reflexivity|].
  unfold data at 1. rewrite (make_comment_reply _ _ _ _ _ _ _ _ Htime).
  cbn [bind]. unfold Reddit.has_replies.
  change (Reddit.contains (lit "replies") data) with (Ok true).
  cbn [bind].
  change (subscript data (lit "id")) with (Ok (JStr id)).
  destruct replies as [|r replies]; [reflexivity|].
  change (subscript data (lit "replies"))
    with (Ok (listing_json (map thread_json (r :: replies)))).
  cbn [bind Reddit.is_dict listing_json].
  reflexivity.
Qed.

Lemma forest_height_cons t threads :
  forest_height (t :: threads)
  = Nat.max (height t) (forest_height threads).
Proof. reflexivity. Qed.

Lemma flat_map_app_rows {A B} (f : A -> list B) l1 l2 :
  flat_map f (l1 ++ l2) = flat_map f l1 ++ flat_map f l2.
Proof. apply flat_map_app. Qed.

(** The rows of a listing of comments, given calls enough. *)
Lemma extract_comments_rows fuel : forall post_id threads parent_id depth
    comments,
  (forest_height threads < fuel)%nat ->
  all_dated datetime utcfromtimestamp threads ->
  extract fuel post_id (JList (map thread_json threads)) parent_id
    depth comments
  = Ok (comments ++ flat_map (rows_of post_id parent_id depth) threads).
Proof.
  induction fuel as [|fuel IH];
    intros post_id threads parent_id depth comments Hheight Hdated; [lia|].
  cbn [Reddit.extract_comments Reddit.iterate bind].
  revert comments Hheight Hdated.
  induction threads as [|t threads IHt]; intros comments Hheight Hdated.
  - cbn. now rewrite app_nil_r.
  - rewrite forest_height_cons in Hheight.
    destruct Hdated as [Ht Hrest].
    cbn [map Reddit.for_each flat_map].
    assert (Hentry :
              entry_of (extract fuel post_id) post_id parent_id depth
                (thread_json t) comments
              = Ok (comments ++ rows_of post_id parent_id depth t)).
    { destruct t as [count children|id author created_utc body replies].
      - rewrite entry_more. cbn. now rewrite app_nil_r.
      - destruct Ht as [Htime Hreplies].
        rewrite (entry_reply _ _ _ _ _ _ _ _ _ _ Htime).
        cbn [rows]. cbn [height] in Hheight.
        destruct (str_eqb author (lit "AutoModerator"));
          [now rewrite app_nil_r|].
        cbn zeta. destruct replies as [|r replies];
          [cbn [flat_map]; reflexivity|].
        rewrite IH; [now rewrite <- app_assoc| |exact Hreplies].
        fold (forest_height (r :: replies)) in Hheight. lia. }
    rewrite Hentry. cbn [bind].
    rewrite IHt; [now rewrite <- app_assoc|lia|exact Hrest].
Qed.

(** X25. The comments of a post that is answered at once with the listing
    of a tree of comments: one row for each comment that has a body and is
    not of AutoModerator, a comment before its replies, with the depth of
    its nesting and the id of what it replies to; the replies of a comment
    of AutoModerator are left out with it, and the author [[deleted]] gets
    no prefix. *)
Theorem comments_of_listing (post_id : option json) (max_retries : Z)
    (post : json) (threads : list Thread) :
  0 < max_retries ->
  get O = Ok (Reddit.mkResponse 200 (Ok (post_json post threads))) ->
  (forest_height threads < recursion_limit)%nat ->
  all_dated datetime utcfromtimestamp threads ->
  fetch post_id max_retries
  = (Ok (flat_map (rows_of post_id post_id 0) threads), [], 1%nat).
Proof.
  intros Hretries Hget Hheight Hdated. unfold Reddit.get_reddit_comments.
  destruct (Z.to_nat max_retries) as [|n] eqn:Hn; [lia|].
  cbn [Reddit.attempts]. rewrite Hget.
  cbn [Reddit.status_code Reddit.response_json Z.eqb Pos.eqb negb bind].
  unfold post_json. cbn [Reddit.subscript_int nth_error bind].
  change (subscript (listing_json (map thread_json threads)) (lit "data"))
    with (Ok (JDict [(lit "children", JList (map thread_json threads))])).
  cbn [bind].
  change (subscript (JDict [(lit "children",
                             JList (map thread_json threads))])
            (lit "children"))
    with (Ok (JList (map thread_json threads))).
  cbn [bind]. now rewrite extract_comments_rows.
Qed.

End RedditFacts.

Lemma retries_exhausted_witness :
  (forall i, (i < Z.to_nat 6)%nat ->
     exists r, refusing_server i = Ok r /\ Reddit.status_code r = 429)
  /\ Reddit.get_reddit_comments Z example_clock example_str 1000
       refusing_server (Some (JStr (lit "p1"))) 6
     = (Ok [], backoff (Z.to_nat 6), Z.to_nat 6).
Proof.
  assert (Hall : forall i, (i < Z.to_nat 6)%nat ->
            exists r, refusing_server i = Ok r
                      /\ Reddit.status_code r = 429).
  { intros i _. eexists. split; reflexivity. }
  split; [exact Hall|].
  exact (retries_exhausted Z example_clock example_str 1000 refusing_server
           (Some (JStr (lit "p1"))) 6 Hall).
Defined.

Example backoff_of_six : backoff 6 = [2; 4; 8; 16; 32; 64].
Proof. reflexivity. Qed.

Lemma first_answer_decides_witness :
  (2 < Z.to_nat 6)%nat
  /\ (forall i, (i < 2)%nat ->
        exists r, absent_post_server i = Ok r
                  /\ Reddit.status_code r = 429)
  /\ absent_post_server 2
     = Ok (Reddit.mkResponse 404 (Raise JSONDecodeError))
  /\ Reddit.status_code (Reddit.mkResponse 404 (Raise JSONDecodeError))
     <> 429
  /\ Reddit.get_reddit_comments Z example_clock example_str 1000
       absent_post_server (Some (JStr (lit "p1"))) 6
     = (Ok [], backoff 2, 3%nat).
Proof.
  assert (Hk : (2 < Z.to_nat 6)%nat) by (vm_compute; lia).
  assert (Hall : forall i, (i < 2)%nat ->
            exists r, absent_post_server i = Ok r
                      /\ Reddit.status_code r = 429).
  { intros i Hi. exists (Reddit.mkResponse 429 (Raise JSONDecodeError)).
    split; [|reflexivity].
    destruct i as [|[|i]]; [reflexivity|reflexivity|lia]. }
  assert (Hstatus : Reddit.status_code
                      (Reddit.mkResponse 404 (Raise JSONDecodeError))
                    <> 429) by discriminate.
  split; [exact Hk|]. split; [exact Hall|]. split; [reflexivity|].
  split; [exact Hstatus|].
  exact (first_answer_decides Z example_clock example_str 1000
           absent_post_server (Some (JStr (lit "p1"))) 6 2
           (Reddit.mkResponse 404 (Raise JSONDecodeError)) Hk Hall eq_refl
           Hstatus).
Defined.

Lemma comments_of_listing_witness :
  (forall s, example_str (JStr s) = s)
  /\ 0 < 6
  /\ document_server (post_json JNull example_threads) O
     = Ok (Reddit.mkResponse 200 (Ok (post_json JNull example_threads)))
  /\ (forest_height example_threads < 1000)%nat
  /\ all_dated Z example_clock example_threads
  /\ Reddit.get_reddit_comments Z example_clock example_str 1000
       (document_server (post_json JNull example_threads))
       (Some (JStr (lit "p1"))) 6
     = (Ok (flat_map (rows Z example_clock (Some (JStr (lit "p1")))
                        (Some (JStr (lit "p1"))) 0) example_threads),
        [], 1%nat).
Proof.
  assert (Hstr : forall s, example_str (JStr s) = s) by reflexivity.
  assert (Hheight : (forest_height example_threads < 1000)%nat)
    by (vm_compute; lia).
  assert (Hdated : all_dated Z example_clock example_threads).
  { cbn. repeat split; intros; try discriminate; eexists; reflexivity. }
  split; [exact Hstr|]. split; [lia|]. split; [reflexivity|].
  split; [exact Hheight|]. split; [exact Hdated|].
  exact (comments_of_listing Z example_clock example_str 1000
           (document_server (post_json JNull example_threads)) Hstr
           (Some (JStr (lit "p1"))) 6 JNull example_threads ltac:(lia)
           eq_refl Hheight Hdated).
Defined.

(** The rows of the example: the comment, and its reply of a deleted
    author; the reply of AutoModerator is left out with what follows it. *)
Example rows_of_example :
  map (fun row => (Reddit.id Z row, Reddit.parent_id Z row,
                   Reddit.author Z row, Reddit.created_utc Z row,
                   Reddit.depth Z row))
    (flat_map (rows Z example_clock (Some (JStr (lit "p1")))
                 (Some (JStr (lit "p1"))) 0) example_threads)
  = [(JStr (lit "c1"), Some (JStr (lit "p1")), lit "u/alice",
      Some 1577836800, 0);
     (JStr (lit "c4"), Some (JStr (lit "c1")), lit "[deleted]", None, 1)].
Proof. reflexivity. Qed.

(** ** More on [read_and_decode] *)

(** X26. A call of [read_and_decode] as [yield_lines] makes it, with a
    chunk of 2^27 bytes and a window of 2^30, ends after at most nine
    reads, and in one of two ways. It returns the text of the bytes read so
    far as soon as they decode as a whole, having then read no more than
    that; or, when nine reads have given nothing that decodes, it raises
    [UnicodeError] with the count of 9 * 2^27 bytes. So the calls are never
    nested more than nine deep. *)
Theorem read_and_decode_ends (r : Reader) :
  exists k,
    1 <= k <= 9
    /\ snd (read_and_decode r CHUNK_SIZE MAX_WINDOW_SIZE None 0)
       = after_reads r (k * CHUNK_SIZE)
    /\ (forall j, 1 <= j < k ->
          Utf8.decode (take (j * CHUNK_SIZE) (pending r)) = None)
    /\ match Utf8.decode (take (k * CHUNK_SIZE) (pending r)) with
       | Some t =>
         fst (read_and_decode r CHUNK_SIZE MAX_WINDOW_SIZE None 0) = Ok t
       | None =>
         k = 9
         /\ fst (read_and_decode r CHUNK_SIZE MAX_WINDOW_SIZE None 0)
            = Raise (UnicodeError (9 * CHUNK_SIZE))
       end.
Proof.
  pose proof (read_and_decode_outcome r CHUNK_SIZE MAX_WINDOW_SIZE None 0
                CHUNK_SIZE_pos) as Hout.
  assert (Hnine : forall k,
            (forall j, 1 <= j < k -> 0 + j * CHUNK_SIZE <= MAX_WINDOW_SIZE) ->
            k <= 9).
  { intros k Hall. destruct (Z.le_gt_cases k 9) as [Hle|Hgt]; [exact Hle|].
    assert (H9 : 1 <= 9 < k) by lia. apply Hall in H9.
    unfold CHUNK_SIZE, MAX_WINDOW_SIZE in H9. lia. }
  inversion Hout as [k t Hk Hall Hdec Heq | k Hk Hall Hdec Hw Heq];
    unfold accumulated in Hall, Hdec; cbn [previous_bytes app] in Hall, Hdec;
    assert (Hle : k <= 9) by (apply Hnine; intros j Hj; now apply Hall);
    exists k; rewrite Hdec; cbn [fst snd].
  - repeat split; try lia. intros j Hj. now apply Hall.
  - assert (Hk9 : k = 9)
      by (unfold CHUNK_SIZE, MAX_WINDOW_SIZE in Hw; lia).
    subst k. repeat split; try lia. intros j Hj. now apply Hall.
Qed.

(** Four bytes read two at a time, with a window of eight: the second read
    ends the first text. *)
Example read_and_decode_two_reads :
  read_and_decode {| pending := [x68; xc3; xa9; x0a]; delivered := 0 |} 2 8
    None 0
  = (Ok [104; 233; 10]%N, {| pending := []; delivered := 4 |}).
Proof. reflexivity. Qed.

(** ** A matched line whose comments cannot be fetched *)

Section Unfetched.
Context {lib : Library} {sink : Sink}.

(** X27. When [get_reddit_comments] raises for a line that matches, with an
    exception that the handler of the loop catches (a [KeyError] in the
    document of the thread, say), the line is counted as an error and as
    processed, not as matched; its submission was appended before the call
    and stays among the records to save. *)
Theorem unfetched_comments_counted_as_error field value comment_depth
    (line : str) (position : Z) (obj : json) (observed : str)
    (submission : Submission) (e : exn) (w : Worker) :
  json_loads line = Ok obj ->
  bind (subscript obj field) (fun v => lower_method v) = Ok observed ->
  line_matched value observed = true ->
  make_submission obj = Ok submission ->
  0 <= comment_depth ->
  get_reddit_comments (get_method obj (lit "id")) = Raise e ->
  line_handler_catches e = true ->
  exists w',
    process_line field value comment_depth (line, position) w = (Ok tt, w')
    /\ matched_records w' = matched_records w ++ [submission]
    /\ comment_records w' = comment_records w
    /\ lines_matched (file w') = lines_matched (file w)
    /\ error_lines (file w') = error_lines (file w) + 1
    /\ lines_processed (file w') = lines_processed (file w) + 1.
Proof.
  intros Hobj Hfield Hmatch Hsub Hdepth Hfetch Hcatch.
  unfold process_line, guarded_line, try_line, mbind, lift.
  rewrite Hobj, Hfield, Hmatch, Hsub.
  cbn [modify]. destruct (Z.leb_spec 0 comment_depth); [|lia].
  rewrite Hfetch, Hcatch.
  cbn [modify get ret on_file file set_records].
  destruct (_ =? 0); eexists; (split; [reflexivity|]); cbn; tauto.
Qed.

End Unfetched.

Lemma unfetched_comments_counted_as_error_witness :
  exists w',
    process_line (lib := example_library) (sink := keyless_thread_sink)
      (lit "subreddit") (Some (lit "mentalhealth")) 0
      (subreddit_line "MentalHealth", 0)
      (mkWorker (sink := keyless_thread_sink) todo_RS_2020 [] [] [] [])
    = (Ok tt, w')
    /\ matched_records w'
       = [] ++ [JDict [(lit "subreddit", JStr (lit "MentalHealth"))]]
    /\ comment_records w' = []
    /\ lines_matched (file w') = lines_matched todo_RS_2020
    /\ error_lines (file w') = error_lines todo_RS_2020 + 1
    /\ lines_processed (file w') = lines_processed todo_RS_2020 + 1.
Proof.
  apply (unfetched_comments_counted_as_error (lib := example_library)
           (sink := keyless_thread_sink) (lit "subreddit")
           (Some (lit "mentalhealth")) 0 (subreddit_line "MentalHealth") 0
           (JDict [(lit "subreddit", JStr (lit "MentalHealth"))])
           (lit "mentalhealth")
           (JDict [(lit "subreddit", JStr (lit "MentalHealth"))])
           (KeyError (lit "data"))
           (mkWorker (sink := keyless_thread_sink) todo_RS_2020 [] [] [] []));
    first [reflexivity|lia].
Defined.

(** ** One malformed line in a file *)

Section MalformedLine.
Context {lib : Library} {sink : Sink}.

Lemma ahead_by_refl (w : Worker) : ahead_by 0 w w.
Proof. unfold ahead_by. repeat split; lia. Qed.

Lemma ahead_by_trans a b (w1 w2 w3 : Worker) :
  ahead_by a w1 w2 -> ahead_by b w2 w3 -> ahead_by (a + b) w1 w3.
Proof.
  unfold ahead_by.
  intros (? & ? & ? & ? & ? & ? & ? & ? & ?)
         (? & ? & ? & ? & ? & ? & ? & ? & ?).
  repeat split; try congruence; lia.
Qed.

(** The byte offset that comes with a line goes into [bytes_processed] of a
    snapshot, and nowhere else. *)
Lemma process_line_offset field value comment_depth line p1 p2 w :
  fst (process_line field value comment_depth (line, p1) w)
  = fst (process_line field value comment_depth (line, p2) w)
  /\ ahead_by 0 (snd (process_line field value comment_depth (line, p1) w))
       (snd (process_line field value comment_depth (line, p2) w)).
Proof.
  unfold process_line, mbind, modify, get, ret.
  destruct (guarded_line field value comment_depth line w) as [[[]|e] u];
    cbn [fst snd]; [|split; [reflexivity|apply ahead_by_refl]].
  destruct (_ =? 0); cbn [fst snd]; (split; [reflexivity|]).
  - unfold ahead_by. cbn. repeat split; lia.
  - apply ahead_by_refl.
Qed.

Lemma for_lines_offsets field value comment_depth d : forall items1 items2,
  map fst items1 = map fst items2 ->
  alike d (for_lines field value comment_depth items1)
          (for_lines field value comment_depth items2).
Proof.
  induction items1 as [|[l1 p1] items1 IH]; intros [|[l2 p2] items2] Hmap;
    try discriminate; [apply alike_ret|].
  cbn [map fst] in Hmap. injection Hmap as -> Hmap. cbn [for_lines].
  apply alike_bind; [|intros _; now apply IH].
  intros w1 w2 Hw.
  destruct (alike_process_line d field value comment_depth (l2, p1) w1 w2 Hw)
    as [Hres Hst].
  destruct (process_line_offset field value comment_depth l2 p1 p2 w2)
    as [Hres' Hst'].
  split; [congruence|].
  pose proof (ahead_by_trans _ _ _ _ _ Hst Hst') as Hboth.
  now rewrite Z.add_0_r in Hboth.
Qed.

Lemma file_body_offsets field value comment_depth d items1 items2 :
  map fst items1 = map fst items2 ->
  alike d (file_body field value comment_depth (items1, None))
          (file_body field value comment_depth (items2, None)).
Proof.
  intros Hmap. unfold file_body. cbn [fst snd].
  apply alike_bind; [now apply for_lines_offsets|].
  intros _. apply alike_finish_file.
Qed.

(** A body that ends without an exception had all its lines. *)
Lemma file_body_ok_stream field value comment_depth items err w w' :
  file_body field value comment_depth (items, err) w = (Ok tt, w') ->
  err = None.
Proof.
  destruct err as [e|]; [|reflexivity].
  unfold file_body, mbind, raise. cbn [fst snd].
  destruct (for_lines field value comment_depth items w) as [[[]|e'] u];
    discriminate.
Qed.

End MalformedLine.

Lemma yield_lines_lines (a : Archive) (t : str) items :
  Utf8.decode (decompressed a) = Some t ->
  yield_lines (Some a) = Some (items, None) ->
  map fst items = complete_lines t.
Proof.
  intros Ht Hrun.
  destruct (yield_loop_correct (decompressed a) (tell_after a)
              (S (length (decompressed a))) 0
              {| pending := decompressed a; delivered := 0 |} [] [] t)
    as (items' & err & Hrun' & Hwell & _).
  - lia.
  - cbn [pending]. now rewrite Z.mul_0_l, drop_zero.
  - now rewrite Z.mul_0_l, take_zero.
  - exact Ht.
  - intros [].
  - cbn [pending]. lia.
  - unfold yield_lines in Hrun. rewrite Hrun in Hrun'.
    injection Hrun' as <- <-. exact Hwell.
Qed.

Lemma complete_lines_terminated before rest :
  Forall (fun line => ~ In NEWLINE line) before ->
  complete_lines (terminated before ++ rest) = before ++ complete_lines rest.
Proof.
  unfold terminated.
  induction 1 as [|line lines Hline _ IH]; [reflexivity|].
  cbn [map concat]. rewrite <- (app_assoc (line ++ [NEWLINE])).
  rewrite complete_lines_app. unfold complete_lines at 1.
  rewrite (split_char_terminated NEWLINE line Hline).
  cbn [removelast last app]. now rewrite IH.
Qed.

Section MalformedFile.
Context {lib : Library} {sink : Sink}.

(** C7, as the code has it. Take a file that [process_file] ends without
    an error message, and put one more line that is not valid JSON, with
    the newline that ends it, at the start of the file or right after a
    newline. If [yield_lines] still reads the file to its end,
    [process_file] counts the line once in [error_lines] and in
    [lines_processed], leaves [lines_matched] as without it, and ends with
    the file complete and no error message. *)
Theorem malformed_line_counted {text} (without_line with_line : FileSystem text)
    (f : FileConfig) (q : list FileConfig) field values database_name
    comment_depth (a a' : Archive) (before : list str) (line rest : str)
    (w : Worker) :
  archive without_line (input_path f) = Some a ->
  archive with_line (input_path f) = Some a' ->
  Utf8.decode (decompressed a) = Some (terminated before ++ rest) ->
  Utf8.decode (decompressed a')
  = Some (terminated before ++ line ++ NEWLINE :: rest) ->
  Forall (fun l => ~ In NEWLINE l) before ->
  ~ In NEWLINE line ->
  json_loads line = Raise JSONDecodeError ->
  read_to_end a' ->
  process_file without_line f q field values database_name comment_depth
  = Some (Returned w) ->
  error_message (file w) = None ->
  exists w',
    process_file with_line f q field values database_name comment_depth
    = Some (Returned w')
    /\ complete (file w') = true
    /\ error_message (file w') = None
    /\ error_lines (file w') = error_lines (file w) + 1
    /\ lines_matched (file w') = lines_matched (file w)
    /\ lines_processed (file w') = lines_processed (file w) + 1.
Proof.
  intros Ha Ha' Hdec Hdec' Hbefore Hline Hbad [items' Hrun'] Hclean Hmsg.
  unfold process_file in *. rewrite Ha in Hclean. rewrite Ha', Hrun'.
  destruct (database_connect database_name) as [session|e]; [|discriminate].
  destruct (yield_lines (Some a)) as [[items err]|] eqn:Hrun; [|discriminate].
  injection Hclean as <-.
  set (w0 := mkWorker f [] [] session (q ++ [f])) in *.
  set (value := single_value values) in *.
  unfold process_stream in Hmsg.
  destruct (file_body field value comment_depth (items, err) w0)
    as [[[]|e] v] eqn:Hbody; [|discriminate].
  pose proof (file_body_ok_stream _ _ _ _ _ _ _ Hbody) as ->.
  (* the lines of the two files *)
  pose proof (yield_lines_lines a _ items Hdec Hrun) as Hitems.
  pose proof (yield_lines_lines a' _ items' Hdec' Hrun') as Hitems'.
  rewrite complete_lines_terminated in Hitems by assumption.
  assert (Htext : terminated before ++ line ++ NEWLINE :: rest
                  = terminated (before ++ [line]) ++ rest).
  { unfold terminated. rewrite map_app, concat_app. cbn [map concat].
    now rewrite app_nil_r, <- !app_assoc. }
  rewrite Htext, complete_lines_terminated in Hitems'
    by (apply Forall_app; split; [assumption|now constructor]).
  rewrite <- app_assoc in Hitems'. cbn [app] in Hitems'.
  apply map_eq_app in Hitems'.
  destruct Hitems' as (ib & tail & -> & Hib & Htail).
  apply map_eq_cons in Htail.
  destruct Htail as ([line' p] & ia & -> & Hfst & Hia).
  cbn [fst] in Hfst. subst line'.
  (* the file without the line, read at the offsets of the other *)
  assert (Hsame : map fst items = map fst (ib ++ ia))
    by (rewrite map_app, Hib, Hia; exact Hitems).
  destruct (file_body_offsets field value comment_depth 0 items (ib ++ ia)
              Hsame w0 w0 (ahead_by_refl w0)) as [Hres Hst].
  rewrite Hbody in Hres, Hst. cbn [fst snd] in Hres, Hst.
  pose proof (malformed_item_counted field value comment_depth ib ia line p
                w0 Hbad (eq_sym Hres)) as Hcount.
  cbn zeta in Hcount.
  destruct Hcount as (Hok & Hdone & Hkept & Herr & Hmat & Hproc & _).
  pose proof (file_body_keeps field value comment_depth (items, None) w0)
    as Hclean.
  cbn zeta in Hclean. rewrite Hbody in Hclean. cbn [snd] in Hclean.
  cbn [file queue_put] in Hmsg.
  eexists. split; [reflexivity|].
  unfold process_stream in *. rewrite Hbody.
  destruct (file_body field value comment_depth (ib ++ ia, None) w0)
    as [[[]|e1] v1]; [|discriminate].
  destruct (file_body field value comment_depth
              (ib ++ (line, p) :: ia, None) w0) as [[[]|e2] v2];
    [|discriminate].
  cbn [file queue_put snd] in *.
  destruct Hst as (_ & _ & _ & Hm & He & Hp & _).
  destruct Hclean as [Hclean _].
  repeat split; [assumption|congruence|lia|lia|lia].
Qed.
End MalformedFile.

Lemma malformed_line_counted_witness :
  Utf8.decode (decompressed (archive_of_text without_bad_line))
  = Some (terminated [subreddit_line "MentalHealth"]
          ++ terminated [subreddit_line "python"])
  /\ Utf8.decode (decompressed (archive_of_text with_bad_line))
     = Some (terminated [subreddit_line "MentalHealth"]
             ++ lit "{not json"
             ++ NEWLINE :: terminated [subreddit_line "python"])
  /\ json_loads (lit "{not json") = Raise JSONDecodeError
  /\ read_to_end (archive_of_text with_bad_line)
  /\ exists w,
       process_file (disk_of (archive_of_text without_bad_line))
         todo_RS_2020 [] (lit "subreddit") [lit "mentalhealth"]
         (lit "reddit_bc") (-1)
       = Some (Returned w)
       /\ error_message (file w) = None
       /\ exists w',
            process_file (disk_of (archive_of_text with_bad_line))
              todo_RS_2020 [] (lit "subreddit") [lit "mentalhealth"]
              (lit "reddit_bc") (-1)
            = Some (Returned w')
            /\ complete (file w') = true
            /\ error_message (file w') = None
            /\ error_lines (file w') = error_lines (file w) + 1
            /\ lines_matched (file w') = lines_matched (file w)
            /\ lines_processed (file w') = lines_processed (file w) + 1.
Proof.
  assert (Hdec : Utf8.decode (decompressed (archive_of_text without_bad_line))
                 = Some (terminated [subreddit_line "MentalHealth"]
                         ++ terminated [subreddit_line "python"]))
    by (vm_compute; reflexivity).
  assert (Hdec' : Utf8.decode (decompressed (archive_of_text with_bad_line))
                  = Some (terminated [subreddit_line "MentalHealth"]
                          ++ lit "{not json"
                          ++ NEWLINE :: terminated [subreddit_line "python"]))
    by (vm_compute; reflexivity).
  assert (Hend : read_to_end (archive_of_text with_bad_line))
    by (eexists; vm_compute; reflexivity).
  split; [exact Hdec|]. split; [exact Hdec'|]. split; [reflexivity|].
  split; [exact Hend|].
  eexists. split; [reflexivity|]. split; [reflexivity|].
  apply (malformed_line_counted (lib := example_library)
           (sink := example_sink)
           (disk_of (archive_of_text without_bad_line))
           (disk_of (archive_of_text with_bad_line))
           todo_RS_2020 [] (lit "subreddit") [lit "mentalhealth"]
           (lit "reddit_bc") (-1)
           (archive_of_text without_bad_line) (archive_of_text with_bad_line)
           [subreddit_line "MentalHealth"] (lit "{not json")
           (terminated [subreddit_line "python"]));
    try reflexivity; try assumption.
  - repeat constructor. vm_compute. intuition discriminate.
  - vm_compute. intuition discriminate.
Defined.

(** A file whose last line is malformed and has no newline after it: the
    line is never yielded, so it is not counted, and the file is complete
    with one line processed. *)
Lemma malformed_line_counted_counterexample :
  Utf8.decode (decompressed (archive_of_text bad_last_line))
  = Some (terminated [subreddit_line "MentalHealth"] ++ lit "{not json")
  /\ json_loads (lit "{not json") = Raise JSONDecodeError
  /\ final_file
       (process_file (disk_of (archive_of_text bad_last_line)) todo_RS_2020
          [] (lit "subreddit") [lit "mentalhealth"] (lit "reddit_bc") (-1))
     = Some (mkFileConfig RS_2020 (Some (lit "temp_files/RS_2020-01.zst")) 90
               true 90 1 None 0 1 SUBMISSION).
Proof. vm_compute. repeat split; reflexivity. Qed.
